(** * thd.c, the triggerhappy daemon: registry, event loop and command channel

  A shallow embedding of [src/thd.c].  The globals of the C file ([devs],
  [command_pipe], [cmdfd], [cmdbuffer], [dump_events]) are the fields of one
  record that every function receives and returns.  What the operating
  system answers (the results of [open], [read] and [select], and the
  bytes that sit in an uninitialised local array) is an explicit input.
  Everything the daemon does to the outside (system calls, calls into the
  keystate tracker and the trigger engine, messages) is appended to a
  trace, oldest action first.  Where the C standard leaves the behaviour
  of a call undefined ([strcat] from an array that holds no NUL, [strcpy]
  between ranges that overlap, [free] of a pointer into [argv]), the drain,
  the turn of the loop and the run that come to it have no outcome. *)

From Stdlib Require Import String Ascii List ZArith Lia Bool.
Import ListNotations.
Open Scope Z_scope.

(** * The model *)

(** ** C strings *)

(** The content of a C string: its bytes up to, and without, the NUL. *)
Definition cstr := list ascii.

Definition NUL : ascii := Ascii.zero.
Definition NL : ascii := "010"%char.
Definition SPACE : ascii := " "%char.
Definition TAB : ascii := "009"%char.

(** A literal, as in the C source. *)
Definition lit (s : string) : cstr := list_ascii_of_string s.

Module CString.

(** The string that starts at the beginning of a [char] array: the bytes
    before the first NUL.  An array without a NUL holds no string; the C
    functions that look for the terminator then run off its end. *)
Fixpoint c_string (a : list ascii) : option cstr :=
  match a with
  | [] => None
  | c :: r =>
      if Ascii.eqb c NUL then Some []
      else match c_string r with
           | Some s => Some (c :: s)
           | None => None
           end
  end.

(** [strchr s c]: the offset of the first [c] in [s]. *)
Fixpoint strchr (s : cstr) (c : ascii) : option nat :=
  match s with
  | [] => None
  | x :: r =>
      if Ascii.eqb x c then Some O
      else match strchr r c with
           | Some i => Some (S i)
           | None => None
           end
  end.

(** [strcmp a b == 0]. *)
Fixpoint streq (a b : cstr) : bool :=
  match a, b with
  | [], [] => true
  | x :: a', y :: b' => Ascii.eqb x y && streq a' b'
  | _, _ => false
  end.

Definition is_delim (delims : cstr) (c : ascii) : bool :=
  existsb (Ascii.eqb c) delims.

Fixpoint skip_delims (delims : cstr) (s : cstr) : cstr :=
  match s with
  | [] => []
  | c :: r => if is_delim delims c then skip_delims delims r else s
  end.

(** The token at the head of [s] and what follows the delimiter that ends
    it ([strtok] overwrites that delimiter with NUL and resumes behind
    it). *)
Fixpoint span_token (delims : cstr) (s : cstr) : cstr * cstr :=
  match s with
  | [] => ([], [])
  | c :: r =>
      if is_delim delims c then ([], r)
      else let (t, rest) := span_token delims r in (c :: t, rest)
  end.

(** One call of [strtok]: [None] is the NULL result; otherwise the token
    and the text from which the next call ([strtok(NULL, ...)])
    continues. *)
Definition strtok (delims : cstr) (s : cstr) : option (cstr * cstr) :=
  match skip_delims delims s with
  | [] => None
  | s' => Some (span_token delims s')
  end.

End CString.
Import CString.

(** ** Constants and records *)

(** [#define MAXCMD 1024] *)
Definition MAXCMD : Z := 1024.

(** Event classes of <linux/input.h>, which the source reaches through
    eventnames.h. *)
Definition EV_KEY : Z := 1.
Definition EV_SW : Z := 5.

(** [struct input_event] without its timestamp, which thd.c never looks at. *)
Record input_event := { ev_type : Z; ev_code : Z; ev_value : Z }.

(** [sizeof(struct input_event)] on a 64-bit Linux: a 16 byte timeval, two
    16-bit fields and one 32-bit field. *)
Definition sizeof_input_event : Z := 24.

(** An entry of the device list of devices.h. *)
Record device := { fd : Z; devname : cstr }.

Inductive message :=
| MsgErrorReading (dev : cstr)      (* "Error reading device '%s'" *)
| MsgUnableToOpenFifo (path : option cstr) (* "Unable to open command fifo '%s': %s" *)
| MsgAdding (dev : cstr)            (* "Adding device '%s'" *)
| MsgRemoving (dev : cstr)          (* "Removing device '%s'" *)
| MsgErrorOpening (dev : cstr)      (* add_device reporting a failed open *)
| MsgSelect                         (* perror("select()") *)
| MsgNoInput.                       (* "No input device files or command pipe specified." *)

(** What the daemon does to the outside. *)
Inductive action :=
| ReadDev (fd : Z) (n : Z)                    (* read(fd, &ev, sizeof(ev)) = n *)
| ReadCmd (fd : Z) (count : Z) (done : Z)     (* read(cmdfd, &buf, count) = done *)
| OpenCmd (path : option cstr) (result : Z)   (* open(command_pipe, ...) = result *)
| OpenDev (path : cstr) (result : Z)          (* the open inside add_device *)
| Close (fd : Z)
| FreeOptarg (path : option cstr)             (* free(command_pipe) *)
| CallAdd (dev : cstr)                        (* add_device( dev, &devs ) *)
| CallRemove (dev : cstr)                     (* remove_device( dev, &devs ) *)
| ChangeKeystate (ev : input_event)           (* change_keystate( *keystate, ev ) *)
| PrintEvent (dev : cstr) (ev : input_event)  (* print_event( devname, ev ) *)
| PrintKeystate                               (* print_keystate( *keystate ) *)
| RunTriggers (type code value : Z)           (* run_triggers( ev.type, ev.code, ev.value ) *)
| Stderr (m : message).

(** The globals of thd.c, the answers [open] will give, and the trace. *)
Record daemon := {
  devs : list device;
  command_pipe : option cstr;
  cmdfd : Z;
  cmdbuffer : cstr;
  dump_events : bool;
  opens : list Z;
  trace : list action
}.

Definition with_devs (l : list device) (st : daemon) : daemon :=
  {| devs := l; command_pipe := command_pipe st; cmdfd := cmdfd st;
     cmdbuffer := cmdbuffer st; dump_events := dump_events st;
     opens := opens st; trace := trace st |}.

Definition with_command_pipe (p : option cstr) (st : daemon) : daemon :=
  {| devs := devs st; command_pipe := p; cmdfd := cmdfd st;
     cmdbuffer := cmdbuffer st; dump_events := dump_events st;
     opens := opens st; trace := trace st |}.

Definition with_cmdfd (f : Z) (st : daemon) : daemon :=
  {| devs := devs st; command_pipe := command_pipe st; cmdfd := f;
     cmdbuffer := cmdbuffer st; dump_events := dump_events st;
     opens := opens st; trace := trace st |}.

Definition with_cmdbuffer (b : cstr) (st : daemon) : daemon :=
  {| devs := devs st; command_pipe := command_pipe st; cmdfd := cmdfd st;
     cmdbuffer := b; dump_events := dump_events st;
     opens := opens st; trace := trace st |}.

Definition with_opens (o : list Z) (st : daemon) : daemon :=
  {| devs := devs st; command_pipe := command_pipe st; cmdfd := cmdfd st;
     cmdbuffer := cmdbuffer st; dump_events := dump_events st;
     opens := o; trace := trace st |}.

(** Append one action to the trace. *)
Definition emit (a : action) (st : daemon) : daemon :=
  {| devs := devs st; command_pipe := command_pipe st; cmdfd := cmdfd st;
     cmdbuffer := cmdbuffer st; dump_events := dump_events st;
     opens := opens st; trace := trace st ++ [a] |}.

(** The state in which [main] finds the globals. *)
Definition initial (answers : list Z) : daemon :=
  {| devs := []; command_pipe := None; cmdfd := -1; cmdbuffer := [];
     dump_events := false; opens := answers; trace := [] |}.

(** ** The operating system *)

Module Sys.

(** [open]: the next answer of the environment, a descriptor or -1. *)
Definition open (st : daemon) : Z * daemon :=
  match opens st with
  | [] => (-1, st)
  | r :: rest => ((if r <? 0 then -1 else r), with_opens rest st)
  end.

Definition close (f : Z) (st : daemon) : daemon := emit (Close f) st.

(** What a [read] on the command descriptor finds. *)
Inductive incoming :=
| Bytes (data : list ascii)   (* bytes written by a peer *)
| Eof                         (* every writer has closed *)
| Failed.                     (* an error, for instance EAGAIN *)

(** [read(fd, buf, count)] into the array [buf]: the result of the call
    and the array afterwards.  Only the bytes transferred are written.  A
    read of zero bytes returns 0 and does nothing else. *)
Definition read (i : incoming) (buf : list ascii) (count : Z)
  : Z * list ascii :=
  if count <=? 0 then (0, buf)
  else match i with
       | Bytes data =>
           let got := firstn (Z.to_nat count) data in
           (Z.of_nat (length got), got ++ skipn (length got) buf)
       | Eof => (0, buf)
       | Failed => (-1, buf)
       end.

(** Descriptor sets. *)
Definition fd_set := list Z.
Definition FD_ZERO : fd_set := [].
Definition FD_SET (f : Z) (s : fd_set) : fd_set := f :: s.
Definition FD_ISSET (f : Z) (s : fd_set) : bool := existsb (Z.eqb f) s.

(** What [select] finds: a failure, or the descriptors that have become
    readable when it returns (none of the watched ones on a timeout). *)
Inductive readiness :=
| SelectFailed
| Readable (ready : list Z).

(** [select(nfds, &rfds, NULL, NULL, &tv)]: the result and the set as
    [select] leaves it, the watched descriptors below [nfds] that are
    readable. *)
Definition select (nfds : Z) (rfds : fd_set) (r : readiness) : Z * fd_set :=
  match r with
  | SelectFailed => (-1, rfds)
  | Readable ready =>
      let s := filter (fun f => (f <? nfds) && FD_ISSET f ready)
                      (nodup Z.eq_dec rfds) in
      (Z.of_nat (length s), s)
  end.

End Sys.

(** ** The device registry (devices.h) *)

(** Modelled from the spec: devices.c, which defines [add_device],
    [remove_device] and [count_devices], is not among the sources.  Section
    4.1: add opens the path and, on success, appends a new device at the
    tail; on failure it logs and leaves the registry unchanged. *)
Definition add_device (dev : cstr) (st : daemon) : daemon :=
  let st := emit (CallAdd dev) st in
  let '(r, st) := Sys.open st in
  let st := emit (OpenDev dev r) st in
  if r <? 0 then emit (Stderr (MsgErrorOpening dev)) st
  else with_devs (devs st ++ [{| fd := r; devname := dev |}]) st.

(** Modelled from the spec: the search of remove_device, the first entry
    for [dev] and the list without it. *)
Fixpoint unlink (dev : cstr) (l : list device) : option (device * list device) :=
  match l with
  | [] => None
  | d :: r =>
      if streq (devname d) dev then Some (d, r)
      else match unlink dev r with
           | Some (x, r') => Some (x, d :: r')
           | None => None
           end
  end.

(** Modelled from the spec: section 4.1, remove closes the descriptor if
    the path is present and unlinks the entry; it does nothing if the path
    is not present. *)
Definition remove_device (dev : cstr) (st : daemon) : daemon :=
  let st := emit (CallRemove dev) st in
  match unlink dev (devs st) with
  | None => st
  | Some (d, l) => Sys.close (fd d) (with_devs l st)
  end.

(** Modelled from the spec: section 4.1, the number of entries. *)
Definition count_devices (l : list device) : Z := Z.of_nat (length l).

(** ** thd.c *)

(** What the environment answers during one turn of the event loop. *)
Record env := {
  sel : Sys.readiness;            (* what select finds *)
  dev_in : Z -> Z * input_event;  (* per descriptor: the result of the read
                                     of a record, and the record *)
  cmd_in : Sys.incoming;          (* what a read of the command pipe finds *)
  stack : nat -> ascii            (* the bytes in the storage that the local
                                     array buf comes to occupy *)
}.

(** [int read_event( device *dev )] *)
Definition read_event (e : env) (dev : device) (st : daemon) : Z * daemon :=
  let '(n, ev) := dev_in e (fd dev) in
  let st := emit (ReadDev (fd dev) n) st in
  if negb (n =? sizeof_input_event) then
    (1, emit (Stderr (MsgErrorReading (devname dev))) st)
  else if (ev_type ev =? EV_KEY) || (ev_type ev =? EV_SW) then
    let st := emit (ChangeKeystate ev) st in
    let st := if dump_events st
              then emit PrintKeystate (emit (PrintEvent (devname dev) ev) st)
              else st in
    (0, emit (RunTriggers (ev_type ev) (ev_code ev) (ev_value ev)) st)
  else (0, st).

(** [static int open_cmd(void)].  The only value other than NULL that
    thd.c ever stores in [command_pipe] is [optarg] (in main), so the
    [free] of the failure branch is handed a pointer into argv, which is
    undefined.  The call is recorded in the trace, and the state returned
    on that branch is the one the text of the source leads to; the callers
    ([loop_body], [start_readers]) look for the call in the trace and give
    no outcome for a run that has passed through it. *)
Definition open_cmd (st : daemon) : Z * daemon :=
  let '(r, st) := match command_pipe st with
                  | Some _ => Sys.open st
                  | None => (-1, st)   (* open(NULL, ...) *)
                  end in
  let st := emit (OpenCmd (command_pipe st) r) st in
  let st := with_cmdfd r st in
  if cmdfd st <? 0 then
    let st := emit (Stderr (MsgUnableToOpenFifo (command_pipe st))) st in
    let st := emit (FreeOptarg (command_pipe st)) st in
    (1, with_command_pipe None st)
  else (0, st).

(** [const char delimiters[] = " \t";] *)
Definition delimiters : cstr := [SPACE; TAB].

(** [static void process_commandline( char *line )] *)
Definition process_commandline (line : cstr) (st : daemon) : daemon :=
  match strtok delimiters line with
  | None => st
  | Some (op, rest) =>
      let dev := match strtok delimiters rest with
                 | Some (d, _) => Some d
                 | None => None
                 end in
      match dev with
      | Some d =>
          if streq (lit "ADD") op then
            let st := emit (Stderr (MsgAdding d)) st in
            (* make sure we remove double devices *)
            let st := remove_device d st in
            add_device d st
          else if streq (lit "REMOVE") op then
            let st := emit (Stderr (MsgRemoving d)) st in
            remove_device d st
          else st
      | None => st
      end
  end.

(** [strcpy( cmdbuffer, nl+1 )] copies the text behind the newline and its
    NUL, [length tail + 1] bytes, from offset [nl + 1] to offset 0 of the
    same array.  The two ranges overlap when the text behind the newline is
    longer than the line before it, and strcpy between objects that overlap
    is undefined. *)
Definition strcpy_overlaps (nl : nat) (tail : cstr) : bool :=
  (nl <? length tail)%nat.

(** The loop [while ( nl = strchr(cmdbuffer, '\n') )] of read_command_pipe.
    Every turn shortens the buffer, so a bound above its length is never
    used up (see [split_commands_lines]).  [None]: a [strcpy] whose source
    and destination overlap. *)
Fixpoint split_commands (fuel : nat) (st : daemon) : option daemon :=
  match fuel with
  | O => Some st
  | S fuel' =>
      match strchr (cmdbuffer st) NL with
      | None => Some st
      | Some nl =>
          (* *nl = '\0'; process_commandline( cmdbuffer ); *)
          let line := firstn nl (cmdbuffer st) in
          let tail := skipn (S nl) (cmdbuffer st) in
          let st := process_commandline line st in
          (* cmdbuffer[0] = '\0'; *)
          let st := with_cmdbuffer [] st in
          (* if (nl < cmdbuffer+MAXCMD) strcpy( cmdbuffer, nl+1 ); *)
          if Z.of_nat nl <? MAXCMD then
            if strcpy_overlaps nl tail then None
            else split_commands fuel' (with_cmdbuffer tail st)
          else split_commands fuel' st
      end
  end.

(** [static void read_command_pipe(void)].  [None]: [strcat] finds no NUL in
    [buf] and runs off the end of the array, or a [strcpy] of the loop
    copies between ranges that overlap. *)
Definition read_command_pipe (e : env) (st : daemon) : option daemon :=
  let len := Z.of_nat (length (cmdbuffer st)) in
  let rem := MAXCMD - len in
  (* char buf[rem]; not initialised *)
  let buf := map (stack e) (seq 0 (Z.to_nat rem)) in
  let '(done, buf) := Sys.read (cmd_in e) buf (rem - 1) in
  let st := emit (ReadCmd (cmdfd st) (rem - 1) done) st in
  if done =? 0 then
    let st := with_cmdbuffer [] st in
    let st := Sys.close (cmdfd st) st in
    Some (snd (open_cmd st))
  else
    (* strcat(cmdbuffer, buf); *)
    match c_string buf with
    | None => None
    | Some s =>
        let st := with_cmdbuffer (cmdbuffer st ++ s) st in
        split_commands (S (length (cmdbuffer st))) st
    end.

(** [static int add_to_fdset( fd_set *fds, device **list )]: the greatest
    descriptor and the set. *)
Fixpoint add_to_fdset (fds : Sys.fd_set) (p : list device) (max : Z)
  : Z * Sys.fd_set :=
  match p with
  | [] => (max, fds)
  | d :: next =>
      let max := if fd d >? max then fd d else max in
      add_to_fdset (Sys.FD_SET (fd d) fds) next max
  end.

(** The loop of [process_devices], from the entry [p] on. *)
Fixpoint process_devices_from (e : env) (fds : Sys.fd_set) (p : list device)
  (st : daemon) : daemon :=
  match p with
  | [] => st
  | d :: next =>
      if Sys.FD_ISSET (fd d) fds then
        let '(r, st) := read_event e d st in
        if negb (r =? 0) then
          (* read error? Remove the device! *)
          remove_device (devname d) st
        else process_devices_from e fds next st
      else process_devices_from e fds next st
  end.

(** [void process_devices( fd_set *fds, device **list )], called on
    [&devs]. *)
Definition process_devices (e : env) (fds : Sys.fd_set) (st : daemon) : daemon :=
  process_devices_from e fds (devs st) st.

(** The condition of the loop of [process_events]. *)
Definition loop_condition (st : daemon) : bool :=
  (count_devices (devs st) >? 0) || negb (cmdfd st =? -1).

(** The head of a turn of the loop of [process_events]: FD_ZERO,
    add_to_fdset and the command descriptor; the greatest descriptor and
    the set that select is given. *)
Definition watch (st : daemon) : Z * Sys.fd_set :=
  let '(maxfd, rfds) := add_to_fdset Sys.FD_ZERO (devs st) 0 in
  (* add command channel *)
  if negb (cmdfd st =? -1)
  then ((if cmdfd st >? maxfd then cmdfd st else maxfd),
        Sys.FD_SET (cmdfd st) rfds)
  else (maxfd, rfds).

(** [retval = select(maxfd+1, &rfds, NULL, NULL, &tv)] with [tv] set to
    five seconds: the result and the set as select leaves it. *)
Definition wait (e : env) (st : daemon) : Z * Sys.fd_set :=
  let '(maxfd, rfds) := watch st in
  Sys.select (maxfd + 1) rfds (sel e).

(** The actions that led from [st] to [st']. *)
Definition since (st st' : daemon) : list action :=
  skipn (length (trace st)) (trace st').

(** [free] is defined for NULL and for what an allocation function has
    returned.  A trace of thd.c stays within that when it holds no [free]
    of a path, since every path it could free is [optarg]. *)
Definition frees_only_null (t : list action) : bool :=
  forallb (fun a => match a with
                    | FreeOptarg (Some _) => false
                    | _ => true
                    end) t.

(** One turn of the loop of [process_events].  [None]: the drain has no
    defined outcome, or open_cmd has handed [optarg] to [free] in it; what
    [read_command_pipe] returns on that branch is the state at that call,
    from which the program is not bound to go on. *)
Definition loop_body (e : env) (st : daemon) : option daemon :=
  let '(retval, rfds) := wait e st in
  if retval =? -1 then Some (emit (Stderr MsgSelect) st)
  else if negb (retval =? 0) then
    let st := process_devices e rfds st in
    if negb (cmdfd st =? -1) && Sys.FD_ISSET (cmdfd st) rfds
    then match read_command_pipe e st with
         | Some st' =>
             if frees_only_null (since st st') then Some st' else None
         | None => None
         end
    else Some st
  else Some st.

(** How far a run of the daemon has come. *)
Inductive run :=
| Halted (st : daemon)     (* the loop has ended *)
| Running (st : daemon)    (* the loop waits for the next answer of select *)
| Undefined.               (* behaviour the C standard leaves undefined *)

(** [static void process_events( device **list )], against the answers [es]
    of the environment, one per turn of the loop. *)
Fixpoint process_events (es : list env) (st : daemon) : run :=
  if loop_condition st then
    match es with
    | [] => Running st
    | e :: es' =>
        match loop_body e st with
        | Some st' => process_events es' st'
        | None => Undefined
        end
    end
  else Halted st.

(** [int start_readers(int argc, char *argv[], int start)] up to the call of
    process_events; [paths] is [argv[start]] to [argv[argc-1]].  [inl] is the
    value of the [return] that the text of the source comes to before the
    loop, with the state at that point; [start_readers] below tells whether
    the way there is defined. *)
Definition setup_readers (paths : list cstr) (st : daemon) : Z * daemon + daemon :=
  let add_all st := fold_left (fun st dev => add_device dev st) paths st in
  match command_pipe st with
  | None =>
      if Z.of_nat (length paths) <? 1
      then inl (1, emit (Stderr MsgNoInput) st)
      else inr (add_all st)
  | Some _ =>
      (* open command pipe *)
      let st := snd (open_cmd st) in
      if cmdfd st <? 0 then inl (1, st) else inr (add_all st)
  end.

(** [start_readers]: the value it returns, if it returns, and the run.
    When open_cmd has handed [optarg] to [free] on the way, neither is
    defined. *)
Definition start_readers (es : list env) (paths : list cstr) (st : daemon)
  : option Z * run :=
  match setup_readers paths st with
  | inl (code, st') =>
      if frees_only_null (since st st') then (Some code, Halted st')
      else (None, Undefined)
  | inr st =>
      match process_events es st with
      | Halted st' => (Some 0, Halted st')
      | r => (None, r)
      end
  end.

(** The globals as [main] leaves them for start_readers: [--command] sets
    [command_pipe], [--dump] sets [dump_events]. *)
Definition configured (pipe : option cstr) (dump : bool) (answers : list Z)
  : daemon :=
  {| devs := []; command_pipe := pipe; cmdfd := -1; cmdbuffer := [];
     dump_events := dump; opens := answers; trace := [] |}.

(** * The vocabulary of the statements *)

(** ** Traces *)

(** Append a list of actions to the trace. *)
Definition emits (t : list action) (st : daemon) : daemon :=
  fold_left (fun s a => emit a s) t st.

Definition is_forward (a : action) : bool :=
  match a with
  | ChangeKeystate _ | RunTriggers _ _ _ => true
  | _ => false
  end.

Definition is_registry_call (a : action) : bool :=
  match a with
  | CallAdd _ | CallRemove _ => true
  | _ => false
  end.

Definition is_cmd_open (a : action) : bool :=
  match a with
  | OpenCmd _ _ => true
  | _ => false
  end.

(** The descriptors of the device reads in a trace, in order. *)
Fixpoint reads_of (t : list action) : list Z :=
  match t with
  | [] => []
  | ReadDev f _ :: r => f :: reads_of r
  | _ :: r => reads_of r
  end.

(** How one state follows from another when the command channel is left
    alone: its path and descriptor and the dump flag are the same, and the
    trace has grown by actions other than an open of the command pipe. *)
Definition kept (st st' : daemon) : Prop :=
  command_pipe st' = command_pipe st /\
  cmdfd st' = cmdfd st /\
  dump_events st' = dump_events st /\
  exists t, trace st' = trace st ++ t /\
            forallb (fun a => negb (is_cmd_open a)) t = true.

(** ** Device records *)

(** The two classes that read_event lets through. *)
Definition monitored (ev : input_event) : bool :=
  (ev_type ev =? EV_KEY) || (ev_type ev =? EV_SW).

(** The actions of read_event on a complete record [ev], after the read. *)
Definition forwarding (dump : bool) (name : cstr) (ev : input_event)
  : list action :=
  if monitored ev then
    [ChangeKeystate ev]
    ++ (if dump then [PrintEvent name ev; PrintKeystate] else [])
    ++ [RunTriggers (ev_type ev) (ev_code ev) (ev_value ev)]
  else [].

(** What read_event does for a device whose read delivers a whole
    record. *)
Definition record_actions (e : env) (dump : bool) (d : device) : list action :=
  ReadDev (fd d) sizeof_input_event
  :: forwarding dump (devname d) (snd (dev_in e (fd d))).

(** [FD_ISSET( fd, fds )] for the descriptor of a device. *)
Definition ready (fds : Sys.fd_set) (d : device) : bool :=
  Sys.FD_ISSET (fd d) fds.

(** The actions of a pass over devices whose reads all deliver a whole
    record. *)
Definition pass_actions (e : env) (fds : Sys.fd_set) (dump : bool)
  (p : list device) : list action :=
  flat_map (record_actions e dump) (filter (ready fds) p).

(** ** The registry *)

Definition paths (st : daemon) : list cstr := map devname (devs st).

(** No two entries of the registry carry the same path. *)
Definition paths_distinct (st : daemon) : Prop := NoDup (paths st).

(** ** Command lines *)

(** The first token of a line and its argument, as process_commandline
    obtains them from [strtok]. *)
Definition first_token (line : cstr) : option cstr :=
  match strtok delimiters line with
  | Some (op, _) => Some op
  | None => None
  end.

Definition argument (line : cstr) : option cstr :=
  match strtok delimiters line with
  | Some (_, rest) =>
      match strtok delimiters rest with
      | Some (d, _) => Some d
      | None => None
      end
  | None => None
  end.

(** The complete lines of a text, without their newlines, and the
    unterminated rest. *)
Fixpoint cut_lines (s : cstr) : list cstr * cstr :=
  match s with
  | [] => ([], [])
  | c :: r =>
      let (ls, t) := cut_lines r in
      if Ascii.eqb c NL then ([] :: ls, t)
      else match ls with
           | [] => ([], c :: t)
           | l :: ls' => ((c :: l) :: ls', t)
           end
  end.

(** Hand the lines to the parser, one after the other. *)
Definition parse_all (ls : list cstr) (st : daemon) : daemon :=
  fold_left (fun s l => process_commandline l s) ls st.

(** The length of the text made of the lines [ls], each with its newline,
    and the rest [r]. *)
Fixpoint text_length (ls : list cstr) (r : cstr) : nat :=
  match ls with
  | [] => length r
  | l :: ls' => S (length l + text_length ls' r)
  end.

(** No line is shorter than the text that follows its newline. *)
Fixpoint apart (ls : list cstr) (r : cstr) : bool :=
  match ls with
  | [] => true
  | l :: ls' => (text_length ls' r <=? length l)%nat && apart ls' r
  end.

(** The texts that the loop of read_command_pipe gets through without a
    [strcpy] between ranges that overlap. *)
Definition scan_defined (s : cstr) : bool :=
  apart (fst (cut_lines s)) (snd (cut_lines s)).

(** The bytes of a list before its first NUL. *)
Fixpoint until_nul (l : list ascii) : cstr :=
  match l with
  | [] => []
  | c :: r => if Ascii.eqb c NUL then [] else c :: until_nul r
  end.

(** ** The command channel *)

(** The descriptor of the command channel is -1 exactly when no path is
    configured (any more). *)
Definition channel_consistent (st : daemon) : Prop :=
  cmdfd st = -1 <-> command_pipe st = None.

(** The result of the read of read_command_pipe and [buf] after it. *)
Definition read_result (e : env) (st : daemon) : Z * list ascii :=
  let rem := MAXCMD - Z.of_nat (length (cmdbuffer st)) in
  Sys.read (cmd_in e) (map (stack e) (seq 0 (Z.to_nat rem))) (rem - 1).

(** The branch of read_command_pipe for a read that returns 0. *)
Definition reconnect (count : Z) (st : daemon) : daemon :=
  snd (open_cmd
         (Sys.close (cmdfd st)
            (with_cmdbuffer [] (emit (ReadCmd (cmdfd st) count 0) st)))).

(** What the open of the command pipe returns in [st]. *)
Definition reopen_answer (st : daemon) : Z :=
  match command_pipe st with
  | Some _ => fst (Sys.open st)
  | None => -1
  end.

(** * Sample inputs *)

Definition registered (f : Z) (name : string) : device :=
  {| fd := f; devname := lit name |}.

Definition key_press : input_event :=
  {| ev_type := EV_KEY; ev_code := 28; ev_value := 1 |}.

(** An environment in which nothing is readable, every device read would
    deliver [ev], the command pipe is at its end, and the stack holds
    zeros. *)
Definition quiet (ev : input_event) : env :=
  {| sel := Sys.Readable [];
     dev_in := fun _ => (sizeof_input_event, ev);
     cmd_in := Sys.Eof;
     stack := fun _ => NUL |}.

Definition with_cmd_in (i : Sys.incoming) (e : env) : env :=
  {| sel := sel e; dev_in := dev_in e; cmd_in := i; stack := stack e |}.

(** A zeroed stack and [text] in the command pipe. *)
Definition writes (text : list ascii) : env :=
  with_cmd_in (Sys.Bytes text) (quiet key_press).

(** A stack that holds the given bytes at the given offsets and zeros
    elsewhere. *)
Fixpoint stale (bytes : list (nat * ascii)) (i : nat) : ascii :=
  match bytes with
  | [] => NUL
  | (j, c) :: r => if Nat.eqb i j then c else stale r i
  end.

(** [text] in the command pipe and the given bytes left on the stack. *)
Definition writes_over (text : list ascii) (left_over : list (nat * ascii))
  : env :=
  {| sel := Sys.Readable [3];
     dev_in := fun _ => (sizeof_input_event, key_press);
     cmd_in := Sys.Bytes text;
     stack := stale left_over |}.

(** A daemon with its command channel open on descriptor 3 and a partial
    line buffered. *)
Definition listening (partial : string) (answers : list Z) : daemon :=
  with_cmdbuffer (lit partial)
    (with_cmdfd 3 (configured (Some (lit "/run/thd.cmd")) false answers)).

(** The same daemon with one device registered. *)
Definition serving (partial : string) (answers : list Z) : daemon :=
  with_devs [registered 4 "/dev/input/event0"] (listening partial answers).

(** A buffer that is full: MAXCMD-1 bytes without a newline. *)
Definition full_buffer : cstr := repeat "x"%char 1023.

(** Three devices, all ready; the read of the second one comes up short. *)
Definition three_devices : list device :=
  [registered 3 "/dev/input/event0"; registered 4 "/dev/input/event1";
   registered 5 "/dev/input/event2"].

Definition second_fails : env :=
  {| sel := Sys.Readable [3; 4; 5];
     dev_in := fun f => if f =? 4 then (8, key_press)
                        else (sizeof_input_event, key_press);
     cmd_in := Sys.Eof;
     stack := fun _ => NUL |}.

(** * The entry point *)

(** ** getopt.h *)

Module Getopt.

Inductive argument := no_argument | required_argument.

(** The [int] variables that a [flag] of the table points to. *)
Inductive variable := dump_events_var.          (* &dump_events *)

(** [struct option]. *)
Record long_option :=
  { name : cstr; has_arg : argument; flag : option variable; val : Z }.

(** What one call of getopt_long recognises in what is left of [argv]; the
    end of the options is the end of the list of these. *)
Inductive scanned :=
| LongOption (option_index : nat) (optarg : option cstr)
| ShortOption (c : ascii) (optarg : option cstr)
| Unrecognised.       (* unknown or ambiguous option, missing argument *)

(** A character as an [int]. *)
Definition chr (c : ascii) : Z := Z.of_N (N_of_ascii c).

(** Is [c] an option character of [optstring]? *)
Definition listed (optstring : cstr) (c : ascii) : bool :=
  negb (Ascii.eqb c ":") && existsb (Ascii.eqb c) optstring.

(** What a call leaves behind: the value returned, the index stored
    through [longindex], [optarg], and the store through [flag]. *)
Record answer :=
  { ret : Z; longindex : option nat; arg : option cstr;
    store : option (variable * Z) }.

(** [getopt_long]: for an entry of the table whose [flag] is not NULL it
    stores [val] there and returns 0, for the other entries it returns
    [val]; for a short option of [optstring] it returns the character, and
    '?' for what it does not recognise. *)
Definition getopt_long (optstring : cstr) (longopts : list long_option)
  (s : scanned) : answer :=
  let unknown := {| ret := chr "?"; longindex := None; arg := None;
                    store := None |} in
  match s with
  | LongOption i a =>
      match nth_error longopts i with
      | Some o =>
          match flag o with
          | Some v => {| ret := 0; longindex := Some i; arg := a;
                         store := Some (v, val o) |}
          | None => {| ret := val o; longindex := Some i; arg := a;
                       store := None |}
          end
      | None => unknown
      end
  | ShortOption c a =>
      if listed optstring c
      then {| ret := chr c; longindex := None; arg := a; store := None |}
      else unknown
  | Unrecognised => unknown
  end.

End Getopt.

(** ** main *)

(** [static struct option long_options[]], without the entry that ends the
    list. *)
Definition long_options : list Getopt.long_option :=
  [ {| Getopt.name := lit "dump"; Getopt.has_arg := Getopt.no_argument;
       Getopt.flag := Some Getopt.dump_events_var; Getopt.val := 1 |};
    {| Getopt.name := lit "triggers";
       Getopt.has_arg := Getopt.required_argument;
       Getopt.flag := None; Getopt.val := Getopt.chr "t" |};
    {| Getopt.name := lit "command";
       Getopt.has_arg := Getopt.required_argument;
       Getopt.flag := None; Getopt.val := Getopt.chr "c" |};
    {| Getopt.name := lit "help"; Getopt.has_arg := Getopt.no_argument;
       Getopt.flag := None; Getopt.val := Getopt.chr "h" |} ].

(** [{0,0,0,0}], the end of the list. *)
Definition end_of_list : Getopt.long_option :=
  {| Getopt.name := []; Getopt.has_arg := Getopt.no_argument;
     Getopt.flag := None; Getopt.val := 0 |}.

Definition optstring : cstr := lit "t:c:dh".

(** The calls of [main] itself, oldest first. *)
Inductive call :=
| Signal                                          (* signal(SIGCHLD, SIG_IGN) *)
| PrintOption (name : cstr) (optarg : option cstr) (* printf ("option %s", ...) *)
| ReadTriggerfile (optarg : option cstr)          (* read_triggerfile(optarg) *)
| ShowHelp                                        (* show_help() *)
| InitKeystateHolder.                             (* init_keystate_holder(&keystate) *)

Definition with_dump_events (b : bool) (st : daemon) : daemon :=
  {| devs := devs st; command_pipe := command_pipe st; cmdfd := cmdfd st;
     cmdbuffer := cmdbuffer st; dump_events := b; opens := opens st;
     trace := trace st |}.

(** The variables of [main] and the globals. *)
Record frame :=
  { option_index : nat; log : list call; globals : daemon }.

(** One turn of [while (1)] in [main] in which getopt_long recognises [s]:
    [inl] is the value that main returns from inside the switch. *)
Definition switch (s : Getopt.scanned) (f : frame) : Z * frame + frame :=
  let a := Getopt.getopt_long optstring long_options s in
  let i := match Getopt.longindex a with
           | Some i => i
           | None => option_index f
           end in
  let st := match Getopt.store a with
            | Some (Getopt.dump_events_var, v) =>
                with_dump_events (negb (v =? 0)) (globals f)
            | None => globals f
            end in
  let c := Getopt.ret a in
  let optarg := Getopt.arg a in
  if c =? 0 then
    match Getopt.flag (nth i long_options end_of_list) with
    | Some _ => inr {| option_index := i; log := log f; globals := st |}
    | None =>
        inr {| option_index := i;
               log := log f ++ [PrintOption
                                  (Getopt.name (nth i long_options end_of_list))
                                  optarg];
               globals := st |}
    end
  else if c =? Getopt.chr "d" then       (* short for --dump *)
    inr {| option_index := i; log := log f;
           globals := with_dump_events true st |}
  else if c =? Getopt.chr "t" then
    inr {| option_index := i; log := log f ++ [ReadTriggerfile optarg];
           globals := st |}
  else if c =? Getopt.chr "c" then
    inr {| option_index := i; log := log f;
           globals := with_command_pipe optarg st |}
  else if c =? Getopt.chr "h" then
    inl (0, {| option_index := i; log := log f ++ [ShowHelp];
               globals := st |})
  else
    inl (1, {| option_index := i; log := log f; globals := st |}).

(** The loop of [main]; getopt_long returns -1 when [scans] is used up. *)
Fixpoint options (scans : list Getopt.scanned) (f : frame)
  : Z * frame + frame :=
  match scans with
  | [] => inr f
  | s :: rest =>
      match switch s f with
      | inl r => inl r
      | inr f' => options rest f'
      end
  end.

(** [int main(int argc, char *argv[])]: [scans] is what getopt_long
    recognises in [argv], call after call, and [paths] are the arguments
    from [optind] on.  The value returned, if main returns, the calls of
    main itself, and the run. *)
Definition main (scans : list Getopt.scanned) (paths : list cstr)
  (es : list env) (answers : list Z) : option Z * list call * run :=
  match options scans {| option_index := 0; log := [Signal];
                         globals := initial answers |} with
  | inl (code, f) => (Some code, log f, Halted (globals f))
  | inr f =>
      let (code, r) := start_readers es paths (globals f) in
      (code, log f ++ [InitKeystateHolder], r)
  end.

(** ** Reading a command line of thd *)

(** The option that [s] stands for, by its short name, if getopt_long
    recognises it. *)
Definition letter (s : Getopt.scanned) : option ascii :=
  match s with
  | Getopt.LongOption 0 _ => Some "d"%char
  | Getopt.LongOption 1 _ => Some "t"%char
  | Getopt.LongOption 2 _ => Some "c"%char
  | Getopt.LongOption 3 _ => Some "h"%char
  | Getopt.LongOption _ _ => None
  | Getopt.ShortOption c _ =>
      if Getopt.listed optstring c then Some c else None
  | Getopt.Unrecognised => None
  end.

Definition optarg_of (s : Getopt.scanned) : option cstr :=
  match s with
  | Getopt.LongOption _ a => a
  | Getopt.ShortOption _ a => a
  | Getopt.Unrecognised => None
  end.

Definition is_option (c : ascii) (s : Getopt.scanned) : bool :=
  match letter s with
  | Some x => Ascii.eqb x c
  | None => false
  end.

(** [-d], [-t] and [-c] and their long forms: the options after which the
    loop of main goes on. *)
Definition passes (s : Getopt.scanned) : bool :=
  is_option "d" s || is_option "t" s || is_option "c" s.

(** The short form of a long option. *)
Definition short_form (s : Getopt.scanned) : Getopt.scanned :=
  match s, letter s with
  | Getopt.LongOption _ a, Some c => Getopt.ShortOption c a
  | _, _ => s
  end.

(** The argument of the last [--command], if there is one. *)
Definition last_command (scans : list Getopt.scanned) : option cstr :=
  match rev (filter (is_option "c") scans) with
  | s :: _ => optarg_of s
  | [] => None
  end.

Definition dump_asked (scans : list Getopt.scanned) : bool :=
  existsb (is_option "d") scans.

(** The trigger files, in the order of the command line. *)
Definition trigger_files (scans : list Getopt.scanned) : list call :=
  map (fun s => ReadTriggerfile (optarg_of s))
      (filter (is_option "t") scans).

Definition is_print_option (c : call) : bool :=
  match c with
  | PrintOption _ _ => true
  | _ => false
  end.

(** The globals after the options [scans], none of which ends main. *)
Definition settled (scans : list Getopt.scanned) (st : daemon) : daemon :=
  with_dump_events (dump_events st || dump_asked scans)
    (with_command_pipe
       (match rev (filter (is_option "c") scans) with
        | s :: _ => optarg_of s
        | [] => command_pipe st
        end) st).

(** Two results of the loop of main that differ at most in
    [option_index]. *)
Definition alike (r r' : Z * frame + frame) : Prop :=
  match r, r' with
  | inl (c, f), inl (c', f') =>
      c = c' /\ log f = log f' /\ globals f = globals f'
  | inr f, inr f' => log f = log f' /\ globals f = globals f'
  | _, _ => False
  end.

(** * Further vocabulary *)

(** ** What a function adds to the trace *)

(** From [st] to [st'] the trace has grown by actions of the kind [P]. *)
Definition emitted_only (P : action -> bool) (st st' : daemon) : Prop :=
  exists t, trace st' = trace st ++ t /\ forallb P t = true.

(** The actions of the command parser and of the two registry functions it
    calls. *)
Definition by_parser (a : action) : bool :=
  match a with
  | Stderr (MsgAdding _) | Stderr (MsgRemoving _) | Stderr (MsgErrorOpening _)
  | CallAdd _ | CallRemove _ | OpenDev _ _ | Close _ => true
  | _ => false
  end.

(** The actions of a dispatch pass. *)
Definition by_pass (a : action) : bool :=
  match a with
  | ReadDev _ _ | Stderr (MsgErrorReading _)
  | ChangeKeystate _ | PrintEvent _ _ | PrintKeystate | RunTriggers _ _ _
  | CallRemove _ | Close _ => true
  | _ => false
  end.

(** The actions of a drain of the command pipe. *)
Definition by_drain (a : action) : bool :=
  match a with
  | ReadCmd _ _ _ | OpenCmd _ _ | FreeOptarg _
  | Stderr (MsgUnableToOpenFifo _) => true
  | _ => by_parser a
  end.

Definition is_read_cmd (a : action) : bool :=
  match a with
  | ReadCmd _ _ _ => true
  | _ => false
  end.

(** The descriptors that a turn of the loop hands to select. *)
Definition watched (st : daemon) : list Z :=
  (if cmdfd st =? -1 then [] else [cmdfd st]) ++ map fd (devs st).

(** What select has reported readable, nothing when it failed. *)
Definition reported (e : env) : list Z :=
  match sel e with
  | Sys.Readable rd => rd
  | Sys.SelectFailed => []
  end.

(** The two collaborator calls that read_event makes for a record. *)
Definition forward_calls (ev : input_event) : list action :=
  if monitored ev
  then [ChangeKeystate ev; RunTriggers (ev_type ev) (ev_code ev) (ev_value ev)]
  else [].

(** ** The text of the command pipe *)

(** The buffer between two drains: below its capacity and without a
    newline. *)
Definition buffer_tidy (st : daemon) : Prop :=
  Z.of_nat (length (cmdbuffer st)) <= MAXCMD - 1 /\ ~ In NL (cmdbuffer st).

(** Two states that differ at most in the buffer and in the reads of the
    command descriptor that their traces record. *)
Definition agree (st st' : daemon) : Prop :=
  devs st = devs st' /\ command_pipe st = command_pipe st' /\
  cmdfd st = cmdfd st' /\ dump_events st = dump_events st' /\
  opens st = opens st' /\
  filter (fun a => negb (is_read_cmd a)) (trace st) =
  filter (fun a => negb (is_read_cmd a)) (trace st').

(** ** Tokens *)

(** A run of the delimiters of process_commandline. *)
Definition blank (s : cstr) : Prop :=
  forallb (is_delim delimiters) s = true.

(** A text that [strtok] returns as one token: not empty, and without
    space and tab. *)
Definition word (w : cstr) : Prop :=
  w <> [] /\ forallb (fun c => negb (is_delim delimiters c)) w = true.

(** ** The path of the command pipe *)

(** What holds of the command channel in every state of a run started with
    [pipe] as the value of [--command]: the descriptor is -1 exactly when
    the path is cleared, the path is the configured one unless cleared,
    and every open of the command pipe so far was given that path. *)
Definition channel_sound (pipe : option cstr) (st : daemon) : Prop :=
  channel_consistent st /\
  (command_pipe st = None \/ command_pipe st = pipe) /\
  forall p r, In (OpenCmd p r) (trace st) -> p = pipe /\ p <> None.

(** ** Further sample inputs *)

Definition switch_flip : input_event :=
  {| ev_type := EV_SW; ev_code := 0; ev_value := 1 |}.

(** Three devices; the first and the last are ready, one with a key press
    and one with a switch. *)
Definition two_of_three : env :=
  {| sel := Sys.Readable [3; 5];
     dev_in := fun f => (sizeof_input_event,
                         if f =? 3 then key_press else switch_flip);
     cmd_in := Sys.Eof;
     stack := fun _ => NUL |}.

Definition select_fails : env :=
  {| sel := Sys.SelectFailed;
     dev_in := fun _ => (sizeof_input_event, key_press);
     cmd_in := Sys.Eof;
     stack := fun _ => NUL |}.

Definition read_fails : env :=
  {| sel := Sys.Readable [3];
     dev_in := fun _ => (sizeof_input_event, key_press);
     cmd_in := Sys.Failed;
     stack := fun _ => NUL |}.


(** The same path twice in the registry, as [thd p p] leaves it; the
    second entry is ready and its read comes up short. *)
Definition twin_fails : env :=
  {| sel := Sys.Readable [4];
     dev_in := fun f => if f =? 4 then (8, key_press)
                        else (sizeof_input_event, key_press);
     cmd_in := Sys.Eof;
     stack := fun _ => NUL |}.

(** The command descriptor 3 is readable and every writer has closed. *)
Definition hangup : env := with_cmd_in Sys.Eof (writes_over [] []).

(** The bytes of [text] at the offsets from [offset] on. *)
Definition left_at (offset : nat) (text : cstr) : list (nat * ascii) :=
  combine (seq offset (length text)) text.

(** [thd --dump -c /run/a -t keys.conf --command /run/b -t more.conf]. *)
Definition some_options : list Getopt.scanned :=
  [Getopt.LongOption 0 None;
   Getopt.ShortOption "c" (Some (lit "/run/a"));
   Getopt.ShortOption "t" (Some (lit "keys.conf"));
   Getopt.LongOption 2 (Some (lit "/run/b"));
   Getopt.ShortOption "t" (Some (lit "more.conf"))].

(** * Properties *)

(** ** Basic facts *)

Lemma some_eq {A : Type} (a b : A) : Some a = Some b -> a = b.
Proof. intros H. congruence. Qed.

Lemma streq_eq (a b : cstr) : streq a b = true <-> a = b.
Proof.
  revert b; induction a as [|x a IH]; intros [|y b]; simpl;
    try (split; [discriminate | discriminate]); try tauto.
  rewrite andb_true_iff, Ascii.eqb_eq, IH.
  split; [intros [-> ->]; reflexivity | intros H; inversion H; auto].
Qed.

Lemma streq_refl (a : cstr) : streq a a = true.
Proof. apply streq_eq; reflexivity. Qed.

Lemma streq_neq (a b : cstr) : streq a b = false <-> a <> b.
Proof.
  rewrite <- streq_eq. destruct (streq a b); split; congruence.
Qed.

Lemma since_app (st st' : daemon) (t : list action) :
  trace st' = trace st ++ t -> since st st' = t.
Proof.
  intros H. unfold since. rewrite H, skipn_app, skipn_all, Nat.sub_diag.
  reflexivity.
Qed.

Lemma since_refl (st : daemon) : since st st = [].
Proof. apply since_app. rewrite app_nil_r. reflexivity. Qed.

(** ** The command parser *)

Lemma process_commandline_tokens (line : cstr) (st : daemon) :
  process_commandline line st =
  match first_token line, argument line with
  | Some op, Some d =>
      if streq (lit "ADD") op then
        add_device d (remove_device d (emit (Stderr (MsgAdding d)) st))
      else if streq (lit "REMOVE") op then
        remove_device d (emit (Stderr (MsgRemoving d)) st)
      else st
  | _, _ => st
  end.
Proof.
  unfold process_commandline, first_token, argument.
  destruct (strtok delimiters line) as [[op rest]|]; [|reflexivity].
  destruct (strtok delimiters rest) as [[d r]|]; reflexivity.
Qed.

Lemma process_commandline_ignored (line : cstr) (st : daemon) :
  (first_token line <> Some (lit "ADD") /\
   first_token line <> Some (lit "REMOVE")) \/
  argument line = None ->
  process_commandline line st = st.
Proof.
  intros H. rewrite process_commandline_tokens.
  destruct (first_token line) as [op|]; [|reflexivity].
  destruct (argument line) as [d|]; [|reflexivity].
  destruct H as [[H1 H2]|H]; [|discriminate].
  destruct (streq (lit "ADD") op) eqn:E1.
  { apply streq_eq in E1. subst op. congruence. }
  destruct (streq (lit "REMOVE") op) eqn:E2.
  { apply streq_eq in E2. subst op. congruence. }
  reflexivity.
Qed.

(** The line of the spec's example, in every state. *)
Example foo_bar_ignored (st : daemon) :
  process_commandline (lit "FOO bar") st = st.
Proof.
  apply process_commandline_ignored. left. split; vm_compute; discriminate.
Qed.

(** C8. A line whose first token (delimited by space or tab) is neither ADD
    nor REMOVE, or that has no argument token, leaves the whole state of
    the daemon as it was: the registry is unchanged and neither add_device
    nor remove_device is called. *)
Theorem unknown_command_ignored (line : cstr) (st : daemon) :
  (first_token line <> Some (lit "ADD") /\
   first_token line <> Some (lit "REMOVE")) \/
  argument line = None ->
  process_commandline line st = st /\
  devs (process_commandline line st) = devs st /\
  filter is_registry_call (since st (process_commandline line st)) = [].
Proof.
  intros H. rewrite (process_commandline_ignored line st H).
  rewrite since_refl. auto.
Qed.

Lemma unknown_command_ignored_witness :
  process_commandline (lit "FOO bar") (serving "" [5]) = serving "" [5] /\
  devs (process_commandline (lit "FOO bar") (serving "" [5])) =
    [registered 4 "/dev/input/event0"] /\
  filter is_registry_call
    (since (serving "" [5]) (process_commandline (lit "FOO bar") (serving "" [5])))
    = [].
Proof.
  apply (unknown_command_ignored (lit "FOO bar") (serving "" [5])).
  left. split; vm_compute; discriminate.
Defined.

(** ** read_event *)

Lemma read_event_short (e : env) (dev : device) (st : daemon) :
  fst (dev_in e (fd dev)) <> sizeof_input_event ->
  read_event e dev st =
  (1, emit (Stderr (MsgErrorReading (devname dev)))
        (emit (ReadDev (fd dev) (fst (dev_in e (fd dev)))) st)).
Proof.
  intros H. unfold read_event. destruct (dev_in e (fd dev)) as [n ev]. simpl in *.
  apply Z.eqb_neq in H. rewrite H. reflexivity.
Qed.

Lemma read_event_complete (e : env) (dev : device) (st : daemon) :
  fst (dev_in e (fd dev)) = sizeof_input_event ->
  exists st',
    read_event e dev st = (0, st') /\
    devs st' = devs st /\ command_pipe st' = command_pipe st /\
    cmdfd st' = cmdfd st /\ cmdbuffer st' = cmdbuffer st /\
    dump_events st' = dump_events st /\ opens st' = opens st /\
    trace st' = trace st
                ++ ReadDev (fd dev) sizeof_input_event
                :: forwarding (dump_events st) (devname dev)
                     (snd (dev_in e (fd dev))).
Proof.
  intros H. unfold read_event, forwarding, monitored.
  destruct (dev_in e (fd dev)) as [n ev]. simpl in *. subst n.
  rewrite Z.eqb_refl. simpl.
  destruct ((ev_type ev =? EV_KEY) || (ev_type ev =? EV_SW)).
  - destruct (dump_events st) eqn:D; cbn; rewrite ?D;
      eexists; (split; [reflexivity|]);
      repeat split; cbn; rewrite ?D, <- ?app_assoc; reflexivity.
  - eexists. split; [reflexivity|]. cbn. repeat split.
Qed.

(** C7. A complete, correctly sized record is forwarded exactly when its
    class is EV_KEY or EV_SW.  A forwarded record goes to the keystate
    tracker first and to the trigger engine afterwards (with the two dump
    lines between them when dumping is on), before read_event returns, so
    in the order of arrival; a record of any other class leads to no call
    at all. *)
Theorem forwarded_iff_monitored (e : env) (dev : device) (st : daemon) :
  fst (dev_in e (fd dev)) = sizeof_input_event ->
  let ev := snd (dev_in e (fd dev)) in
  let st' := snd (read_event e dev st) in
  fst (read_event e dev st) = 0 /\
  (filter is_forward (since st st') <> [] <->
   ev_type ev = EV_KEY \/ ev_type ev = EV_SW) /\
  (ev_type ev = EV_KEY \/ ev_type ev = EV_SW ->
   filter is_forward (since st st') =
     [ChangeKeystate ev; RunTriggers (ev_type ev) (ev_code ev) (ev_value ev)]) /\
  (~ (ev_type ev = EV_KEY \/ ev_type ev = EV_SW) ->
   since st st' = [ReadDev (fd dev) sizeof_input_event]).
Proof.
  intros H ev st'.
  destruct (read_event_complete e dev st H) as (s & E & _ & _ & _ & _ & _ & _ & T).
  subst st'. rewrite E. simpl. apply since_app in T. rewrite T.
  fold ev. unfold forwarding, monitored.
  assert (M : (ev_type ev =? EV_KEY) || (ev_type ev =? EV_SW) = true <->
              ev_type ev = EV_KEY \/ ev_type ev = EV_SW).
  { rewrite orb_true_iff, !Z.eqb_eq. tauto. }
  destruct ((ev_type ev =? EV_KEY) || (ev_type ev =? EV_SW)) eqn:B.
  - assert (K : ev_type ev = EV_KEY \/ ev_type ev = EV_SW) by (apply M; reflexivity).
    split; [reflexivity|].
    assert (F : filter is_forward
                  (ReadDev (fd dev) sizeof_input_event
                   :: [ChangeKeystate ev]
                      ++ (if dump_events st
                          then [PrintEvent (devname dev) ev; PrintKeystate]
                          else [])
                      ++ [RunTriggers (ev_type ev) (ev_code ev) (ev_value ev)])
                = [ChangeKeystate ev;
                   RunTriggers (ev_type ev) (ev_code ev) (ev_value ev)]).
    { destruct (dump_events st); reflexivity. }
    rewrite F. split; [|split].
    + split; [intros _; exact K | intros _; discriminate].
    + intros _. reflexivity.
    + intros N. contradiction.
  - assert (K : ~ (ev_type ev = EV_KEY \/ ev_type ev = EV_SW)).
    { intros K. apply M in K. discriminate. }
    split; [reflexivity|]. simpl. split; [|split].
    + split; [intros N; contradiction | intros N; contradiction].
    + intros N. contradiction.
    + intros _. reflexivity.
Qed.

Lemma forwarded_iff_monitored_witness :
  fst (read_event (quiet key_press) (registered 4 "/dev/input/event0")
         (serving "" [])) = 0 /\
  filter is_forward
    (since (serving "" [])
       (snd (read_event (quiet key_press) (registered 4 "/dev/input/event0")
               (serving "" [])))) =
    [ChangeKeystate key_press; RunTriggers EV_KEY 28 1].
Proof.
  destruct (forwarded_iff_monitored (quiet key_press)
              (registered 4 "/dev/input/event0") (serving "" []) eq_refl)
    as (R & _ & F & _).
  split; [exact R | apply F; left; reflexivity].
Defined.

(** ** The registry *)

Lemma unlink_some (dev : cstr) (l : list device) (d : device) (l' : list device) :
  unlink dev l = Some (d, l') ->
  exists l1 l2,
    l = l1 ++ d :: l2 /\ l' = l1 ++ l2 /\ devname d = dev /\
    forall x, In x l1 -> devname x <> dev.
Proof.
  revert d l'. induction l as [|a l IH]; intros d l' H; simpl in H; [discriminate|].
  destruct (streq (devname a) dev) eqn:E.
  - inversion H; subst. exists [], l'. apply streq_eq in E.
    split; [reflexivity|]. split; [reflexivity|]. split; [exact E|].
    intros x [].
  - destruct (unlink dev l) as [[x r]|] eqn:U; [|discriminate].
    inversion H; subst. destruct (IH _ _ eq_refl) as (l1 & l2 & -> & -> & N & F).
    exists (a :: l1), l2.
    split; [reflexivity|]. split; [reflexivity|]. split; [exact N|].
    intros y [<-|Hy]; [apply streq_neq; exact E | apply F; exact Hy].
Qed.

Lemma unlink_none (dev : cstr) (l : list device) :
  unlink dev l = None <-> ~ In dev (map devname l).
Proof.
  induction l as [|a l IH]; simpl; [tauto|].
  destruct (streq (devname a) dev) eqn:E.
  - apply streq_eq in E. split; [discriminate | intros H; exfalso; auto].
  - apply streq_neq in E. destruct (unlink dev l) as [[x r]|].
    + split; [discriminate|]. intros H. exfalso. apply H. right.
      destruct (in_dec (list_eq_dec ascii_dec) dev (map devname l)) as [i|n]; auto.
      exfalso. apply IH in n. discriminate.
    + split; [|reflexivity]. intros _ [H|H]; [auto | apply IH in H; auto].
Qed.

(** Unlinking the entry of a path that occurs once. *)
Lemma unlink_unique (pre post : list device) (d : device) :
  ~ In (devname d) (map devname pre) ->
  unlink (devname d) (pre ++ d :: post) = Some (d, pre ++ post).
Proof.
  induction pre as [|a pre IH]; simpl; intros N.
  - rewrite streq_refl. reflexivity.
  - destruct (streq (devname a) (devname d)) eqn:E.
    + apply streq_eq in E. exfalso. auto.
    + rewrite IH by auto. reflexivity.
Qed.

(** ** States that leave the command channel alone *)

Lemma kept_refl (st : daemon) : kept st st.
Proof.
  repeat split. exists []. rewrite app_nil_r. auto.
Qed.

Lemma kept_trans (a b c : daemon) : kept a b -> kept b c -> kept a c.
Proof.
  intros (P1 & F1 & D1 & t1 & T1 & N1) (P2 & F2 & D2 & t2 & T2 & N2).
  repeat split; try congruence.
  exists (t1 ++ t2). rewrite T2, T1, app_assoc, forallb_app, N1, N2. auto.
Qed.

Lemma kept_emit (a : action) (st s : daemon) :
  kept st s -> is_cmd_open a = false -> kept st (emit a s).
Proof.
  intros K H. apply (kept_trans _ _ _ K).
  repeat split. exists [a]. simpl. rewrite H. auto.
Qed.

Lemma kept_with_devs (l : list device) (st s : daemon) :
  kept st s -> kept st (with_devs l s).
Proof.
  intros K. apply (kept_trans _ _ _ K).
  repeat split. exists []. simpl. rewrite app_nil_r. auto.
Qed.

Lemma kept_with_cmdbuffer (b : cstr) (st s : daemon) :
  kept st s -> kept st (with_cmdbuffer b s).
Proof.
  intros K. apply (kept_trans _ _ _ K).
  repeat split. exists []. simpl. rewrite app_nil_r. auto.
Qed.

Lemma kept_with_opens (o : list Z) (st s : daemon) :
  kept st s -> kept st (with_opens o s).
Proof.
  intros K. apply (kept_trans _ _ _ K).
  repeat split. exists []. simpl. rewrite app_nil_r. auto.
Qed.

Create HintDb kept.
#[local] Hint Resolve kept_refl kept_emit kept_with_devs kept_with_cmdbuffer
  kept_with_opens : kept.

Lemma kept_remove_device (dev : cstr) (st s : daemon) :
  kept st s -> kept st (remove_device dev s).
Proof.
  intros K. unfold remove_device, Sys.close.
  destruct (unlink dev (devs (emit (CallRemove dev) s))) as [[d l]|];
    auto 6 with kept.
Qed.

Lemma kept_sys_open (st s : daemon) :
  kept st s -> kept st (snd (Sys.open s)).
Proof.
  intros K. unfold Sys.open. destruct (opens s); simpl; auto with kept.
Qed.

Lemma kept_add_device (dev : cstr) (st s : daemon) :
  kept st s -> kept st (add_device dev s).
Proof.
  intros K. unfold add_device.
  assert (K' : kept st (snd (Sys.open (emit (CallAdd dev) s)))).
  { apply kept_sys_open. auto with kept. }
  destruct (Sys.open (emit (CallAdd dev) s)) as [r s']. simpl in K'.
  destruct (r <? 0); auto 6 with kept.
Qed.

#[local] Hint Resolve kept_remove_device kept_add_device : kept.

Lemma kept_process_commandline (line : cstr) (st s : daemon) :
  kept st s -> kept st (process_commandline line s).
Proof.
  intros K. rewrite process_commandline_tokens.
  destruct (first_token line) as [op|]; auto with kept.
  destruct (argument line) as [d|]; auto with kept.
  destruct (streq (lit "ADD") op); auto with kept.
  destruct (streq (lit "REMOVE") op); auto with kept.
Qed.

#[local] Hint Resolve kept_process_commandline : kept.

Lemma kept_split_commands (fuel : nat) (st s s' : daemon) :
  kept st s -> split_commands fuel s = Some s' -> kept st s'.
Proof.
  revert s. induction fuel as [|fuel IH]; intros s K; simpl.
  { intros H. apply some_eq in H. subst s'. exact K. }
  destruct (strchr (cmdbuffer s) NL) as [nl|].
  2:{ intros H. apply some_eq in H. subst s'. exact K. }
  destruct (Z.of_nat nl <? MAXCMD).
  - destruct (strcpy_overlaps _ _); [discriminate|].
    apply IH. auto with kept.
  - apply IH. auto with kept.
Qed.

Lemma kept_read_event (e : env) (dev : device) (st s : daemon) :
  kept st s -> kept st (snd (read_event e dev s)).
Proof.
  intros K. unfold read_event. destruct (dev_in e (fd dev)) as [n ev].
  destruct (negb (n =? sizeof_input_event)); simpl; auto with kept.
  destruct ((ev_type ev =? EV_KEY) || (ev_type ev =? EV_SW)); simpl;
    auto with kept.
  destruct (dump_events _); auto 7 with kept.
Qed.

Lemma kept_process_devices_from (e : env) (fds : Sys.fd_set) (p : list device)
  (st s : daemon) :
  kept st s -> kept st (process_devices_from e fds p s).
Proof.
  revert s. induction p as [|d p IH]; intros s K; simpl; auto.
  destruct (Sys.FD_ISSET (fd d) fds); auto.
  pose proof (kept_read_event e d st s K) as K'.
  destruct (read_event e d s) as [r s']. simpl in K'.
  destruct (negb (r =? 0)); auto with kept.
Qed.

Lemma kept_process_devices (e : env) (fds : Sys.fd_set) (st : daemon) :
  kept st (process_devices e fds st).
Proof. apply kept_process_devices_from, kept_refl. Qed.

(** ** The command channel *)

Lemma open_cmd_result (st : daemon) :
  let st' := snd (open_cmd st) in
  devs st' = devs st /\ cmdbuffer st' = cmdbuffer st /\
  dump_events st' = dump_events st /\
  ((cmdfd st' = -1 /\ command_pipe st' = None /\ fst (open_cmd st) = 1) \/
   (0 <= cmdfd st' /\ command_pipe st' = command_pipe st /\
    command_pipe st <> None /\ fst (open_cmd st) = 0 /\
    exists rest, opens st = cmdfd st' :: rest /\ opens st' = rest)).
Proof.
  unfold open_cmd, Sys.open.
  destruct (command_pipe st) as [p|] eqn:P.
  - destruct (opens st) as [|r rest] eqn:O; cbn.
    + auto 10.
    + destruct (r <? 0) eqn:R; cbn.
      * auto 10.
      * rewrite R. cbn. rewrite P. apply Z.ltb_ge in R.
        do 3 (split; [reflexivity|]). right.
        split; [exact R|]. split; [reflexivity|]. split; [discriminate|].
        split; [reflexivity|]. exists rest. auto.
  - cbn. auto 10.
Qed.

Lemma open_cmd_consistent (st : daemon) :
  channel_consistent (snd (open_cmd st)).
Proof.
  destruct (open_cmd_result st) as (_ & _ & _ & [(F & P & _)|(F & P & N & _)]);
    unfold channel_consistent.
  - tauto.
  - split; [lia|]. intros H. congruence.
Qed.

Lemma kept_consistent (st st' : daemon) :
  kept st st' -> channel_consistent st -> channel_consistent st'.
Proof.
  intros (P & F & _) H. unfold channel_consistent in *. rewrite P, F. exact H.
Qed.

Lemma read_command_pipe_unfold (e : env) (st : daemon) :
  read_command_pipe e st =
  let count := MAXCMD - Z.of_nat (length (cmdbuffer st)) - 1 in
  let done := fst (read_result e st) in
  if done =? 0 then Some (reconnect count st)
  else match c_string (snd (read_result e st)) with
       | None => None
       | Some s =>
           split_commands (S (length (cmdbuffer st ++ s)))
             (with_cmdbuffer (cmdbuffer st ++ s)
                (emit (ReadCmd (cmdfd st) count done) st))
       end.
Proof.
  unfold read_command_pipe, read_result, reconnect.
  destruct (Sys.read _ _ _) as [done buf]. simpl.
  destruct (done =? 0) eqn:D.
  - apply Z.eqb_eq in D. subst done. reflexivity.
  - destruct (c_string buf); reflexivity.
Qed.


(** The drain of a turn of the loop that goes on: it has an outcome and has
    not handed a path to [free]. *)
Lemma turn_drain (e : env) (st st' : daemon) :
  match read_command_pipe e st with
  | Some s => if frees_only_null (since st s) then Some s else None
  | None => None
  end = Some st' ->
  read_command_pipe e st = Some st' /\
  frees_only_null (since st st') = true.
Proof.
  destruct (read_command_pipe e st) as [s|]; [|discriminate].
  destruct (frees_only_null (since st s)) eqn:F; [|discriminate].
  intros H. apply some_eq in H. subst s. auto.
Qed.


(** ** The event loop *)

Lemma loop_condition_false (st : daemon) :
  loop_condition st = false <-> devs st = [] /\ cmdfd st = -1.
Proof.
  unfold loop_condition, count_devices.
  rewrite orb_false_iff, negb_false_iff, Z.eqb_eq.
  destruct (devs st) as [|d l]; simpl length.
  - simpl. tauto.
  - split; [intros [H _]|intros [H _]; discriminate].
    assert ((Z.of_nat (S (length l)) >? 0) = true) by (apply Z.gtb_lt; lia).
    congruence.
Qed.



Lemma process_events_stops (es : list env) (st : daemon) :
  loop_condition st = false -> process_events es st = Halted st.
Proof. intros L. destruct es; simpl; rewrite L; reflexivity. Qed.



Lemma kept_add_devices (ps : list cstr) (st s : daemon) :
  kept st s -> kept st (fold_left (fun st dev => add_device dev st) ps s).
Proof.
  revert s. induction ps as [|p ps IH]; intros s K; simpl; auto with kept.
Qed.

(** The loop starts in a state in which the descriptor is -1 exactly when
    no command pipe is configured. *)
Lemma setup_readers_consistent (ps : list cstr) (pipe : option cstr)
  (dump : bool) (answers : list Z) (st : daemon) :
  setup_readers ps (configured pipe dump answers) = inr st ->
  channel_consistent st.
Proof.
  unfold setup_readers. destruct pipe as [p|]; cbn [command_pipe configured].
  - pose proof (open_cmd_consistent (configured (Some p) dump answers)) as C.
    destruct (cmdfd _ <? 0); [discriminate|].
    intros H. injection H as <-.
    eapply kept_consistent; [|exact C]. apply kept_add_devices, kept_refl.
  - destruct (_ <? 1); [discriminate|].
    intros H. injection H as <-.
    eapply kept_consistent; [apply kept_add_devices, kept_refl|].
    unfold channel_consistent. simpl. tauto.
Qed.

(** Nothing is readable: the wait ends by its timeout. *)
Lemma wait_nothing_readable (e : env) (st : daemon) :
  sel e = Sys.Readable [] -> fst (wait e st) = 0.
Proof.
  intros H. unfold wait. destruct (watch st) as [maxfd rfds].
  unfold Sys.select. rewrite H. simpl.
  induction (nodup Z.eq_dec rfds) as [|f l IH]; simpl; [reflexivity|].
  rewrite andb_false_r. exact IH.
Qed.



(** ** Reconnecting *)

Lemma reconnect_state (count : Z) (st : daemon) :
  let st' := reconnect count st in
  let r := reopen_answer st in
  cmdbuffer st' = [] /\ devs st' = devs st /\
  dump_events st' = dump_events st /\
  cmdfd st' = r /\
  command_pipe st' = (if r <? 0 then None else command_pipe st) /\
  trace st' = trace st
              ++ [ReadCmd (cmdfd st) count 0; Close (cmdfd st);
                  OpenCmd (command_pipe st) r]
              ++ (if r <? 0
                  then [Stderr (MsgUnableToOpenFifo (command_pipe st));
                        FreeOptarg (command_pipe st)]
                  else []).
Proof.
  unfold reconnect, reopen_answer, open_cmd, Sys.close, Sys.open. cbn.
  destruct (command_pipe st) as [p|] eqn:P; cbn.
  - destruct (opens st) as [|r rest]; cbn; rewrite ?P.
    + repeat split. rewrite <- !app_assoc. reflexivity.
    + destruct (r <? 0) eqn:R; cbn; rewrite ?R; cbn; rewrite ?P.
      * repeat split. rewrite <- !app_assoc. reflexivity.
      * repeat split. rewrite <- !app_assoc. reflexivity.
  - rewrite ?P. repeat split. rewrite <- !app_assoc. reflexivity.
Qed.

(** The state after a reconnect owes nothing to the text that was
    buffered, only to its length (through the size of the read). *)
Lemma reconnect_forgets (count : Z) (b : cstr) (st : daemon) :
  reconnect count (with_cmdbuffer b st) = reconnect count st.
Proof.
  unfold reconnect, open_cmd, Sys.close, Sys.open. cbn.
  destruct (command_pipe st); cbn; [destruct (opens st)|]; reflexivity.
Qed.

Lemma read_command_pipe_eof (e : env) (st : daemon) :
  fst (read_result e st) = 0 ->
  read_command_pipe e st =
  Some (reconnect (MAXCMD - Z.of_nat (length (cmdbuffer st)) - 1) st).
Proof.
  intros H. rewrite read_command_pipe_unfold. cbv zeta. rewrite H. reflexivity.
Qed.

Lemma filter_none {A : Type} (f : A -> bool) (l : list A) :
  forallb (fun a => negb (f a)) l = true -> filter f l = [].
Proof.
  induction l as [|a l IH]; simpl; [reflexivity|].
  rewrite andb_true_iff, negb_true_iff. intros [-> H]. auto.
Qed.

(** The drain on a read of 0, in general.  The drain comes to its end with
    an empty buffer, having closed the descriptor and then called open on
    the configured path; no command is parsed and the registry is as
    before.  The state that results does not depend on the text that had
    been buffered.  When the open succeeds the new descriptor is in place
    and the condition of the loop holds. *)
Theorem reconnect_on_eof (e : env) (st : daemon) :
  fst (read_result e st) = 0 ->
  exists st',
    read_command_pipe e st = Some st' /\
    cmdbuffer st' = [] /\
    devs st' = devs st /\
    firstn 3 (since st st') =
      [ReadCmd (cmdfd st) (MAXCMD - Z.of_nat (length (cmdbuffer st)) - 1) 0;
       Close (cmdfd st);
       OpenCmd (command_pipe st) (reopen_answer st)] /\
    filter is_registry_call (since st st') = [] /\
    (forall b : cstr,
        length b = length (cmdbuffer st) ->
        fst (read_result e (with_cmdbuffer b st)) = 0 /\
        read_command_pipe e (with_cmdbuffer b st) = Some st') /\
    (0 <= reopen_answer st ->
     cmdfd st' = reopen_answer st /\
     command_pipe st' = command_pipe st /\
     loop_condition st' = true).
Proof.
  intros H. eexists. split; [apply read_command_pipe_eof; exact H|].
  set (count := MAXCMD - Z.of_nat (length (cmdbuffer st)) - 1).
  destruct (reconnect_state count st) as (B & D & _ & F & P & T).
  apply since_app in T.
  split; [exact B|]. split; [exact D|]. split; [rewrite T; reflexivity|].
  split; [rewrite T; destruct (reopen_answer st <? 0); reflexivity|].
  split.
  - intros b L.
    assert (R : read_result e (with_cmdbuffer b st) = read_result e st).
    { unfold read_result. cbn. rewrite L. reflexivity. }
    split; [rewrite R; exact H|].
    rewrite read_command_pipe_eof by (rewrite R; exact H).
    cbn. rewrite L. fold count. rewrite reconnect_forgets. reflexivity.
  - intros G. apply Z.ltb_ge in G. rewrite G in P.
    split; [exact F|]. split; [exact P|].
    unfold loop_condition. rewrite F.
    apply Z.ltb_ge in G.
    replace (reopen_answer st =? -1) with false by (symmetry; apply Z.eqb_neq; lia).
    apply orb_true_r.
Qed.

Lemma reconnect_on_eof_witness :
  exists st',
    read_command_pipe (quiet key_press) (listening "ADD /dev/inp" [4]) = Some st' /\
    cmdbuffer st' = [] /\ cmdfd st' = 4 /\ loop_condition st' = true.
Proof.
  destruct (reconnect_on_eof (quiet key_press) (listening "ADD /dev/inp" [4]))
    as (st' & R & B & _ & _ & _ & _ & G); [reflexivity|].
  exists st'. destruct G as (F & _ & L); [vm_compute; discriminate|].
  repeat split; assumption.
Defined.

(** C6 at two failing inputs, both for a daemon started with
    [--command /run/thd.cmd] and no device.

    The writer closes and the open of the reconnect fails: open_cmd hands
    [command_pipe], which is [optarg], to [free], and the run of the loop
    has no defined outcome.

    The writer sends [ADD /dev/input/event1], a newline and
    [ADD /dev/input/event2] in one write and closes: the first line is
    parsed, the second is buffered and then discarded on the read of 0.
    The next writer sends [ADD /dev/input/event3] and a newline, 22 bytes,
    and [buf] still holds the bytes of the first write behind them: the
    drain appends them, so the discarded line is back in the buffer, and
    the next newline hands it to the parser. *)
Theorem eof_reconnect_fails_or_replays :
  (exists st0 st1,
      setup_readers [] (configured (Some (lit "/run/thd.cmd")) false [3])
        = inr st0 /\
      read_command_pipe hangup st0 = Some st1 /\
      since st0 st1 =
        [ReadCmd 3 1023 0; Close 3;
         OpenCmd (Some (lit "/run/thd.cmd")) (-1);
         Stderr (MsgUnableToOpenFifo (Some (lit "/run/thd.cmd")));
         FreeOptarg (Some (lit "/run/thd.cmd"))] /\
      process_events [hangup] st0 = Undefined) /\
  (exists st0 st1 st2 st3 st4,
      setup_readers []
        (configured (Some (lit "/run/thd.cmd")) false [3; 4; 5; 6; 7])
        = inr st0 /\
      read_command_pipe
        (writes (lit "ADD /dev/input/event1" ++ NL ::
                 lit "ADD /dev/input/event2")) st0 = Some st1 /\
      cmdbuffer st1 = lit "ADD /dev/input/event2" /\
      read_command_pipe hangup st1 = Some st2 /\
      cmdbuffer st2 = [] /\ cmdfd st2 = 5 /\
      read_command_pipe
        (writes_over (lit "ADD /dev/input/event3" ++ [NL])
           (left_at 22 (lit "ADD /dev/input/event2"))) st2 = Some st3 /\
      fst (read_result
             (writes_over (lit "ADD /dev/input/event3" ++ [NL])
                (left_at 22 (lit "ADD /dev/input/event2"))) st2) = 22 /\
      cmdbuffer st3 = lit "ADD /dev/input/event2" /\
      read_command_pipe (writes [NL]) st3 = Some st4 /\
      since st3 st4 =
        [ReadCmd 5 1002 1; Stderr (MsgAdding (lit "/dev/input/event2"));
         CallRemove (lit "/dev/input/event2");
         CallAdd (lit "/dev/input/event2");
         OpenDev (lit "/dev/input/event2") 7] /\
      devs st4 = [registered 4 "/dev/input/event1";
                  registered 6 "/dev/input/event3";
                  registered 7 "/dev/input/event2"]).
Proof.
  split.
  - do 2 eexists. split; [vm_compute; reflexivity|].
    split; [vm_compute; reflexivity|]. split; [reflexivity|].
    vm_compute. reflexivity.
  - do 5 eexists. split; [vm_compute; reflexivity|].
    split; [vm_compute; reflexivity|]. split; [reflexivity|].
    split; [vm_compute; reflexivity|]. split; [reflexivity|].
    split; [reflexivity|].
    split; [vm_compute; reflexivity|]. split; [vm_compute; reflexivity|].
    split; [reflexivity|].
    split; [vm_compute; reflexivity|]. split; reflexivity.
Qed.

(** ** Overflow *)

Lemma read_result_full (e : env) (st : daemon) :
  Z.of_nat (length (cmdbuffer st)) = MAXCMD - 1 ->
  fst (read_result e st) = 0.
Proof.
  intros H. unfold read_result, Sys.read. rewrite H.
  replace (MAXCMD - (MAXCMD - 1) - 1) with 0 by lia. reflexivity.
Qed.

(** C9. With MAXCMD-1 bytes buffered the drain asks read for zero bytes;
    the read returns 0 and the drain takes the branch of the closed peer:
    the buffered line is dropped and the command descriptor is closed and
    opened again.  Nothing records an overflow: the state that results is
    the one an end of file leads to, and the trace grows by the read, the
    close and the open (and by what open_cmd does if that open fails). *)
Theorem overflow_is_reconnect (e : env) (st : daemon) :
  Z.of_nat (length (cmdbuffer st)) = MAXCMD - 1 ->
  exists st',
    read_command_pipe e st = Some st' /\
    read_command_pipe (with_cmd_in Sys.Eof e) st = Some st' /\
    cmdbuffer st' = [] /\
    devs st' = devs st /\
    cmdfd st' = reopen_answer st /\
    since st st' =
      [ReadCmd (cmdfd st) 0 0; Close (cmdfd st);
       OpenCmd (command_pipe st) (reopen_answer st)]
      ++ (if reopen_answer st <? 0
          then [Stderr (MsgUnableToOpenFifo (command_pipe st));
                FreeOptarg (command_pipe st)]
          else []).
Proof.
  intros H. exists (reconnect 0 st).
  assert (C : MAXCMD - Z.of_nat (length (cmdbuffer st)) - 1 = 0) by lia.
  split; [|split].
  - rewrite read_command_pipe_eof by (apply read_result_full; exact H).
    rewrite C. reflexivity.
  - rewrite read_command_pipe_eof by (apply read_result_full; exact H).
    rewrite C. reflexivity.
  - destruct (reconnect_state 0 st) as (B & D & _ & F & _ & T).
    apply since_app in T. auto.
Qed.

Lemma overflow_is_reconnect_witness :
  exists st',
    read_command_pipe
      (with_cmd_in (Sys.Bytes (lit "yz")) (quiet key_press))
      (with_cmdbuffer full_buffer (listening "" [4])) = Some st' /\
    cmdbuffer st' = [] /\ cmdfd st' = 4.
Proof.
  destruct (overflow_is_reconnect
              (with_cmd_in (Sys.Bytes (lit "yz")) (quiet key_press))
              (with_cmdbuffer full_buffer (listening "" [4])))
    as (st' & R & _ & B & _ & F & _); [reflexivity|].
  exists st'. repeat split; assumption.
Defined.

(** ** A failed reopen *)

Lemma loop_body_dead_channel (e : env) (st : daemon) :
  cmdfd st = -1 ->
  exists st', loop_body e st = Some st' /\ kept st st'.
Proof.
  intros F. unfold loop_body. destruct (wait e st) as [retval rfds].
  destruct (retval =? -1); [eexists; split; [reflexivity|auto with kept]|].
  destruct (negb (retval =? 0)); [|eexists; split; [reflexivity|auto with kept]].
  pose proof (kept_process_devices e rfds st) as K.
  destruct K as (P & F' & K). rewrite F', F. simpl.
  eexists. split; [reflexivity|]. apply kept_process_devices.
Qed.

Lemma process_events_dead_channel (es : list env) (st : daemon) :
  cmdfd st = -1 ->
  exists st',
    kept st st' /\
    ((process_events es st = Halted st' /\ devs st' = []) \/
     (process_events es st = Running st' /\ devs st' <> [])).
Proof.
  revert st. induction es as [|e es IH]; intros st F; simpl.
  - exists st. split; [apply kept_refl|].
    destruct (loop_condition st) eqn:L.
    + right. split; [reflexivity|]. intros D.
      assert (loop_condition st = false) by (apply loop_condition_false; auto).
      congruence.
    + left. split; [reflexivity|]. apply loop_condition_false in L. tauto.
  - destruct (loop_condition st) eqn:L.
    + destruct (loop_body_dead_channel e st F) as (s & B & K). rewrite B.
      destruct (IH s) as (st' & K' & R).
      { destruct K as (_ & F' & _). congruence. }
      exists st'. split; [eapply kept_trans; eauto | exact R].
    + exists st. split; [apply kept_refl|]. left. split; [reflexivity|].
      apply loop_condition_false in L. tauto.
Qed.

(** What the rest of the run looks like if the [free] of open_cmd returns:
    after a read of 0 and a failed open, [command_pipe] is cleared and
    [cmdfd] is -1; every run of the loop from there keeps both, never opens
    the command pipe again, and ends at the first loop test that finds the
    registry empty. *)
Lemma dead_channel_after_failed_reopen (e : env) (st : daemon) (es : list env) :
  fst (read_result e st) = 0 ->
  reopen_answer st = -1 ->
  exists st1,
    read_command_pipe e st = Some st1 /\
    command_pipe st1 = None /\ cmdfd st1 = -1 /\
    exists st2,
      command_pipe st2 = None /\ cmdfd st2 = -1 /\
      filter is_cmd_open (since st1 st2) = [] /\
      ((process_events es st1 = Halted st2 /\ devs st2 = []) \/
       (process_events es st1 = Running st2 /\ devs st2 <> [])).
Proof.
  intros H A. eexists. split; [apply read_command_pipe_eof; exact H|].
  set (st1 := reconnect _ st).
  destruct (reconnect_state (MAXCMD - Z.of_nat (length (cmdbuffer st)) - 1) st)
    as (_ & _ & _ & F & P & _).
  fold st1 in F, P. rewrite A in F, P. simpl in P.
  split; [exact P|]. split; [exact F|].
  destruct (process_events_dead_channel es st1 F) as (st2 & K & R).
  exists st2. destruct K as (P2 & F2 & _ & t & T & N).
  split; [congruence|]. split; [congruence|]. split; [|exact R].
  rewrite (since_app _ _ _ T). apply filter_none. exact N.
Qed.

(** A turn of the loop in which the read of the command pipe returns 0 and
    the open that follows fails has no defined outcome: a path is
    configured whenever the descriptor is open, and open_cmd hands it to
    [free]. *)
Lemma turn_with_failed_reopen (e : env) (st : daemon) :
  channel_consistent st ->
  0 < fst (wait e st) ->
  cmdfd st <> -1 ->
  Sys.FD_ISSET (cmdfd st) (snd (wait e st)) = true ->
  fst (read_result e (process_devices e (snd (wait e st)) st)) = 0 ->
  reopen_answer (process_devices e (snd (wait e st)) st) < 0 ->
  loop_body e st = None /\
  forall es, process_events (e :: es) st = Undefined.
Proof.
  intros C W F I R A.
  assert (B : loop_body e st = None).
  { unfold loop_body. destruct (wait e st) as [retval rfds].
    cbn [fst snd] in *.
    replace (retval =? -1) with false by (symmetry; apply Z.eqb_neq; lia).
    replace (retval =? 0) with false by (symmetry; apply Z.eqb_neq; lia).
    cbn [negb].
    set (st1 := process_devices e rfds st) in *.
    destruct (kept_process_devices e rfds st) as (P1 & F1 & _).
    fold st1 in P1, F1. rewrite F1, I.
    replace (cmdfd st =? -1) with false by (symmetry; apply Z.eqb_neq; exact F).
    cbn [negb andb].
    rewrite (read_command_pipe_eof e st1 R).
    destruct (reconnect_state
                (MAXCMD - Z.of_nat (length (cmdbuffer st1)) - 1) st1)
      as (_ & _ & _ & _ & _ & T).
    rewrite (since_app _ _ _ T).
    replace (reopen_answer st1 <? 0) with true by (symmetry; apply Z.ltb_lt; exact A).
    destruct (command_pipe st1) as [p|] eqn:P; [reflexivity|].
    exfalso. apply F, C. congruence. }
  split; [exact B|]. intros es. simpl. rewrite B.
  unfold loop_condition.
  replace (cmdfd st =? -1) with false by (symmetry; apply Z.eqb_neq; exact F).
  rewrite orb_true_r. reflexivity.
Qed.

(** C10 at the failing input: the daemon was started with a command pipe
    and one device, the read of the pipe returns 0 and the open of the
    reconnect fails.  open_cmd then hands [command_pipe], which is main's
    [optarg], to [free]. *)
Theorem failed_reopen_frees_optarg :
  exists st1,
    read_command_pipe (quiet key_press) (serving "ADD /dev/inp" []) = Some st1 /\
    since (serving "ADD /dev/inp" []) st1 =
      [ReadCmd 3 1011 0; Close 3;
       OpenCmd (Some (lit "/run/thd.cmd")) (-1);
       Stderr (MsgUnableToOpenFifo (Some (lit "/run/thd.cmd")));
       FreeOptarg (Some (lit "/run/thd.cmd"))] /\
    frees_only_null (trace st1) = false.
Proof.
  eexists. split; [vm_compute; reflexivity|]. split; reflexivity.
Qed.

(** ** A dispatch pass *)

Lemma emits_app (t u : list action) (st : daemon) :
  emits (t ++ u) st = emits u (emits t st).
Proof. apply fold_left_app. Qed.

Lemma emits_state (t : list action) (st : daemon) :
  devs (emits t st) = devs st /\ command_pipe (emits t st) = command_pipe st /\
  cmdfd (emits t st) = cmdfd st /\ cmdbuffer (emits t st) = cmdbuffer st /\
  dump_events (emits t st) = dump_events st /\ opens (emits t st) = opens st /\
  trace (emits t st) = trace st ++ t.
Proof.
  revert st. induction t as [|a t IH]; intros st; simpl.
  - rewrite app_nil_r. repeat split.
  - destruct (IH (emit a st)) as (D & P & F & B & U & O & T).
    unfold emits in *. rewrite D, P, F, B, U, O, T. simpl.
    rewrite <- app_assoc. repeat split.
Qed.

Lemma read_event_whole (e : env) (d : device) (st : daemon) :
  fst (dev_in e (fd d)) = sizeof_input_event ->
  read_event e d st = (0, emits (record_actions e (dump_events st) d) st).
Proof.
  intros H. unfold read_event, record_actions, forwarding, monitored.
  destruct (dev_in e (fd d)) as [n ev]. simpl in *. subst n.
  rewrite Z.eqb_refl. simpl.
  destruct ((ev_type ev =? EV_KEY) || (ev_type ev =? EV_SW)); [|reflexivity].
  destruct (dump_events st) eqn:D; cbn; rewrite ?D; reflexivity.
Qed.

#[local] Arguments emits : simpl never.
#[local] Arguments record_actions : simpl never.

Lemma pass_actions_cons (e : env) (fds : Sys.fd_set) (dump : bool)
  (d : device) (p : list device) :
  pass_actions e fds dump (d :: p) =
  (if ready fds d then record_actions e dump d else [])
  ++ pass_actions e fds dump p.
Proof.
  unfold pass_actions. simpl. destruct (ready fds d); reflexivity.
Qed.

Lemma pass_without_fault (e : env) (fds : Sys.fd_set) (p : list device)
  (st : daemon) :
  (forall x, In x p -> ready fds x = true ->
             fst (dev_in e (fd x)) = sizeof_input_event) ->
  process_devices_from e fds p st =
  emits (pass_actions e fds (dump_events st) p) st.
Proof.
  revert st. induction p as [|d p IH]; intros st G; [reflexivity|].
  rewrite pass_actions_cons. cbn [process_devices_from]. fold (ready fds d).
  destruct (ready fds d) eqn:R.
  - rewrite read_event_whole by (apply G; simpl; auto).
    cbv beta iota zeta. change (negb (0 =? 0)) with false. cbv iota.
    rewrite IH by (intros x Hx; apply G; simpl; auto).
    rewrite emits_app.
    destruct (emits_state (record_actions e (dump_events st) d) st)
      as (_ & _ & _ & _ & U & _). rewrite U. reflexivity.
  - apply IH. intros x Hx. apply G. simpl. auto.
Qed.

Lemma pass_with_fault (e : env) (fds : Sys.fd_set) (pre post : list device)
  (d : device) (st : daemon) :
  (forall x, In x pre -> ready fds x = true ->
             fst (dev_in e (fd x)) = sizeof_input_event) ->
  ready fds d = true ->
  fst (dev_in e (fd d)) <> sizeof_input_event ->
  process_devices_from e fds (pre ++ d :: post) st =
  remove_device (devname d)
    (emits (pass_actions e fds (dump_events st) pre
            ++ [ReadDev (fd d) (fst (dev_in e (fd d)));
                Stderr (MsgErrorReading (devname d))]) st).
Proof.
  revert st. induction pre as [|a pre IH]; intros st G R B.
  - simpl. fold (ready fds d). rewrite R. rewrite read_event_short by exact B.
    reflexivity.
  - rewrite pass_actions_cons, <- app_comm_cons.
    cbn [process_devices_from]. fold (ready fds a).
    destruct (ready fds a) eqn:Ra.
    + rewrite read_event_whole by (apply G; simpl; auto).
      cbv beta iota zeta. change (negb (0 =? 0)) with false. cbv iota.
      rewrite IH; auto; [|intros x Hx; apply G; simpl; auto].
      destruct (emits_state (record_actions e (dump_events st) a) st)
        as (_ & _ & _ & _ & U & _). rewrite U.
      rewrite <- app_assoc, (emits_app (record_actions _ _ a)). reflexivity.
    + apply IH; auto. intros x Hx. apply G. simpl. auto.
Qed.

Lemma reads_of_app (t u : list action) :
  reads_of (t ++ u) = reads_of t ++ reads_of u.
Proof.
  induction t as [|a t IH]; simpl; [reflexivity|].
  destruct a; simpl; rewrite IH; reflexivity.
Qed.

Lemma reads_of_pass (e : env) (fds : Sys.fd_set) (dump : bool) (p : list device) :
  reads_of (pass_actions e fds dump p) = map fd (filter (ready fds) p).
Proof.
  unfold pass_actions. induction (filter (ready fds) p) as [|d l IH]; simpl;
    [reflexivity|].
  rewrite reads_of_app, IH. unfold record_actions, forwarding.
  destruct (monitored _); [destruct dump|]; reflexivity.
Qed.

Lemma remove_device_state (dev : cstr) (st : daemon) :
  let st' := remove_device dev st in
  command_pipe st' = command_pipe st /\ cmdfd st' = cmdfd st /\
  cmdbuffer st' = cmdbuffer st /\ dump_events st' = dump_events st /\
  opens st' = opens st /\
  match unlink dev (devs st) with
  | Some (d, l) =>
      devs st' = l /\ trace st' = trace st ++ [CallRemove dev; Close (fd d)]
  | None => devs st' = devs st /\ trace st' = trace st ++ [CallRemove dev]
  end.
Proof.
  unfold remove_device, Sys.close. cbn.
  destruct (unlink dev (devs st)) as [[d l]|]; cbn; repeat split.
  rewrite <- app_assoc. reflexivity.
Qed.

(** The pass with a fault, in general.  Let [d] be the first ready device
    of a pass whose read does not deliver a whole record.  The pass unlinks exactly one entry, the first
    one registered under the path of [d] (that is [d] itself whenever no
    entry before it carries the same path), and every entry with another
    path stays registered.  The pass ends there: the reads it has made
    are those of the ready devices before [d] and of [d], none of a device
    behind [d].  The entries that remain are read in the next pass in
    which they are ready. *)
Theorem fault_removes_device (e : env) (fds : Sys.fd_set) (st : daemon)
  (pre post : list device) (d : device) :
  devs st = pre ++ d :: post ->
  ready fds d = true ->
  fst (dev_in e (fd d)) <> sizeof_input_event ->
  (forall x, In x pre -> ready fds x = true ->
             fst (dev_in e (fd x)) = sizeof_input_event) ->
  let st' := process_devices e fds st in
  (exists gone l1 l2,
      devs st = l1 ++ gone :: l2 /\ devs st' = l1 ++ l2 /\
      devname gone = devname d /\
      (forall x, In x l1 -> devname x <> devname d)) /\
  (~ In (devname d) (map devname pre) -> devs st' = pre ++ post) /\
  (forall x, In x (devs st) -> devname x <> devname d -> In x (devs st')) /\
  reads_of (since st st') = map fd (filter (ready fds) pre) ++ [fd d] /\
  (forall e' fds',
      (forall x, In x (devs st') -> ready fds' x = true ->
                 fst (dev_in e' (fd x)) = sizeof_input_event) ->
      devs (process_devices e' fds' st') = devs st' /\
      reads_of (since st' (process_devices e' fds' st')) =
        map fd (filter (ready fds') (devs st'))).
Proof.
  intros D R B G st'.
  assert (E : st' = remove_device (devname d)
                      (emits (pass_actions e fds (dump_events st) pre
                              ++ [ReadDev (fd d) (fst (dev_in e (fd d)));
                                  Stderr (MsgErrorReading (devname d))]) st)).
  { unfold st', process_devices. rewrite D. apply pass_with_fault; assumption. }
  set (t := pass_actions e fds (dump_events st) pre
            ++ [ReadDev (fd d) (fst (dev_in e (fd d)));
                Stderr (MsgErrorReading (devname d))]) in E.
  destruct (emits_state t st) as (Ds & _ & _ & _ & _ & _ & Ts).
  pose proof (remove_device_state (devname d) (emits t st)) as S.
  cbv zeta in S. rewrite <- E, Ds in S.
  destruct S as (_ & _ & _ & _ & _ & S).
  destruct (unlink (devname d) (devs st)) as [[gone l]|] eqn:U.
  2:{ exfalso. apply unlink_none in U. apply U. rewrite D, map_app.
      apply in_or_app. right. left. reflexivity. }
  destruct S as [Dl Tl].
  destruct (unlink_some _ _ _ _ U) as (l1 & l2 & E1 & E2 & N & F).
  assert (T : since st st' = t ++ [CallRemove (devname d); Close (fd gone)]).
  { apply since_app. rewrite Tl, Ts, app_assoc. reflexivity. }
  split; [|split; [|split; [|split]]].
  - exists gone, l1, l2. rewrite Dl. auto.
  - intros NI. rewrite D, (unlink_unique pre post d NI) in U.
    injection U as _ <-. exact Dl.
  - intros x Hx Nx. rewrite Dl, E2. rewrite E1 in Hx.
    apply in_app_or in Hx. apply in_or_app.
    destruct Hx as [Hx|[Hx|Hx]]; auto. subst x. contradiction.
  - rewrite T. unfold t. rewrite !reads_of_app, reads_of_pass. simpl.
    rewrite app_nil_r. reflexivity.
  - intros e' fds' G'. unfold process_devices.
    rewrite (pass_without_fault e' fds' (devs st') st' G').
    destruct (emits_state (pass_actions e' fds' (dump_events st') (devs st')) st')
      as (Dn & _ & _ & _ & _ & _ & Tn).
    split; [exact Dn|]. rewrite (since_app _ _ _ Tn). apply reads_of_pass.
Qed.

Lemma fault_removes_device_witness :
  devs (process_devices second_fails [3; 4; 5]
          (with_devs three_devices (initial []))) =
    [registered 3 "/dev/input/event0"; registered 5 "/dev/input/event2"] /\
  reads_of (since (with_devs three_devices (initial []))
              (process_devices second_fails [3; 4; 5]
                 (with_devs three_devices (initial [])))) = [3; 4].
Proof.
  destruct (fault_removes_device second_fails [3; 4; 5]
              (with_devs three_devices (initial []))
              [registered 3 "/dev/input/event0"]
              [registered 5 "/dev/input/event2"]
              (registered 4 "/dev/input/event1"))
    as (_ & U & _ & Rd & _).
  - reflexivity.
  - reflexivity.
  - vm_compute. discriminate.
  - intros x [<-|[]] _. reflexivity.
  - split; [apply U; vm_compute; intros [H|[]]; discriminate | exact Rd].
Defined.

(** C4 at the failing input: [thd /dev/input/event0 /dev/input/event0]
    opens the path on the descriptors 3 and 4 and registers both.  In a
    pass in which only descriptor 4 is ready and its read comes up short,
    remove_device is given the path and unlinks the entry of descriptor 3:
    the device that works is closed and leaves the registry, and the one
    whose read failed stays in it and is read again in the next pass. *)
Theorem fault_removes_healthy_twin :
  exists st0,
    setup_readers [lit "/dev/input/event0"; lit "/dev/input/event0"]
      (configured None false [3; 4]) = inr st0 /\
    devs st0 = [registered 3 "/dev/input/event0";
                registered 4 "/dev/input/event0"] /\
    since st0 (process_devices twin_fails [4] st0) =
      [ReadDev 4 8; Stderr (MsgErrorReading (lit "/dev/input/event0"));
       CallRemove (lit "/dev/input/event0"); Close 3] /\
    devs (process_devices twin_fails [4] st0) =
      [registered 4 "/dev/input/event0"] /\
    reads_of (since (process_devices twin_fails [4] st0)
                (process_devices twin_fails [4]
                   (process_devices twin_fails [4] st0))) = [4].
Proof.
  eexists. split; [vm_compute; reflexivity|].
  split; [reflexivity|]. split; [reflexivity|]. split; reflexivity.
Qed.

(** ** Distinct paths *)

Lemma unlink_distinct (dev : cstr) (l l' : list device) (d : device) :
  NoDup (map devname l) -> unlink dev l = Some (d, l') ->
  NoDup (map devname l') /\ ~ In dev (map devname l').
Proof.
  intros N U. destruct (unlink_some _ _ _ _ U) as (l1 & l2 & -> & -> & E & F).
  rewrite map_app in *. simpl in N. split.
  - eapply NoDup_remove_1; exact N.
  - rewrite <- E. eapply NoDup_remove_2; exact N.
Qed.

Section Preservation.

Variable P : list device -> Prop.

(** A property of the registry that survives the removal of an entry. *)
Hypothesis P_unlink :
  forall dev l d l', P l -> unlink dev l = Some (d, l') -> P l'.

Lemma remove_device_preserves (dev : cstr) (st : daemon) :
  P (devs st) -> P (devs (remove_device dev st)).
Proof.
  intros H. destruct (remove_device_state dev st) as (_ & _ & _ & _ & _ & S).
  destruct (unlink dev (devs st)) as [[d l]|] eqn:U; destruct S as [-> _].
  - eapply P_unlink; eauto.
  - exact H.
Qed.

Lemma read_event_devs (e : env) (d : device) (st : daemon) :
  devs (snd (read_event e d st)) = devs st.
Proof.
  unfold read_event. destruct (dev_in e (fd d)) as [n ev].
  destruct (negb (n =? sizeof_input_event)); [reflexivity|].
  destruct ((ev_type ev =? EV_KEY) || (ev_type ev =? EV_SW)); [|reflexivity].
  simpl. destruct (dump_events st); reflexivity.
Qed.

Lemma process_devices_from_preserves (e : env) (fds : Sys.fd_set)
  (p : list device) (st : daemon) :
  P (devs st) -> P (devs (process_devices_from e fds p st)).
Proof.
  revert st. induction p as [|d p IH]; intros st H; simpl; [exact H|].
  destruct (Sys.FD_ISSET (fd d) fds); [|apply IH; exact H].
  pose proof (read_event_devs e d st) as D.
  destruct (read_event e d st) as [r s]. simpl in D.
  destruct (negb (r =? 0)).
  - apply remove_device_preserves. rewrite D. exact H.
  - apply IH. rewrite D. exact H.
Qed.

End Preservation.

Lemma add_device_devs (dev : cstr) (st : daemon) :
  let r := fst (Sys.open st) in
  devs (add_device dev st) =
  devs st ++ (if r <? 0 then [] else [{| fd := r; devname := dev |}]).
Proof.
  unfold add_device, Sys.open. cbn.
  destruct (opens st) as [|r rest]; cbn; [rewrite app_nil_r; reflexivity|].
  destruct (r <? 0) eqn:R; cbn.
  - rewrite app_nil_r. reflexivity.
  - rewrite R. reflexivity.
Qed.

Lemma remove_device_distinct (dev : cstr) (st : daemon) :
  paths_distinct st ->
  paths_distinct (remove_device dev st) /\
  ~ In dev (paths (remove_device dev st)).
Proof.
  unfold paths_distinct, paths. intros N.
  destruct (remove_device_state dev st) as (_ & _ & _ & _ & _ & S).
  destruct (unlink dev (devs st)) as [[d l]|] eqn:U; destruct S as [-> _].
  - eapply unlink_distinct; eauto.
  - split; [exact N | apply unlink_none; exact U].
Qed.

Lemma remove_device_opens (dev : cstr) (st : daemon) :
  opens (remove_device dev st) = opens st.
Proof. apply remove_device_state. Qed.

Lemma process_commandline_distinct (line : cstr) (st : daemon) :
  paths_distinct st -> paths_distinct (process_commandline line st).
Proof.
  intros N. rewrite process_commandline_tokens.
  destruct (first_token line) as [op|]; [|exact N].
  destruct (argument line) as [d|]; [|exact N].
  destruct (streq (lit "ADD") op).
  - destruct (remove_device_distinct d (emit (Stderr (MsgAdding d)) st) N)
      as [N1 I1].
    unfold paths_distinct, paths in *. rewrite add_device_devs. cbv zeta.
    destruct (_ <? 0); rewrite map_app; simpl.
    + rewrite app_nil_r. exact N1.
    + apply NoDup_app; [exact N1 | repeat constructor; intros [] |].
      intros x Hx [<-|[]]. contradiction.
  - destruct (streq (lit "REMOVE") op); [|exact N].
    apply (remove_device_distinct d (emit (Stderr (MsgRemoving d)) st) N).
Qed.

(** What the ADD command does to a registry with distinct paths: the path
    is registered once if the open succeeds and not at all if it fails. *)
Lemma add_command_replaces (line p : cstr) (st : daemon) :
  paths_distinct st ->
  first_token line = Some (lit "ADD") -> argument line = Some p ->
  let st' := process_commandline line st in
  paths_distinct st' /\
  count_occ (list_eq_dec ascii_dec) (paths st') p =
    if fst (Sys.open st) <? 0 then O else 1%nat.
Proof.
  intros N T A st'. split; [apply process_commandline_distinct; exact N|].
  unfold st'. rewrite process_commandline_tokens, T, A, streq_refl.
  destruct (remove_device_distinct p (emit (Stderr (MsgAdding p)) st) N)
    as [_ I1].
  unfold paths in *. rewrite add_device_devs. cbv zeta.
  assert (O : fst (Sys.open (remove_device p (emit (Stderr (MsgAdding p)) st)))
              = fst (Sys.open st)).
  { unfold Sys.open. rewrite remove_device_opens. cbn.
    destruct (opens st); reflexivity. }
  rewrite O, map_app, count_occ_app.
  rewrite (proj1 (count_occ_not_In _ _ _) I1).
  destruct (fst (Sys.open st) <? 0); simpl; [reflexivity|].
  destruct (list_eq_dec ascii_dec p p); [reflexivity | contradiction].
Qed.

Lemma split_commands_distinct (fuel : nat) (st st' : daemon) :
  paths_distinct st -> split_commands fuel st = Some st' -> paths_distinct st'.
Proof.
  revert st. induction fuel as [|fuel IH]; intros st N; simpl.
  { intros H. apply some_eq in H. subst st'. exact N. }
  destruct (strchr (cmdbuffer st) NL) as [nl|].
  2:{ intros H. apply some_eq in H. subst st'. exact N. }
  pose proof (process_commandline_distinct (firstn nl (cmdbuffer st)) st N).
  destruct (Z.of_nat nl <? MAXCMD).
  - destruct (strcpy_overlaps _ _); [discriminate|]. apply IH. assumption.
  - apply IH. assumption.
Qed.

(** A turn of the loop keeps the paths of the registry distinct. *)
Lemma loop_body_distinct (e : env) (st st' : daemon) :
  paths_distinct st -> loop_body e st = Some st' -> paths_distinct st'.
Proof.
  intros N. unfold loop_body. destruct (wait e st) as [retval rfds].
  destruct (retval =? -1); [intros H; apply some_eq in H; subst; exact N|].
  destruct (negb (retval =? 0)); [|intros H; apply some_eq in H; subst; exact N].
  assert (N1 : paths_distinct (process_devices e rfds st)).
  { apply (process_devices_from_preserves (fun l => NoDup (map devname l)));
      [|exact N].
    intros dev l d l' Hl U. eapply unlink_distinct; eauto. }
  destruct (negb (cmdfd _ =? -1) && Sys.FD_ISSET _ rfds);
    [|intros H; apply some_eq in H; subst; exact N1].
  intros H. apply turn_drain in H as [H _]. revert H.
  rewrite read_command_pipe_unfold. cbv zeta.
  destruct (_ =? 0).
  - intros H. apply some_eq in H. subst st'.
    unfold paths_distinct, paths.
    destruct (reconnect_state
                (MAXCMD - Z.of_nat (length (cmdbuffer (process_devices e rfds st))) - 1)
                (process_devices e rfds st)) as (_ & -> & _). exact N1.
  - destruct (c_string _) as [s|]; [|discriminate].
    apply split_commands_distinct. exact N1.
Qed.

Lemma process_events_distinct (es : list env) (st st' : daemon) :
  paths_distinct st ->
  process_events es st = Halted st' \/ process_events es st = Running st' ->
  paths_distinct st'.
Proof.
  revert st. induction es as [|e es IH]; intros st N; simpl.
  - destruct (loop_condition st); intros [H|H]; try discriminate;
      injection H as <-; exact N.
  - destruct (loop_condition st).
    + destruct (loop_body e st) as [s|] eqn:B.
      * apply IH. eapply loop_body_distinct; eauto.
      * intros [H|H]; discriminate.
    + intros [H|H]; try discriminate. injection H as <-. exact N.
Qed.

Lemma add_devices_distinct (ps : list cstr) (st : daemon) :
  NoDup (paths st ++ ps) ->
  paths_distinct (fold_left (fun st dev => add_device dev st) ps st).
Proof.
  revert st. induction ps as [|p ps IH]; intros st N; simpl.
  - rewrite app_nil_r in N. exact N.
  - apply IH. unfold paths. rewrite add_device_devs. cbv zeta.
    destruct (_ <? 0); rewrite map_app; simpl.
    + rewrite app_nil_r. eapply NoDup_remove_1. exact N.
    + rewrite <- app_assoc. exact N.
Qed.

(** Distinct paths on the command line give a registry with distinct
    paths, from the start of the loop to its end. *)
Lemma distinct_startup_paths (ps : list cstr) (pipe : option cstr)
  (dump : bool) (answers : list Z) (st : daemon) :
  NoDup ps ->
  setup_readers ps (configured pipe dump answers) = inr st ->
  paths_distinct st.
Proof.
  intros N. unfold setup_readers.
  destruct pipe as [p|]; cbn [command_pipe configured].
  - destruct (open_cmd_result (configured (Some p) dump answers))
      as (D & _ & _ & _).
    destruct (cmdfd _ <? 0); [discriminate|].
    intros H. injection H as <-. apply add_devices_distinct.
    unfold paths. rewrite D. exact N.
  - destruct (_ <? 1); [discriminate|].
    intros H. injection H as <-. apply add_devices_distinct. exact N.
Qed.

(** C5 at the failing input: two equal paths on the command line, both
    opens succeeding, leave two entries with the same path in the
    registry with which the loop starts. *)
Theorem startup_registers_path_twice :
  exists st,
    setup_readers [lit "/dev/input/event0"; lit "/dev/input/event0"]
      (configured None false [3; 4]) = inr st /\
    devs st = [registered 3 "/dev/input/event0";
               registered 4 "/dev/input/event0"] /\
    ~ paths_distinct st.
Proof.
  eexists. split; [reflexivity|]. split; [reflexivity|].
  intros N. inversion N as [|x l I _]. apply I. left. reflexivity.
Qed.

(** ** Splitting the buffer into lines *)

Lemma strchr_some (s : cstr) (c : ascii) (i : nat) :
  strchr s c = Some i ->
  s = firstn i s ++ c :: skipn (S i) s /\ ~ In c (firstn i s) /\
  (i < length s)%nat.
Proof.
  revert i. induction s as [|x s IH]; intros i; simpl; [discriminate|].
  destruct (Ascii.eqb x c) eqn:E.
  - intros [= <-]. apply Ascii.eqb_eq in E. subst x. simpl.
    repeat split; auto. lia.
  - destruct (strchr s c) as [j|]; [|discriminate]. intros [= <-].
    destruct (IH j eq_refl) as (S1 & N1 & L1). simpl. repeat split.
    + f_equal. exact S1.
    + intros [H|H]; [subst x; rewrite Ascii.eqb_refl in E; discriminate | auto].
    + lia.
Qed.

Lemma strchr_none (s : cstr) (c : ascii) :
  strchr s c = None <-> ~ In c s.
Proof.
  induction s as [|x s IH]; simpl; [tauto|].
  destruct (Ascii.eqb x c) eqn:E.
  - apply Ascii.eqb_eq in E. split; [discriminate | intros H; exfalso; auto].
  - apply Ascii.eqb_neq in E. destruct (strchr s c) as [j|].
    + split; [discriminate|]. intros H. exfalso.
      assert (N : ~ In c s) by tauto. apply IH in N. discriminate.
    + split; [|reflexivity]. intros _ [H|H]; [auto|]. apply IH in H; auto.
Qed.

Lemma cut_lines_no_newline (s : cstr) : ~ In NL s -> cut_lines s = ([], s).
Proof.
  induction s as [|c s IH]; simpl; [reflexivity|]. intros N.
  rewrite IH by tauto.
  destruct (Ascii.eqb c NL) eqn:E; [|reflexivity].
  apply Ascii.eqb_eq in E. exfalso. auto.
Qed.

Lemma cut_lines_first (l r : cstr) :
  ~ In NL l ->
  cut_lines (l ++ NL :: r) = (l :: fst (cut_lines r), snd (cut_lines r)).
Proof.
  induction l as [|c l IH]; simpl; intros N.
  - destruct (cut_lines r). reflexivity.
  - rewrite IH by tauto.
    destruct (Ascii.eqb c NL) eqn:E; [|reflexivity].
    apply Ascii.eqb_eq in E. exfalso. auto.
Qed.

Lemma remove_device_buffer (dev b : cstr) (st : daemon) :
  remove_device dev (with_cmdbuffer b st) = with_cmdbuffer b (remove_device dev st).
Proof.
  unfold remove_device. cbn. destruct (unlink dev (devs st)) as [[d l]|]; reflexivity.
Qed.

Lemma add_device_buffer (dev b : cstr) (st : daemon) :
  add_device dev (with_cmdbuffer b st) = with_cmdbuffer b (add_device dev st).
Proof.
  unfold add_device, Sys.open. cbn.
  destruct (opens st) as [|r rest]; cbn; [reflexivity|].
  destruct (r <? 0); cbn; [reflexivity|].
  destruct (r <? 0); reflexivity.
Qed.

(** The parser does not look at the buffer of the state. *)
Lemma process_commandline_buffer (line b : cstr) (st : daemon) :
  process_commandline line (with_cmdbuffer b st) =
  with_cmdbuffer b (process_commandline line st).
Proof.
  rewrite !process_commandline_tokens.
  destruct (first_token line) as [op|]; [|reflexivity].
  destruct (argument line) as [d|]; [|reflexivity].
  destruct (streq (lit "ADD") op).
  - change (emit (Stderr (MsgAdding d)) (with_cmdbuffer b st))
      with (with_cmdbuffer b (emit (Stderr (MsgAdding d)) st)).
    rewrite remove_device_buffer, add_device_buffer. reflexivity.
  - destruct (streq (lit "REMOVE") op); [|reflexivity].
    change (emit (Stderr (MsgRemoving d)) (with_cmdbuffer b st))
      with (with_cmdbuffer b (emit (Stderr (MsgRemoving d)) st)).
    apply remove_device_buffer.
Qed.

Lemma parse_all_buffer (ls : list cstr) (b : cstr) (st : daemon) :
  parse_all ls (with_cmdbuffer b st) = with_cmdbuffer b (parse_all ls st).
Proof.
  revert st. induction ls as [|l ls IH]; intros st; simpl; [reflexivity|].
  rewrite process_commandline_buffer. apply IH.
Qed.

Lemma with_cmdbuffer_twice (a b : cstr) (st : daemon) :
  with_cmdbuffer a (with_cmdbuffer b st) = with_cmdbuffer a st.
Proof. reflexivity. Qed.

Lemma with_cmdbuffer_same (st : daemon) : with_cmdbuffer (cmdbuffer st) st = st.
Proof. destruct st. reflexivity. Qed.

Lemma cut_lines_length (s : cstr) :
  text_length (fst (cut_lines s)) (snd (cut_lines s)) = length s.
Proof.
  induction s as [|c s IH]; simpl; [reflexivity|].
  destruct (cut_lines s) as [ls t]. simpl in IH.
  destruct (Ascii.eqb c NL); simpl; [rewrite IH; reflexivity|].
  destruct ls as [|l ls']; simpl in *; lia.
Qed.

(** The loop of read_command_pipe, for every content of the buffer.  When
    no [strcpy] of the loop copies between ranges that overlap, each
    complete line goes to the parser, in order and without its newline,
    and the buffer keeps what follows the last newline; otherwise the loop
    has no defined outcome.  A bound above the length of the buffer is
    enough for the loop to end by its own test. *)
Lemma split_commands_lines (fuel : nat) (st : daemon) :
  (length (cmdbuffer st) < fuel)%nat ->
  Z.of_nat (length (cmdbuffer st)) <= MAXCMD ->
  split_commands fuel st =
  if scan_defined (cmdbuffer st)
  then Some (with_cmdbuffer (snd (cut_lines (cmdbuffer st)))
               (parse_all (fst (cut_lines (cmdbuffer st))) st))
  else None.
Proof.
  revert st. induction fuel as [|fuel IH]; intros st L M; [lia|].
  cbn [split_commands].
  destruct (strchr (cmdbuffer st) NL) as [nl|] eqn:Hs.
  - destruct (strchr_some _ _ _ Hs) as (E & N & B).
    assert (G : (Z.of_nat nl <? MAXCMD) = true) by (apply Z.ltb_lt; lia).
    rewrite G.
    set (line := firstn nl (cmdbuffer st)) in *.
    set (rest := skipn (S nl) (cmdbuffer st)) in *.
    assert (Lr : (length rest < length (cmdbuffer st))%nat).
    { unfold rest. rewrite length_skipn. lia. }
    assert (Ll : length line = nl).
    { unfold line. rewrite length_firstn. lia. }
    assert (Sd : scan_defined (cmdbuffer st) =
                 negb (strcpy_overlaps nl rest) && scan_defined rest).
    { unfold scan_defined. rewrite E, (cut_lines_first line rest N).
      cbn [fst snd apart]. rewrite cut_lines_length, Ll.
      unfold strcpy_overlaps. rewrite Nat.ltb_antisym, negb_involutive.
      reflexivity. }
    rewrite Sd. destruct (strcpy_overlaps nl rest); [reflexivity|].
    rewrite IH; cbn [cmdbuffer with_cmdbuffer]; [|lia|lia].
    cbn [negb andb]. destruct (scan_defined rest); [|reflexivity].
    rewrite E, (cut_lines_first line rest N).
    cbn [fst snd parse_all fold_left].
    rewrite with_cmdbuffer_twice, parse_all_buffer, with_cmdbuffer_twice.
    reflexivity.
  - apply strchr_none in Hs. unfold scan_defined.
    rewrite (cut_lines_no_newline _ Hs). simpl.
    rewrite with_cmdbuffer_same. reflexivity.
Qed.

(** The outcome of the loop, when it has one. *)
Lemma split_commands_some (fuel : nat) (st st' : daemon) :
  (length (cmdbuffer st) < fuel)%nat ->
  Z.of_nat (length (cmdbuffer st)) <= MAXCMD ->
  split_commands fuel st = Some st' ->
  scan_defined (cmdbuffer st) = true /\
  st' = with_cmdbuffer (snd (cut_lines (cmdbuffer st)))
          (parse_all (fst (cut_lines (cmdbuffer st))) st).
Proof.
  intros L M. rewrite (split_commands_lines fuel st L M).
  destruct (scan_defined (cmdbuffer st)); [|discriminate].
  intros H. apply some_eq in H. auto.
Qed.

Lemma cut_lines_rest (s : cstr) :
  ~ In NL (snd (cut_lines s)) /\ (length (snd (cut_lines s)) <= length s)%nat.
Proof.
  induction s as [|c s [IH1 IH2]]; simpl; [split; [tauto|lia]|].
  destruct (cut_lines s) as [ls t]. simpl in *.
  destruct (Ascii.eqb c NL) eqn:E; simpl; [split; [exact IH1|lia]|].
  apply Ascii.eqb_neq in E.
  destruct ls; simpl; [|split; [exact IH1|lia]].
  split; [intros [H|H]; auto | lia].
Qed.

(** ** The drain *)

Lemma c_string_some (a : list ascii) (s : cstr) :
  c_string a = Some s ->
  (exists r, a = s ++ NUL :: r) /\ ~ In NUL s /\ (length s < length a)%nat.
Proof.
  revert s. induction a as [|c a IH]; intros s; simpl; [discriminate|].
  destruct (Ascii.eqb c NUL) eqn:E.
  - intros [= <-]. apply Ascii.eqb_eq in E. subst c. simpl.
    split; [exists a; reflexivity|]. split; [tauto|lia].
  - destruct (c_string a) as [t|]; [|discriminate]. intros [= <-].
    destruct (IH t eq_refl) as ((r & ->) & N & L). simpl.
    split; [exists r; reflexivity|]. split; [|lia].
    intros [H|H]; [subst c; rewrite Ascii.eqb_refl in E; discriminate | auto].
Qed.

(** The size of the read and what it can return. *)
Lemma read_result_bound (e : env) (st : daemon) :
  Z.of_nat (length (cmdbuffer st)) <= MAXCMD - 1 ->
  let count := MAXCMD - 1 - Z.of_nat (length (cmdbuffer st)) in
  -1 <= fst (read_result e st) <= count /\
  Z.of_nat (length (snd (read_result e st))) = count + 1.
Proof.
  intros L count. unfold read_result, Sys.read.
  set (rem := MAXCMD - Z.of_nat (length (cmdbuffer st))).
  assert (Lb : length (map (stack e) (seq 0 (Z.to_nat rem))) = Z.to_nat rem).
  { rewrite length_map, length_seq. reflexivity. }
  destruct (rem - 1 <=? 0) eqn:C.
  - simpl. rewrite Lb. apply Z.leb_le in C. lia.
  - apply Z.leb_gt in C. destruct (cmd_in e) as [data| |]; simpl.
    + pose proof (firstn_le_length (Z.to_nat (rem - 1)) data) as F.
      rewrite length_app, length_skipn, Lb. lia.
    + rewrite Lb. lia.
    + rewrite Lb. lia.
Qed.

Lemma split_commands_shortens (fuel : nat) (st st' : daemon) :
  split_commands fuel st = Some st' ->
  (length (cmdbuffer st') <= length (cmdbuffer st))%nat.
Proof.
  revert st. induction fuel as [|fuel IH]; intros st; simpl.
  { intros H. apply some_eq in H. subst st'. lia. }
  destruct (strchr (cmdbuffer st) NL) as [nl|] eqn:Hs.
  2:{ intros H. apply some_eq in H. subst st'. lia. }
  pose proof (length_skipn (S nl) (cmdbuffer st)) as Lk.
  destruct (Z.of_nat nl <? MAXCMD).
  - destruct (strcpy_overlaps _ _); [discriminate|].
    intros H. apply IH in H.
    change (length (cmdbuffer st') <= length (skipn (S nl) (cmdbuffer st)))%nat
      in H.
    lia.
  - intros H. apply IH in H.
    change (length (cmdbuffer st') <= 0)%nat in H. lia.
Qed.

(** The buffered text stays below the capacity of the buffer whenever the
    drain has a defined outcome. *)
Lemma drain_keeps_buffer_below_capacity (e : env) (st st' : daemon) :
  Z.of_nat (length (cmdbuffer st)) <= MAXCMD - 1 ->
  read_command_pipe e st = Some st' ->
  Z.of_nat (length (cmdbuffer st')) <= MAXCMD - 1.
Proof.
  intros L. rewrite read_command_pipe_unfold. cbv zeta.
  destruct (_ =? 0).
  - intros H. apply some_eq in H. subst st'.
    destruct (reconnect_state (MAXCMD - Z.of_nat (length (cmdbuffer st)) - 1) st)
      as (-> & _). simpl. unfold MAXCMD. lia.
  - destruct (c_string _) as [s|] eqn:Cs; [|discriminate].
    intros H.
    destruct (c_string_some _ _ Cs) as (_ & _ & Ls).
    destruct (read_result_bound e st L) as (_ & Lb). cbv zeta in Lb.
    apply split_commands_shortens in H. cbn [cmdbuffer with_cmdbuffer] in H.
    rewrite !length_app in *. lia.
Qed.

Lemma c_string_until_nul (a r : list ascii) :
  c_string (a ++ NUL :: r) = Some (until_nul a).
Proof.
  induction a as [|c a IH]; simpl; [reflexivity|].
  destruct (Ascii.eqb c NUL); [reflexivity|]. rewrite IH. reflexivity.
Qed.

Lemma until_nul_length (a : list ascii) :
  (length (until_nul a) <= length a)%nat.
Proof.
  induction a as [|c a IH]; simpl; [lia|].
  destruct (Ascii.eqb c NUL); simpl; lia.
Qed.

Lemma until_nul_all (a : list ascii) : ~ In NUL a -> until_nul a = a.
Proof.
  induction a as [|c a IH]; simpl; intros N; [reflexivity|].
  destruct (Ascii.eqb c NUL) eqn:E.
  - apply Ascii.eqb_eq in E. exfalso. auto.
  - rewrite IH by tauto. reflexivity.
Qed.

(** C2, amended.  With L bytes buffered, L below MAXCMD-1, the drain asks
    read for MAXCMD-1-L bytes.  When the read delivers bytes and the byte
    of [buf] behind them is NUL, what is appended to the buffer is the
    bytes read up to their first NUL, all of them when none is NUL: the
    drain is the loop over the lines, started on the buffer with that text
    at its tail, and when the text holds no newline it is the outcome of
    the drain.  The buffered text never reaches MAXCMD bytes, here and
    after every drain that has a defined outcome. *)
Theorem drain_appends_up_to_nul (e : env) (st : daemon) (data : list ascii) :
  cmd_in e = Sys.Bytes data ->
  data <> [] ->
  Z.of_nat (length (cmdbuffer st)) < MAXCMD - 1 ->
  let count := MAXCMD - 1 - Z.of_nat (length (cmdbuffer st)) in
  let got := firstn (Z.to_nat count) data in
  stack e (length got) = NUL ->
  let text := cmdbuffer st ++ until_nul got in
  let appended :=
    with_cmdbuffer text
      (emit (ReadCmd (cmdfd st) count (Z.of_nat (length got))) st) in
  fst (read_result e st) = Z.of_nat (length got) /\
  0 < Z.of_nat (length got) <= count /\
  read_command_pipe e st = split_commands (S (length text)) appended /\
  (strchr text NL = None -> read_command_pipe e st = Some appended) /\
  (~ In NUL got -> text = cmdbuffer st ++ got) /\
  Z.of_nat (length text) <= MAXCMD - 1 /\
  (forall (e' : env) (s s' : daemon),
      Z.of_nat (length (cmdbuffer s)) <= MAXCMD - 1 ->
      read_command_pipe e' s = Some s' ->
      Z.of_nat (length (cmdbuffer s')) <= MAXCMD - 1).
Proof.
  intros I D L count got T text appended.
  set (rem := MAXCMD - Z.of_nat (length (cmdbuffer st))).
  assert (Lg : (0 < length got <= Z.to_nat count)%nat).
  { unfold got. split; [|apply firstn_le_length].
    destruct data as [|c data]; [congruence|].
    destruct (Z.to_nat count) eqn:C; [lia|]. simpl. lia. }
  assert (R : read_result e st =
              (Z.of_nat (length got),
               got ++ skipn (length got) (map (stack e) (seq 0 (Z.to_nat rem))))).
  { unfold read_result, Sys.read. fold rem. rewrite I.
    replace (rem - 1 <=? 0) with false by (symmetry; apply Z.leb_gt; lia).
    replace (rem - 1) with count by lia. reflexivity. }
  assert (K : skipn (length got) (map (stack e) (seq 0 (Z.to_nat rem))) =
              NUL :: map (stack e) (seq (S (length got))
                                        (Z.to_nat rem - S (length got)))).
  { rewrite skipn_map, skipn_seq.
    replace (Z.to_nat rem - length got)%nat
      with (S (Z.to_nat rem - S (length got))) by lia.
    simpl. rewrite T. reflexivity. }
  pose proof (until_nul_length got) as U.
  assert (Lt : Z.of_nat (length text) <= MAXCMD - 1).
  { unfold text. rewrite length_app. lia. }
  assert (Q : read_command_pipe e st =
              split_commands (S (length text)) appended).
  { rewrite read_command_pipe_unfold. cbv zeta. rewrite R. cbn [fst snd].
    replace (Z.of_nat (length got) =? 0) with false
      by (symmetry; apply Z.eqb_neq; lia).
    rewrite K, c_string_until_nul.
    replace (MAXCMD - Z.of_nat (length (cmdbuffer st)) - 1) with count by lia.
    reflexivity. }
  split; [rewrite R; reflexivity|]. split; [lia|]. split; [exact Q|].
  split; [|split; [|split]].
  - intros N. rewrite Q. unfold appended. cbn [split_commands cmdbuffer with_cmdbuffer].
    rewrite N. reflexivity.
  - intros N. unfold text. rewrite (until_nul_all got N). reflexivity.
  - exact Lt.
  - intros e' s s'. apply drain_keeps_buffer_below_capacity.
Qed.

Lemma drain_appends_up_to_nul_witness :
  fst (read_result (writes (lit "REMOVE /dev/input/event0")) (listening "" [4]))
    = 24 /\
  read_command_pipe (writes (lit "REMOVE /dev/input/event0")) (listening "" [4]) =
    Some (with_cmdbuffer (lit "REMOVE /dev/input/event0")
            (emit (ReadCmd 3 1023 24) (listening "" [4]))).
Proof.
  destruct (drain_appends_up_to_nul (writes (lit "REMOVE /dev/input/event0"))
              (listening "" [4]) (lit "REMOVE /dev/input/event0"))
    as (R & _ & _ & D & _); [reflexivity | discriminate | reflexivity | reflexivity |].
  split; [exact R | exact (D eq_refl)].
Defined.

(** A NUL among the bytes read: the read returns three bytes, the buffer
    grows by one, so what is appended is not the bytes read. *)
Lemma nul_byte_cuts_append :
  exists st',
    read_command_pipe (writes ["A"%char; NUL; "B"%char]) (listening "" [4])
      = Some st' /\
    fst (read_result (writes ["A"%char; NUL; "B"%char]) (listening "" [4])) = 3 /\
    cmdbuffer st' = lit "A" /\
    cmdbuffer st' <>
      cmdbuffer (listening "" [4]) ++ ["A"%char; NUL; "B"%char].
Proof.
  eexists. split; [vm_compute; reflexivity|].
  split; [reflexivity|]. split; [reflexivity|]. discriminate.
Qed.

(** ** The read buffer is not terminated *)

(** The example of the spec when the stack happens to hold zeros: the
    first write is buffered and nothing is parsed; the newline of the
    second write completes the line, which is parsed once. *)
Example line_reassembly_on_zeroed_stack :
  exists st1 st2,
    read_command_pipe (writes (lit "ADD /dev/input/event0")) (listening "" [4])
      = Some st1 /\
    cmdbuffer st1 = lit "ADD /dev/input/event0" /\
    since (listening "" [4]) st1 = [ReadCmd 3 1023 21] /\
    read_command_pipe (writes [NL]) st1 = Some st2 /\
    since st1 st2 =
      [ReadCmd 3 1002 1; Stderr (MsgAdding (lit "/dev/input/event0"));
       CallRemove (lit "/dev/input/event0"); CallAdd (lit "/dev/input/event0");
       OpenDev (lit "/dev/input/event0") 4] /\
    cmdbuffer st2 = [] /\
    devs st2 = [registered 4 "/dev/input/event0"].
Proof.
  eexists. eexists.
  split; [vm_compute; reflexivity|].
  split; [reflexivity|]. split; [reflexivity|].
  split; [vm_compute; reflexivity|].
  split; [reflexivity|]. split; reflexivity.
Qed.

(** Nothing terminates what read has stored in [buf].  Here the buffer is
    empty, the pipe delivers the two bytes AB, and the byte of [buf] behind
    them is an X left on the stack: the read returns 2 and the buffer
    receives three bytes. *)
Example drain_appends_stale_bytes :
  exists st',
    read_command_pipe (writes_over (lit "AB") [(2%nat, "X"%char)])
      (listening "" [4]) = Some st' /\
    since (listening "" [4]) st' = [ReadCmd 3 1023 2] /\
    cmdbuffer st' = lit "ABX".
Proof.
  eexists. split; [vm_compute; reflexivity|]. split; reflexivity.
Qed.

(** C1 at the failing input: the buffer is empty, the pipe delivers the 21
    bytes of [ADD /dev/input/event0] without a newline, and the bytes of
    [buf] behind them are a 1 and a newline left on the stack.  The drain
    parses a command at once, and it is not the command that was written. *)
Theorem partial_line_parsed_early :
  exists st',
    read_command_pipe
      (writes_over (lit "ADD /dev/input/event0")
         [(21%nat, "1"%char); (22%nat, NL)])
      (listening "" [4]) = Some st' /\
    since (listening "" [4]) st' =
      [ReadCmd 3 1023 21; Stderr (MsgAdding (lit "/dev/input/event01"));
       CallRemove (lit "/dev/input/event01"); CallAdd (lit "/dev/input/event01");
       OpenDev (lit "/dev/input/event01") 4] /\
    devs st' = [registered 4 "/dev/input/event01"].
Proof.
  eexists. split; [vm_compute; reflexivity|]. split; reflexivity.
Qed.

(** * More of thd.c *)

(** ** What each part adds to the trace *)

Section Emitted.

Variable P : action -> bool.

Lemma emitted_refl (st : daemon) : emitted_only P st st.
Proof. exists []. rewrite app_nil_r. auto. Qed.

Lemma emitted_trans (a b c : daemon) :
  emitted_only P a b -> emitted_only P b c -> emitted_only P a c.
Proof.
  intros (t1 & T1 & N1) (t2 & T2 & N2). exists (t1 ++ t2).
  rewrite T2, T1, app_assoc, forallb_app, N1, N2. auto.
Qed.

Lemma emitted_emit (a : action) (st s : daemon) :
  emitted_only P st s -> P a = true -> emitted_only P st (emit a s).
Proof.
  intros (t & T & N) H. exists (t ++ [a]). simpl.
  rewrite T, app_assoc, forallb_app, N. simpl. rewrite H. auto.
Qed.

Lemma emitted_same_trace (st s s' : daemon) :
  emitted_only P st s -> trace s' = trace s -> emitted_only P st s'.
Proof. intros (t & T & N) H. exists t. rewrite H. auto. Qed.

Hypothesis P_remove : forall d, P (CallRemove d) = true.
Hypothesis P_close : forall f, P (Close f) = true.

Lemma emitted_remove_device (dev : cstr) (st s : daemon) :
  emitted_only P st s -> emitted_only P st (remove_device dev s).
Proof.
  intros K. unfold remove_device, Sys.close.
  destruct (unlink dev (devs (emit (CallRemove dev) s))) as [[d l]|].
  - apply emitted_emit; [|apply P_close].
    eapply emitted_same_trace; [apply emitted_emit; [exact K | apply P_remove]|].
    reflexivity.
  - apply emitted_emit; [exact K | apply P_remove].
Qed.

End Emitted.

Lemma emitted_weaken (P Q : action -> bool) (st st' : daemon) :
  (forall a, P a = true -> Q a = true) ->
  emitted_only P st st' -> emitted_only Q st st'.
Proof.
  intros H (t & T & N). exists t. split; [exact T|].
  rewrite forallb_forall in *. auto.
Qed.

Lemma emitted_add_device (dev : cstr) (st s : daemon) :
  emitted_only by_parser st s -> emitted_only by_parser st (add_device dev s).
Proof.
  intros K. unfold add_device, Sys.open. cbn.
  destruct (opens s) as [|r rest]; cbn.
  - repeat (apply emitted_emit; [|reflexivity]). exact K.
  - destruct (r <? 0) eqn:R; cbn; rewrite ?R.
    + repeat (apply emitted_emit; [|reflexivity]).
      eapply emitted_same_trace; [exact K | reflexivity].
    + eapply emitted_same_trace;
        [apply (emitted_emit by_parser (OpenDev dev r));
         [apply (emitted_emit by_parser (CallAdd dev)); [exact K|reflexivity]
         |reflexivity]|].
      reflexivity.
Qed.

Lemma emitted_process_commandline (line : cstr) (st s : daemon) :
  emitted_only by_parser st s ->
  emitted_only by_parser st (process_commandline line s).
Proof.
  intros K. rewrite process_commandline_tokens.
  destruct (first_token line) as [op|]; [|exact K].
  destruct (argument line) as [d|]; [|exact K].
  destruct (streq (lit "ADD") op).
  - apply emitted_add_device, emitted_remove_device; try reflexivity.
    apply emitted_emit; [exact K | reflexivity].
  - destruct (streq (lit "REMOVE") op); [|exact K].
    apply emitted_remove_device; try reflexivity.
    apply emitted_emit; [exact K | reflexivity].
Qed.

Lemma emitted_split_commands (fuel : nat) (st s s' : daemon) :
  emitted_only by_parser st s ->
  split_commands fuel s = Some s' ->
  emitted_only by_parser st s'.
Proof.
  revert s. induction fuel as [|fuel IH]; intros s K; simpl.
  { intros H. apply some_eq in H. subst s'. exact K. }
  destruct (strchr (cmdbuffer s) NL) as [nl|].
  2:{ intros H. apply some_eq in H. subst s'. exact K. }
  pose proof (emitted_process_commandline (firstn nl (cmdbuffer s)) st s K) as K1.
  destruct (Z.of_nat nl <? MAXCMD).
  - destruct (strcpy_overlaps _ _); [discriminate|].
    apply IH. eapply emitted_same_trace; [exact K1 | reflexivity].
  - apply IH. eapply emitted_same_trace; [exact K1 | reflexivity].
Qed.

Lemma emitted_read_event (e : env) (d : device) (st s : daemon) :
  emitted_only by_pass st s -> emitted_only by_pass st (snd (read_event e d s)).
Proof.
  intros K. unfold read_event. destruct (dev_in e (fd d)) as [n ev].
  destruct (negb (n =? sizeof_input_event)); simpl.
  { repeat (apply emitted_emit; [|reflexivity]). exact K. }
  destruct ((ev_type ev =? EV_KEY) || (ev_type ev =? EV_SW)); simpl.
  - destruct (dump_events s);
      repeat (apply emitted_emit; [|reflexivity]); exact K.
  - apply emitted_emit; [exact K | reflexivity].
Qed.

Lemma emitted_process_devices_from (e : env) (fds : Sys.fd_set)
  (p : list device) (st s : daemon) :
  emitted_only by_pass st s ->
  emitted_only by_pass st (process_devices_from e fds p s).
Proof.
  revert s. induction p as [|d p IH]; intros s K; simpl; [exact K|].
  destruct (Sys.FD_ISSET (fd d) fds); [|apply IH; exact K].
  pose proof (emitted_read_event e d st s K) as K'.
  destruct (read_event e d s) as [r s']. simpl in K'.
  destruct (negb (r =? 0)).
  - apply emitted_remove_device; try reflexivity. exact K'.
  - apply IH. exact K'.
Qed.

Lemma emitted_read_command_pipe (e : env) (st st' : daemon) :
  read_command_pipe e st = Some st' -> emitted_only by_drain st st'.
Proof.
  rewrite read_command_pipe_unfold. cbv zeta.
  destruct (_ =? 0).
  - intros H. apply some_eq in H. subst st'.
    destruct (reconnect_state
                (MAXCMD - Z.of_nat (length (cmdbuffer st)) - 1) st)
      as (_ & _ & _ & _ & _ & T).
    eexists. split; [exact T|]. destruct (reopen_answer st <? 0); reflexivity.
  - destruct (c_string _) as [s|]; [|discriminate].
    set (st0 := with_cmdbuffer _ _). intros H.
    apply (emitted_trans by_drain st st0).
    + eexists. split; [reflexivity|]. reflexivity.
    + apply (emitted_weaken by_parser by_drain).
      * intros a Ha. destruct a; try discriminate; try reflexivity.
        destruct m; try discriminate; reflexivity.
      * eapply emitted_split_commands; [apply emitted_refl | exact H].
Qed.

Lemma read_event_buffer (e : env) (d : device) (st : daemon) :
  cmdbuffer (snd (read_event e d st)) = cmdbuffer st.
Proof.
  unfold read_event. destruct (dev_in e (fd d)) as [n ev].
  destruct (negb (n =? sizeof_input_event)); [reflexivity|].
  destruct ((ev_type ev =? EV_KEY) || (ev_type ev =? EV_SW)); [|reflexivity].
  simpl. destruct (dump_events st); reflexivity.
Qed.

Lemma process_devices_from_preserves_buffer (e : env) (fds : Sys.fd_set)
  (p : list device) (st : daemon) :
  cmdbuffer (process_devices_from e fds p st) = cmdbuffer st.
Proof.
  revert st. induction p as [|d p IH]; intros st; simpl; [reflexivity|].
  destruct (Sys.FD_ISSET (fd d) fds); [|apply IH].
  pose proof (read_event_buffer e d st) as B.
  destruct (read_event e d st) as [r s]. simpl in B.
  destruct (negb (r =? 0)).
  - destruct (remove_device_state (devname d) s) as (_ & _ & -> & _). exact B.
  - rewrite IH. exact B.
Qed.

(** X1. The parser and the dispatch pass keep to their own business.  A
    command line leads to nothing but messages about the device, calls of
    remove_device and add_device, and their open and close: it reads no
    device, calls neither the keystate tracker nor the trigger engine and
    leaves the command descriptor alone.  A dispatch pass leads to nothing
    but device reads, what is forwarded or dumped for them, and the removal
    of a faulty device: it opens nothing and does not read the command
    pipe. *)
Theorem parser_and_pass_keep_apart (e : env) (fds : Sys.fd_set)
  (line : cstr) (st : daemon) :
  emitted_only by_parser st (process_commandline line st) /\
  emitted_only by_pass st (process_devices e fds st) /\
  cmdfd (process_commandline line st) = cmdfd st /\
  cmdbuffer (process_devices e fds st) = cmdbuffer st.
Proof.
  split; [apply emitted_process_commandline, emitted_refl|].
  split; [apply emitted_process_devices_from, emitted_refl|].
  split; [apply (kept_process_commandline line st st (kept_refl st))|].
  unfold process_devices.
  apply (process_devices_from_preserves_buffer e fds (devs st) st).
Qed.

(** ** The readiness set *)

Lemma add_to_fdset_set (fds : Sys.fd_set) (p : list device) (m : Z) :
  snd (add_to_fdset fds p m) = rev (map fd p) ++ fds.
Proof.
  revert fds m. induction p as [|d p IH]; intros fds m; simpl; [reflexivity|].
  rewrite IH. unfold Sys.FD_SET. rewrite <- app_assoc. reflexivity.
Qed.

Lemma add_to_fdset_max (fds : Sys.fd_set) (p : list device) (m : Z) :
  m <= fst (add_to_fdset fds p m) /\
  forall d, In d p -> fd d <= fst (add_to_fdset fds p m).
Proof.
  revert fds m. induction p as [|d p IH]; intros fds m; simpl.
  - split; [lia | intros d []].
  - destruct (IH (Sys.FD_SET (fd d) fds) (if fd d >? m then fd d else m))
      as [M F].
    destruct (fd d >? m) eqn:G.
    + apply Z.gtb_lt in G. split; [lia|].
      intros x [<-|Hx]; [exact M | apply F; exact Hx].
    + rewrite Z.gtb_ltb in G. apply Z.ltb_ge in G. split; [exact M|].
      intros x [<-|Hx]; [lia | apply F; exact Hx].
Qed.

Lemma watch_spec (st : daemon) :
  (forall f, In f (snd (watch st)) <-> In f (watched st)) /\
  (forall f, In f (watched st) -> f < fst (watch st) + 1).
Proof.
  unfold watch, watched.
  pose proof (add_to_fdset_set Sys.FD_ZERO (devs st) 0) as S.
  pose proof (add_to_fdset_max Sys.FD_ZERO (devs st) 0) as [M F].
  destruct (add_to_fdset Sys.FD_ZERO (devs st) 0) as [maxfd rfds].
  simpl in S, M, F. subst rfds. unfold Sys.FD_ZERO. rewrite app_nil_r.
  assert (D : forall f, In f (map fd (devs st)) -> f <= maxfd).
  { intros f Hf. apply in_map_iff in Hf. destruct Hf as (d & <- & Hd). auto. }
  destruct (cmdfd st =? -1); simpl.
  - split.
    + intros f. rewrite <- in_rev. tauto.
    + intros f Hf. apply D in Hf. lia.
  - split.
    + intros f. unfold Sys.FD_SET. simpl. rewrite <- in_rev. tauto.
    + intros f [<-|Hf].
      * destruct (cmdfd st >? maxfd) eqn:G; [lia|].
        rewrite Z.gtb_ltb in G. apply Z.ltb_ge in G. lia.
      * apply D in Hf. destruct (cmdfd st >? maxfd) eqn:G; [|lia].
        apply Z.gtb_lt in G. lia.
Qed.

Lemma FD_ISSET_In (f : Z) (s : Sys.fd_set) :
  Sys.FD_ISSET f s = true <-> In f s.
Proof.
  unfold Sys.FD_ISSET. rewrite existsb_exists. split.
  - intros (x & Hx & E). apply Z.eqb_eq in E. subst x. exact Hx.
  - intros H. exists f. split; [exact H | apply Z.eqb_refl].
Qed.

Lemma set_after_wait (e : env) (st : daemon) (f : Z) (rd : list Z) :
  sel e = Sys.Readable rd ->
  (Sys.FD_ISSET f (snd (wait e st)) = true <->
   In f (watched st) /\ In f rd).
Proof.
  intros E. destruct (watch_spec st) as [W B].
  unfold wait. destruct (watch st) as [maxfd rfds]. simpl in W, B.
  unfold Sys.select. rewrite E. simpl.
  rewrite FD_ISSET_In, filter_In, nodup_In, W, andb_true_iff, FD_ISSET_In.
  split.
  - intros (H1 & _ & H2). auto.
  - intros (H1 & H2). repeat split; auto. apply Z.ltb_lt, B, H1.
Qed.

(** X2. The set that select is given and the bound on its descriptors.
    The set holds the descriptors of all registered devices and, when it
    is open, the command descriptor; [maxfd + 1] lies above each of them.
    Hence a watched descriptor is in the set after the wait exactly when
    select found it readable, and the wait returns 0 exactly when none of
    them is. *)
Theorem wait_reports_watched (e : env) (st : daemon) (f : Z) :
  (Sys.FD_ISSET f (snd (wait e st)) = true ->
   In f (watched st)) /\
  (forall rd, sel e = Sys.Readable rd ->
     (Sys.FD_ISSET f (snd (wait e st)) = true <->
      In f (watched st) /\ In f rd) /\
     (fst (wait e st) = 0 <-> forall g, In g (watched st) -> ~ In g rd)).
Proof.
  destruct (watch_spec st) as [W B].
  unfold wait. destruct (watch st) as [maxfd rfds]. simpl in W, B.
  unfold Sys.select.
  assert (Fl : forall rd g,
             In g (filter (fun f => (f <? maxfd + 1) && Sys.FD_ISSET f rd)
                          (nodup Z.eq_dec rfds)) <->
             In g (watched st) /\ In g rd).
  { intros rd g. rewrite filter_In, nodup_In, W, andb_true_iff, FD_ISSET_In.
    split.
    - intros (H1 & _ & H2). auto.
    - intros (H1 & H2). repeat split; auto. apply Z.ltb_lt, B, H1. }
  split.
  - destruct (sel e) as [|rd]; simpl; rewrite FD_ISSET_In.
    + apply W.
    + intros H. apply Fl in H. tauto.
  - intros rd ->. simpl. split.
    + rewrite FD_ISSET_In. apply Fl.
    + split.
      * intros Z0 g Hw Hr.
        assert (I : In g (filter (fun f => (f <? maxfd + 1) && Sys.FD_ISSET f rd)
                                 (nodup Z.eq_dec rfds))) by (apply Fl; auto).
        destruct (filter _ _); [destruct I | simpl in Z0; lia].
      * intros N.
        destruct (filter (fun f => (f <? maxfd + 1) && Sys.FD_ISSET f rd)
                         (nodup Z.eq_dec rfds)) as [|g l] eqn:E; [reflexivity|].
        exfalso. assert (I : In g (g :: l)) by (left; reflexivity).
        rewrite <- E in I. apply Fl in I. destruct I as [I1 I2].
        exact (N g I1 I2).
Qed.

(** ** What a turn of the loop reads *)

Lemma reads_of_none (P : action -> bool) (t : list action) :
  (forall f n, P (ReadDev f n) = false) ->
  forallb P t = true -> reads_of t = [].
Proof.
  intros N. induction t as [|a t IH]; simpl; [reflexivity|].
  rewrite andb_true_iff. intros [Ha Ht].
  destruct a; auto. rewrite N in Ha. discriminate.
Qed.

Lemma reads_of_forwarding (dump : bool) (name : cstr) (ev : input_event) :
  reads_of (forwarding dump name ev) = [].
Proof.
  unfold forwarding. destruct (monitored ev); [destruct dump|]; reflexivity.
Qed.

(** The trace of read_event: the read, then actions that read nothing. *)
Lemma read_event_trace (e : env) (d : device) (st : daemon) :
  exists t,
    trace (snd (read_event e d st)) =
      trace st ++ ReadDev (fd d) (fst (dev_in e (fd d))) :: t /\
    reads_of t = [].
Proof.
  destruct (Z.eq_dec (fst (dev_in e (fd d))) sizeof_input_event) as [E|N].
  - rewrite (read_event_whole e d st E). simpl.
    destruct (emits_state (record_actions e (dump_events st) d) st)
      as (_ & _ & _ & _ & _ & _ & T).
    rewrite T, E. eexists. split; [reflexivity|]. apply reads_of_forwarding.
  - rewrite (read_event_short e d st N). simpl.
    eexists. split; [rewrite <- app_assoc; reflexivity | reflexivity].
Qed.

(** A pass reads an initial stretch of the ready devices of [p], in the
    order of [p]. *)
Lemma pass_reads_prefix (e : env) (fds : Sys.fd_set) (p : list device)
  (st : daemon) :
  exists t k,
    trace (process_devices_from e fds p st) = trace st ++ t /\
    reads_of t = firstn k (map fd (filter (ready fds) p)).
Proof.
  revert st. induction p as [|d p IH]; intros st.
  - exists [], O. simpl. rewrite app_nil_r. auto.
  - cbn [process_devices_from filter]. fold (ready fds d).
    destruct (ready fds d) eqn:R; [|apply IH].
    destruct (read_event_trace e d st) as (t1 & T1 & R1).
    destruct (read_event e d st) as [r s]. cbn [snd] in T1.
    destruct (negb (r =? 0)).
    + destruct (remove_device_state (devname d) s) as (_ & _ & _ & _ & _ & S).
      assert (X : exists u, trace (remove_device (devname d) s) = trace s ++ u
                            /\ reads_of u = []).
      { destruct (unlink (devname d) (devs s)) as [[x l]|];
          destruct S as [_ ->]; eexists; split; reflexivity. }
      destruct X as (u & U & Ru).
      exists (ReadDev (fd d) (fst (dev_in e (fd d))) :: t1 ++ u), 1%nat.
      split.
      * rewrite U, T1, <- app_assoc. reflexivity.
      * simpl. rewrite reads_of_app, R1, Ru. reflexivity.
    + destruct (IH s) as (t2 & k & T2 & R2).
      exists (ReadDev (fd d) (fst (dev_in e (fd d))) :: t1 ++ t2), (S k).
      split.
      * rewrite T2, T1, <- app_assoc. reflexivity.
      * simpl. rewrite reads_of_app, R1, R2. reflexivity.
Qed.

(** The trace of a drain: the read of the command descriptor first, and
    no other read of it. *)
Lemma drain_trace (e : env) (st st' : daemon) :
  read_command_pipe e st = Some st' ->
  exists c dn t,
    trace st' = trace st ++ ReadCmd (cmdfd st) c dn :: t /\
    forallb (fun a => negb (is_read_cmd a)) t = true /\
    reads_of t = [].
Proof.
  rewrite read_command_pipe_unfold. cbv zeta.
  destruct (_ =? 0).
  - intros H. apply some_eq in H. subst st'.
    destruct (reconnect_state
                (MAXCMD - Z.of_nat (length (cmdbuffer st)) - 1) st)
      as (_ & _ & _ & _ & _ & T).
    do 3 eexists. split; [exact T|].
    destruct (reopen_answer st <? 0); split; reflexivity.
  - destruct (c_string _) as [s|]; [|discriminate].
    set (st0 := with_cmdbuffer _ _). intros H.
    destruct (emitted_split_commands (S (length (cmdbuffer st ++ s))) st0 st0
                st' (emitted_refl by_parser st0) H) as (t & T & N).
    do 3 eexists. split; [rewrite T; unfold st0; simpl;
                          rewrite <- app_assoc; reflexivity|].
    split.
    + rewrite forallb_forall in *. intros a Ha. specialize (N a Ha).
      destruct a; try discriminate; reflexivity.
    + apply (reads_of_none by_parser); [reflexivity | exact N].
Qed.

Lemma in_firstn {A : Type} (x : A) (k : nat) (l : list A) :
  In x (firstn k l) -> In x l.
Proof.
  revert l. induction k as [|k IH]; intros [|a l]; simpl; try tauto.
  intros [H|H]; auto.
Qed.

Lemma wait_result (e : env) (st : daemon) :
  match sel e with
  | Sys.SelectFailed => fst (wait e st) = -1
  | Sys.Readable _ => 0 <= fst (wait e st)
  end.
Proof.
  unfold wait. destruct (watch st) as [maxfd rfds]. unfold Sys.select.
  destruct (sel e); simpl; lia.
Qed.

(** The ways through one turn of the loop. *)
Lemma loop_body_cases (e : env) (st st' : daemon) :
  loop_body e st = Some st' ->
  (sel e = Sys.SelectFailed /\ st' = emit (Stderr MsgSelect) st) \/
  (sel e <> Sys.SelectFailed /\
   (st' = st \/
    st' = process_devices e (snd (wait e st)) st \/
    (cmdfd st <> -1 /\
     Sys.FD_ISSET (cmdfd st) (snd (wait e st)) = true /\
     read_command_pipe e (process_devices e (snd (wait e st)) st) = Some st'))).
Proof.
  unfold loop_body. pose proof (wait_result e st) as W.
  destruct (wait e st) as [retval rfds]. cbn [fst snd] in *.
  destruct (sel e) as [|rd] eqn:Se.
  - subst retval. simpl. intros H. apply some_eq in H. left. auto.
  - replace (retval =? -1) with false by (symmetry; apply Z.eqb_neq; lia).
    right. split; [discriminate|].
    destruct (negb (retval =? 0)); [|apply some_eq in H; auto].
    destruct (kept_process_devices e rfds st) as (_ & F & _).
    rewrite F in H.
    destruct (negb (cmdfd st =? -1)) eqn:N; simpl in H.
    + destruct (Sys.FD_ISSET (cmdfd st) rfds) eqn:I.
      * right. right. apply negb_true_iff, Z.eqb_neq in N.
        apply turn_drain in H as [H _]. auto.
      * apply some_eq in H. auto.
    + apply some_eq in H. auto.
Qed.

Lemma forallb_impl {A : Type} (P Q : A -> bool) (l : list A) :
  (forall a, P a = true -> Q a = true) ->
  forallb P l = true -> forallb Q l = true.
Proof. intros H. rewrite !forallb_forall. auto. Qed.

Lemma ready_is_reported (e : env) (st : daemon) (d : device) :
  sel e <> Sys.SelectFailed -> In d (devs st) ->
  ready (snd (wait e st)) d = Sys.FD_ISSET (fd d) (reported e).
Proof.
  intros Se Hd. unfold ready, reported.
  destruct (sel e) as [|rd] eqn:E; [congruence|].
  pose proof (set_after_wait e st (fd d) rd E) as I.
  assert (Wd : In (fd d) (watched st)).
  { unfold watched. apply in_or_app. right. apply in_map. exact Hd. }
  destruct (Sys.FD_ISSET (fd d) (snd (wait e st))) eqn:A;
    destruct (Sys.FD_ISSET (fd d) rd) eqn:B; try reflexivity.
  - destruct (proj1 I eq_refl) as [_ R]. apply FD_ISSET_In in R. congruence.
  - apply FD_ISSET_In in B. discriminate (proj2 I (conj Wd B)).
Qed.

(** X3. A turn of the loop reads only what select has reported.  The device
    descriptors read in one turn are an initial stretch of the registered
    devices that select reported readable, in registry order, so each is
    read at most once and none that was not reported; the command
    descriptor is read at most once, and only if it is open and was
    reported. *)
Theorem reads_only_what_select_reported (e : env) (st st' : daemon) :
  loop_body e st = Some st' ->
  (exists k,
      reads_of (since st st') =
        firstn k (map fd (filter (fun d => Sys.FD_ISSET (fd d) (reported e))
                            (devs st)))) /\
  (forall f, In f (reads_of (since st st')) ->
             In f (reported e) /\ In f (map fd (devs st))) /\
  (forall f c dn, In (ReadCmd f c dn) (since st st') ->
                  f = cmdfd st /\ f <> -1 /\ In f (reported e)) /\
  (length (filter is_read_cmd (since st st')) <= 1)%nat.
Proof.
  intros B.
  assert (G : exists t1 t2,
             since st st' = t1 ++ t2 /\
             (exists k, reads_of t1 =
                firstn k (map fd (filter (fun d => Sys.FD_ISSET (fd d) (reported e))
                                    (devs st)))) /\
             forallb (fun a => negb (is_read_cmd a)) t1 = true /\
             reads_of t2 = [] /\
             (t2 = [] \/
              exists c dn t3,
                t2 = ReadCmd (cmdfd st) c dn :: t3 /\
                cmdfd st <> -1 /\ In (cmdfd st) (reported e) /\
                forallb (fun a => negb (is_read_cmd a)) t3 = true)).
  { destruct (loop_body_cases e st st' B) as [[Se ->]|[Se Hc]].
    - exists [Stderr MsgSelect], []. rewrite app_nil_r.
      split; [apply since_app; reflexivity|].
      split; [exists O; reflexivity|]. auto.
    - set (rfds := snd (wait e st)) in *.
      destruct (pass_reads_prefix e rfds (devs st) st) as (t1 & k & T1 & R1).
      fold (process_devices e rfds st) in T1.
      assert (R1' : reads_of t1 =
                firstn k (map fd (filter (fun d => Sys.FD_ISSET (fd d) (reported e))
                                    (devs st)))).
      { rewrite R1. f_equal. f_equal. apply filter_ext_in.
        intros d Hd. apply ready_is_reported; assumption. }
      assert (N1 : forallb (fun a => negb (is_read_cmd a)) t1 = true).
      { destruct (emitted_process_devices_from e rfds (devs st) st st
                    (emitted_refl by_pass st)) as (u & U & Nu).
        fold (process_devices e rfds st) in U. rewrite T1 in U.
        apply app_inv_head in U. subst u.
        revert Nu. apply forallb_impl. intros a. destruct a; simpl; congruence. }
      destruct Hc as [->|[->|(F & I & D)]].
      + exists [], []. split; [apply since_refl|].
        split; [exists O; reflexivity|]. auto.
      + exists t1, []. rewrite app_nil_r.
        split; [apply since_app; exact T1|].
        split; [exists k; exact R1'|]. auto.
      + destruct (drain_trace e _ _ D) as (c & dn & t3 & T3 & N3 & R3).
        destruct (kept_process_devices e rfds st) as (_ & Fd & _).
        rewrite Fd in T3.
        exists t1, (ReadCmd (cmdfd st) c dn :: t3).
        split; [apply since_app; rewrite T3, T1, <- app_assoc; reflexivity|].
        split; [exists k; exact R1'|]. split; [exact N1|].
        split; [exact R3|]. right. exists c, dn, t3.
        split; [reflexivity|]. split; [exact F|]. split; [|exact N3].
        unfold reported. destruct (sel e) as [|rd] eqn:E; [congruence|].
        apply (set_after_wait e st (cmdfd st) rd E). exact I. }
  destruct G as (t1 & t2 & S & (k & R1) & N1 & R2 & C).
  rewrite S. split; [|split; [|split]].
  - exists k. rewrite reads_of_app, R2, app_nil_r. exact R1.
  - intros f Hf. rewrite reads_of_app, R2, app_nil_r, R1 in Hf.
    apply in_firstn, in_map_iff in Hf. destruct Hf as (d & <- & Hd).
    apply filter_In in Hd. destruct Hd as [Hd Hr].
    split; [apply FD_ISSET_In; exact Hr | apply in_map; exact Hd].
  - intros f c dn Hin. apply in_app_or in Hin. destruct Hin as [Hin|Hin].
    + rewrite forallb_forall in N1. specialize (N1 _ Hin). discriminate.
    + destruct C as [->|(c' & dn' & t3 & -> & F & I & N3)]; [destruct Hin|].
      destruct Hin as [Hin|Hin].
      * injection Hin as <- _ _. auto.
      * rewrite forallb_forall in N3. specialize (N3 _ Hin). discriminate.
  - rewrite filter_app, (filter_none is_read_cmd t1 N1). simpl.
    destruct C as [->|(c' & dn' & t3 & -> & _ & _ & N3)]; [simpl; lia|].
    simpl. rewrite (filter_none is_read_cmd t3 N3). simpl. lia.
Qed.

Lemma reads_only_what_select_reported_witness :
  exists st',
    loop_body second_fails (with_devs three_devices (initial [])) = Some st' /\
    reads_of (since (with_devs three_devices (initial [])) st') = [3; 4] /\
    (forall f,
        In f (reads_of (since (with_devs three_devices (initial [])) st')) ->
        In f (reported second_fails) /\ In f (map fd three_devices)) /\
    (length (filter is_read_cmd
               (since (with_devs three_devices (initial [])) st')) <= 1)%nat.
Proof.
  eexists. split; [vm_compute; reflexivity|]. split; [reflexivity|].
  destruct (reads_only_what_select_reported second_fails
              (with_devs three_devices (initial [])) _ eq_refl)
    as (_ & R & _ & N).
  split; [exact R | exact N].
Defined.

(** ** The order of a pass *)

Lemma forwards_of_record (e : env) (dump : bool) (d : device) :
  filter is_forward (record_actions e dump d) =
  forward_calls (snd (dev_in e (fd d))).
Proof.
  unfold record_actions, forwarding, forward_calls.
  destruct (monitored _); [destruct dump|]; reflexivity.
Qed.

Lemma forwards_of_pass (e : env) (fds : Sys.fd_set) (dump : bool)
  (p : list device) :
  filter is_forward (pass_actions e fds dump p) =
  flat_map (fun d => forward_calls (snd (dev_in e (fd d))))
    (filter (ready fds) p).
Proof.
  unfold pass_actions.
  induction (filter (ready fds) p) as [|d l IH]; [reflexivity|].
  cbn [flat_map]. rewrite filter_app, IH, forwards_of_record. reflexivity.
Qed.

(** X4. A pass in which no read comes up short.  The registry is left as
    it was; every ready device is read exactly once and no other, in
    registry order; and the records of the two monitored classes reach the
    keystate tracker and the trigger engine device by device in that same
    order, the tracker before the engine for each record. *)
Theorem pass_forwards_in_registry_order (e : env) (fds : Sys.fd_set)
  (st : daemon) :
  (forall x, In x (devs st) -> ready fds x = true ->
             fst (dev_in e (fd x)) = sizeof_input_event) ->
  devs (process_devices e fds st) = devs st /\
  reads_of (since st (process_devices e fds st)) =
    map fd (filter (ready fds) (devs st)) /\
  filter is_forward (since st (process_devices e fds st)) =
    flat_map (fun d => forward_calls (snd (dev_in e (fd d))))
      (filter (ready fds) (devs st)).
Proof.
  intros G. unfold process_devices.
  rewrite (pass_without_fault e fds (devs st) st G).
  destruct (emits_state (pass_actions e fds (dump_events st) (devs st)) st)
    as (D & _ & _ & _ & _ & _ & T).
  rewrite (since_app _ _ _ T).
  split; [exact D|]. split; [apply reads_of_pass | apply forwards_of_pass].
Qed.

Lemma pass_forwards_in_registry_order_witness :
  reads_of (since (with_devs three_devices (initial []))
              (process_devices two_of_three [3; 5]
                 (with_devs three_devices (initial [])))) = [3; 5] /\
  filter is_forward
    (since (with_devs three_devices (initial []))
       (process_devices two_of_three [3; 5]
          (with_devs three_devices (initial [])))) =
    [ChangeKeystate key_press; RunTriggers EV_KEY 28 1;
     ChangeKeystate switch_flip; RunTriggers EV_SW 0 1].
Proof.
  destruct (pass_forwards_in_registry_order two_of_three [3; 5]
              (with_devs three_devices (initial [])))
    as (_ & R & F).
  - intros x _ _. reflexivity.
  - split; [exact R | exact F].
Defined.

(** ** A failing select *)

Lemma loop_body_select_failed (e : env) (st : daemon) :
  sel e = Sys.SelectFailed ->
  loop_body e st = Some (emit (Stderr MsgSelect) st).
Proof.
  intros H. unfold loop_body. pose proof (wait_result e st) as W.
  rewrite H in W. destruct (wait e st) as [retval rfds]. simpl in W.
  subst retval. reflexivity.
Qed.

(** X5. A select that fails is reported and tried again.  However often
    select fails in a row, the loop neither ends nor reads or changes
    anything: the state after the failures is the state before them with
    one [select()] message per failure added to the trace. *)
Theorem select_failure_is_retried (es : list env) (st : daemon) :
  loop_condition st = true ->
  Forall (fun e => sel e = Sys.SelectFailed) es ->
  process_events es st =
    Running (emits (repeat (Stderr MsgSelect) (length es)) st).
Proof.
  intros L F. revert st L. induction F as [|e es H F IH]; intros st L; simpl.
  - rewrite L. reflexivity.
  - rewrite L, (loop_body_select_failed e st H). apply IH. exact L.
Qed.

Lemma select_failure_is_retried_witness :
  process_events [select_fails; select_fails] (serving "" []) =
    Running (emit (Stderr MsgSelect) (emit (Stderr MsgSelect) (serving "" []))).
Proof.
  apply (select_failure_is_retried [select_fails; select_fails] (serving "" [])).
  - reflexivity.
  - repeat constructor.
Defined.

(** ** A failing read of the command pipe *)

(** The drain when the read returns something other than 0: the string in
    [buf] is appended; if no [strcpy] of the loop copies between ranges
    that overlap, the complete lines go to the parser and the rest stays
    buffered, and otherwise the drain has no defined outcome. *)
Lemma drain_equation (e : env) (st : daemon) (s : cstr) :
  fst (read_result e st) <> 0 ->
  c_string (snd (read_result e st)) = Some s ->
  Z.of_nat (length (cmdbuffer st)) <= MAXCMD - 1 ->
  read_command_pipe e st =
  if scan_defined (cmdbuffer st ++ s)
  then Some (with_cmdbuffer (snd (cut_lines (cmdbuffer st ++ s)))
               (parse_all (fst (cut_lines (cmdbuffer st ++ s)))
                  (emit (ReadCmd (cmdfd st)
                           (MAXCMD - Z.of_nat (length (cmdbuffer st)) - 1)
                           (fst (read_result e st))) st)))
  else None.
Proof.
  intros N C L. rewrite read_command_pipe_unfold. cbv zeta.
  apply Z.eqb_neq in N. rewrite N, C.
  destruct (c_string_some _ _ C) as (_ & _ & Ls).
  destruct (read_result_bound e st L) as (_ & Lb). cbv zeta in Lb.
  rewrite split_commands_lines; cbn [cmdbuffer with_cmdbuffer emit].
  - rewrite parse_all_buffer, with_cmdbuffer_twice. reflexivity.
  - lia.
  - rewrite length_app. lia.
Qed.

Lemma drain_some (e : env) (st st' : daemon) (s : cstr) :
  fst (read_result e st) <> 0 ->
  c_string (snd (read_result e st)) = Some s ->
  Z.of_nat (length (cmdbuffer st)) <= MAXCMD - 1 ->
  read_command_pipe e st = Some st' ->
  scan_defined (cmdbuffer st ++ s) = true /\
  st' = with_cmdbuffer (snd (cut_lines (cmdbuffer st ++ s)))
          (parse_all (fst (cut_lines (cmdbuffer st ++ s)))
             (emit (ReadCmd (cmdfd st)
                      (MAXCMD - Z.of_nat (length (cmdbuffer st)) - 1)
                      (fst (read_result e st))) st)).
Proof.
  intros N C L. rewrite (drain_equation e st s N C L).
  destruct (scan_defined _); [|discriminate].
  intros H. apply some_eq in H. auto.
Qed.

Lemma kept_parse_all (ls : list cstr) (st s : daemon) :
  kept st s -> kept st (parse_all ls s).
Proof.
  revert s. induction ls as [|l ls IH]; intros s K; simpl; [exact K|].
  apply IH, kept_process_commandline, K.
Qed.

Lemma emitted_parse_all (ls : list cstr) (st s : daemon) :
  emitted_only by_parser st s -> emitted_only by_parser st (parse_all ls s).
Proof.
  revert s. induction ls as [|l ls IH]; intros s K; simpl; [exact K|].
  apply IH, emitted_process_commandline, K.
Qed.

(** X6. A read of the command pipe that fails is not noticed.  When read
    returns -1 the drain does not take it for an error: it neither closes
    nor reopens the descriptor and writes no message, but appends whatever
    string lies in the uninitialised [buf] and goes through its lines.
    The outcome is defined only if [buf] holds a NUL and no [strcpy] of
    the loop copies between ranges that overlap; the complete lines then
    go to the parser.  With a NUL at the start of [buf] and no newline
    buffered the drain changes nothing. *)
Theorem failed_read_goes_unnoticed (e : env) (st : daemon) :
  cmd_in e = Sys.Failed ->
  Z.of_nat (length (cmdbuffer st)) < MAXCMD - 1 ->
  let rem := MAXCMD - Z.of_nat (length (cmdbuffer st)) in
  let buf := map (stack e) (seq 0 (Z.to_nat rem)) in
  read_result e st = (-1, buf) /\
  (forall s, c_string buf = Some s ->
     read_command_pipe e st =
     if scan_defined (cmdbuffer st ++ s)
     then Some (with_cmdbuffer (snd (cut_lines (cmdbuffer st ++ s)))
                  (parse_all (fst (cut_lines (cmdbuffer st ++ s)))
                     (emit (ReadCmd (cmdfd st) (rem - 1) (-1)) st)))
     else None) /\
  (c_string buf = None -> read_command_pipe e st = None) /\
  (forall st', read_command_pipe e st = Some st' ->
     cmdfd st' = cmdfd st /\ command_pipe st' = command_pipe st /\
     exists t, since st st' = ReadCmd (cmdfd st) (rem - 1) (-1) :: t /\
               forallb by_parser t = true) /\
  (stack e O = NUL -> ~ In NL (cmdbuffer st) ->
   read_command_pipe e st = Some (emit (ReadCmd (cmdfd st) (rem - 1) (-1)) st)).
Proof.
  intros I L rem buf.
  assert (R : read_result e st = (-1, buf)).
  { unfold read_result, Sys.read. fold rem. rewrite I.
    replace (rem - 1 <=? 0) with false by (symmetry; apply Z.leb_gt; lia).
    reflexivity. }
  assert (Q : forall s, c_string buf = Some s ->
     read_command_pipe e st =
     if scan_defined (cmdbuffer st ++ s)
     then Some (with_cmdbuffer (snd (cut_lines (cmdbuffer st ++ s)))
                  (parse_all (fst (cut_lines (cmdbuffer st ++ s)))
                     (emit (ReadCmd (cmdfd st) (rem - 1) (-1)) st)))
     else None).
  { intros s C. rewrite (drain_equation e st s).
    - rewrite R. reflexivity.
    - rewrite R. discriminate.
    - rewrite R. exact C.
    - lia. }
  split; [exact R|]. split; [exact Q|]. split; [|split].
  - intros C. rewrite read_command_pipe_unfold. cbv zeta. rewrite R.
    cbn [fst snd]. rewrite C. reflexivity.
  - intros st' D.
    destruct (c_string buf) as [s|] eqn:C.
    + rewrite (Q s eq_refl) in D.
      destruct (scan_defined (cmdbuffer st ++ s)); [|discriminate].
      apply some_eq in D. subst st'.
      set (st0 := emit (ReadCmd (cmdfd st) (rem - 1) (-1)) st).
      set (ls := fst (cut_lines (cmdbuffer st ++ s))).
      pose proof (kept_parse_all ls st0 st0 (kept_refl st0)) as K.
      pose proof (emitted_parse_all ls st0 st0 (emitted_refl by_parser st0)) as E.
      destruct K as (P & F & _). destruct E as (t & T & N).
      split; [exact F|]. split; [exact P|].
      exists t. split; [|exact N]. apply since_app. cbn [trace with_cmdbuffer].
      rewrite T. unfold st0. simpl. rewrite <- app_assoc. reflexivity.
    + rewrite read_command_pipe_unfold in D. cbv zeta in D. rewrite R in D.
      cbn [fst snd] in D. rewrite C in D. discriminate.
  - intros Z0 NN.
    assert (C : c_string buf = Some []).
    { unfold buf. replace (Z.to_nat rem) with (S (Z.to_nat rem - 1)) by lia.
      simpl. rewrite Z0. reflexivity. }
    rewrite (Q [] C), app_nil_r. unfold scan_defined.
    rewrite (cut_lines_no_newline _ NN). reflexivity.
Qed.

Lemma failed_read_goes_unnoticed_witness :
  read_command_pipe read_fails (listening "ADD /dev/inp" [4]) =
    Some (emit (ReadCmd 3 1011 (-1)) (listening "ADD /dev/inp" [4])).
Proof.
  destruct (failed_read_goes_unnoticed read_fails (listening "ADD /dev/inp" [4]))
    as (_ & _ & _ & _ & Q); [reflexivity | reflexivity |].
  apply Q; [reflexivity|]. vm_compute.
  intros H. repeat (destruct H as [H|H]; [discriminate|]). exact H.
Defined.

(** ** The buffer between drains *)

Lemma drain_tidy (e : env) (st st' : daemon) :
  Z.of_nat (length (cmdbuffer st)) <= MAXCMD - 1 ->
  read_command_pipe e st = Some st' -> buffer_tidy st'.
Proof.
  intros L D. split; [eapply drain_keeps_buffer_below_capacity; eauto|].
  destruct (Z.eq_dec (fst (read_result e st)) 0) as [Z0|N0].
  - rewrite (read_command_pipe_eof e st Z0) in D. apply some_eq in D. subst st'.
    destruct (reconnect_state
                (MAXCMD - Z.of_nat (length (cmdbuffer st)) - 1) st) as (B & _).
    rewrite B. intros [].
  - destruct (c_string (snd (read_result e st))) as [s|] eqn:C.
    + destruct (drain_some e st st' s N0 C L D) as (_ & ->).
      cbn [cmdbuffer with_cmdbuffer]. apply cut_lines_rest.
    + rewrite read_command_pipe_unfold in D. cbv zeta in D.
      apply Z.eqb_neq in N0. rewrite N0, C in D. discriminate.
Qed.

Lemma tidy_same_buffer (s s' : daemon) :
  cmdbuffer s' = cmdbuffer s -> buffer_tidy s -> buffer_tidy s'.
Proof. unfold buffer_tidy. intros ->. auto. Qed.

Lemma loop_body_tidy (e : env) (st st' : daemon) :
  buffer_tidy st -> loop_body e st = Some st' -> buffer_tidy st'.
Proof.
  intros T B.
  destruct (loop_body_cases e st st' B) as [[_ ->]|[_ [->|[->|(_ & _ & D)]]]].
  - exact T.
  - exact T.
  - eapply tidy_same_buffer; [|exact T].
    apply process_devices_from_preserves_buffer.
  - eapply drain_tidy; [|exact D].
    unfold process_devices. rewrite process_devices_from_preserves_buffer.
    apply T.
Qed.

Lemma process_events_tidy (es : list env) (st st' : daemon) :
  buffer_tidy st ->
  process_events es st = Halted st' \/ process_events es st = Running st' ->
  buffer_tidy st'.
Proof.
  revert st. induction es as [|e es IH]; intros st T; simpl.
  - destruct (loop_condition st); intros [H|H]; try discriminate;
      injection H as <-; exact T.
  - destruct (loop_condition st).
    + destruct (loop_body e st) as [s|] eqn:B.
      * apply IH. eapply loop_body_tidy; eauto.
      * intros [H|H]; discriminate.
    + intros [H|H]; try discriminate. injection H as <-. exact T.
Qed.

Lemma add_device_keeps_buffer (dev : cstr) (st : daemon) :
  cmdbuffer (add_device dev st) = cmdbuffer st.
Proof.
  rewrite <- (with_cmdbuffer_same st) at 1.
  rewrite add_device_buffer. reflexivity.
Qed.

Lemma add_devices_keep_buffer (ps : list cstr) (st : daemon) :
  cmdbuffer (fold_left (fun st dev => add_device dev st) ps st) = cmdbuffer st.
Proof.
  revert st. induction ps as [|p ps IH]; intros st; simpl; [reflexivity|].
  rewrite IH. apply add_device_keeps_buffer.
Qed.

Lemma setup_readers_tidy (ps : list cstr) (pipe : option cstr) (dump : bool)
  (answers : list Z) (st : daemon) :
  setup_readers ps (configured pipe dump answers) = inr st -> buffer_tidy st.
Proof.
  unfold setup_readers. destruct pipe as [p|]; cbn [command_pipe configured].
  - destruct (open_cmd_result (configured (Some p) dump answers))
      as (_ & B & _).
    destruct (cmdfd _ <? 0); [discriminate|].
    intros H. injection H as <-. unfold buffer_tidy.
    rewrite add_devices_keep_buffer, B. simpl. unfold MAXCMD. split; [lia|tauto].
  - destruct (_ <? 1); [discriminate|].
    intros H. injection H as <-. unfold buffer_tidy.
    rewrite add_devices_keep_buffer. simpl. unfold MAXCMD. split; [lia|tauto].
Qed.

(** X7. The state of the command buffer at every test of the loop.  From
    the start of the loop on, whatever the devices and the command pipe
    deliver, the buffer holds fewer than MAXCMD bytes and no newline
    whenever the loop comes back to its test: a drain that has a defined
    outcome consumes every complete line. *)
Theorem buffer_tidy_between_drains (ps : list cstr) (pipe : option cstr)
  (dump : bool) (answers : list Z) (es : list env) (st0 st : daemon) :
  setup_readers ps (configured pipe dump answers) = inr st0 ->
  process_events es st0 = Halted st \/ process_events es st0 = Running st ->
  Z.of_nat (length (cmdbuffer st)) < MAXCMD /\ ~ In NL (cmdbuffer st).
Proof.
  intros S R.
  destruct (process_events_tidy es st0 st (setup_readers_tidy _ _ _ _ _ S) R)
    as [L N].
  split; [lia | exact N].
Qed.

Lemma buffer_tidy_between_drains_witness :
  exists st0 st,
    setup_readers [] (configured (Some (lit "/run/thd.cmd")) false [3; 4])
      = inr st0 /\
    process_events
      [writes_over (lit "ADD /dev/input/event0" ++ NL :: lit "REMO") []] st0
      = Running st /\
    cmdbuffer st = lit "REMO" /\
    Z.of_nat (length (cmdbuffer st)) < MAXCMD /\ ~ In NL (cmdbuffer st).
Proof.
  eexists. eexists. split; [vm_compute; reflexivity|].
  split; [vm_compute; reflexivity|]. split; [reflexivity|].
  eapply (buffer_tidy_between_drains [] (Some (lit "/run/thd.cmd")) false [3; 4]
            [writes_over (lit "ADD /dev/input/event0" ++ NL :: lit "REMO") []]).
  - vm_compute. reflexivity.
  - right. vm_compute. reflexivity.
Defined.

(** ** How the text is cut into reads *)

Lemma cut_lines_app (a b : cstr) :
  cut_lines (a ++ b) =
  (fst (cut_lines a) ++ fst (cut_lines (snd (cut_lines a) ++ b)),
   snd (cut_lines (snd (cut_lines a) ++ b))).
Proof.
  induction a as [|c a IH]; simpl.
  - destruct (cut_lines b). reflexivity.
  - rewrite IH. destruct (cut_lines a) as [l1 r1]. cbn [fst snd].
    destruct (Ascii.eqb c NL) eqn:E; [reflexivity|].
    destruct l1 as [|l l1]; [|reflexivity].
    simpl. rewrite E. destruct (cut_lines (r1 ++ b)) as [l2 r2].
    destruct l2; reflexivity.
Qed.

Lemma agree_refl (st : daemon) : agree st st.
Proof. repeat split. Qed.

Lemma agree_emit (a : action) (s s' : daemon) :
  agree s s' -> agree (emit a s) (emit a s').
Proof.
  intros (D & P & F & U & O & T). repeat split; auto.
  simpl. rewrite !filter_app, T. reflexivity.
Qed.

Lemma agree_read_l (f c dn : Z) (s s' : daemon) :
  agree s s' -> agree (emit (ReadCmd f c dn) s) s'.
Proof.
  intros (D & P & F & U & O & T). repeat split; auto.
  simpl. rewrite filter_app, T. simpl. apply app_nil_r.
Qed.

Lemma agree_read_r (f c dn : Z) (s s' : daemon) :
  agree s s' -> agree s (emit (ReadCmd f c dn) s').
Proof.
  intros (D & P & F & U & O & T). repeat split; auto.
  simpl. rewrite filter_app, T. simpl. symmetry. apply app_nil_r.
Qed.

Lemma agree_buffer (b b' : cstr) (s s' : daemon) :
  agree s s' -> agree (with_cmdbuffer b s) (with_cmdbuffer b' s').
Proof. intros (D & P & F & U & O & T). repeat split; auto. Qed.

Lemma agree_buffer_l (b : cstr) (s s' : daemon) :
  agree s s' -> agree (with_cmdbuffer b s) s'.
Proof. intros (D & P & F & U & O & T). repeat split; auto. Qed.

Lemma agree_devs (l : list device) (s s' : daemon) :
  agree s s' -> agree (with_devs l s) (with_devs l s').
Proof. intros (D & P & F & U & O & T). repeat split; auto. Qed.

Lemma agree_opens (o : list Z) (s s' : daemon) :
  agree s s' -> agree (with_opens o s) (with_opens o s').
Proof. intros (D & P & F & U & O & T). repeat split; auto. Qed.

Lemma agree_remove_device (dev : cstr) (s s' : daemon) :
  agree s s' -> agree (remove_device dev s) (remove_device dev s').
Proof.
  intros A. pose proof A as (D & _). unfold remove_device, Sys.close.
  cbn [devs emit]. rewrite <- D.
  destruct (unlink dev (devs s)) as [[d l]|].
  - apply agree_emit, agree_devs, agree_emit, A.
  - apply agree_emit, A.
Qed.

Lemma agree_add_device (dev : cstr) (s s' : daemon) :
  agree s s' -> agree (add_device dev s) (add_device dev s').
Proof.
  intros A. pose proof A as (D & _ & _ & _ & O & _).
  unfold add_device, Sys.open. cbn [opens emit]. rewrite <- O.
  destruct (opens s) as [|r rest].
  - cbn. apply agree_emit, agree_emit, agree_emit, A.
  - destruct (r <? 0) eqn:R; cbn; rewrite ?R.
    + apply agree_emit, agree_emit, agree_opens, agree_emit, A.
    + rewrite <- D.
      apply (agree_devs _ (emit (OpenDev dev r) (with_opens rest (emit (CallAdd dev) s)))
                          (emit (OpenDev dev r) (with_opens rest (emit (CallAdd dev) s')))).
      apply agree_emit, agree_opens, agree_emit, A.
Qed.

Lemma agree_process_commandline (line : cstr) (s s' : daemon) :
  agree s s' -> agree (process_commandline line s) (process_commandline line s').
Proof.
  intros A. rewrite !process_commandline_tokens.
  destruct (first_token line) as [op|]; [|exact A].
  destruct (argument line) as [d|]; [|exact A].
  destruct (streq (lit "ADD") op).
  - apply agree_add_device, agree_remove_device, agree_emit, A.
  - destruct (streq (lit "REMOVE") op); [|exact A].
    apply agree_remove_device, agree_emit, A.
Qed.

Lemma agree_parse_all (ls : list cstr) (s s' : daemon) :
  agree s s' -> agree (parse_all ls s) (parse_all ls s').
Proof.
  revert s s'. induction ls as [|l ls IH]; intros s s' A; simpl; [exact A|].
  apply IH, agree_process_commandline, A.
Qed.

Lemma parse_all_app (a b : list cstr) (st : daemon) :
  parse_all (a ++ b) st = parse_all b (parse_all a st).
Proof. apply fold_left_app. Qed.

(** The drain for text without a NUL that fits the buffer, when the byte
    of [buf] behind it is NUL. *)
Lemma drain_terminated (e : env) (st : daemon) (d : list ascii) :
  cmd_in e = Sys.Bytes d -> d <> [] -> ~ In NUL d ->
  Z.of_nat (length (cmdbuffer st)) + Z.of_nat (length d) <= MAXCMD - 1 ->
  stack e (length d) = NUL ->
  read_command_pipe e st =
  if scan_defined (cmdbuffer st ++ d)
  then Some (with_cmdbuffer (snd (cut_lines (cmdbuffer st ++ d)))
               (parse_all (fst (cut_lines (cmdbuffer st ++ d)))
                  (emit (ReadCmd (cmdfd st)
                           (MAXCMD - Z.of_nat (length (cmdbuffer st)) - 1)
                           (Z.of_nat (length d))) st)))
  else None.
Proof.
  intros I D N L T.
  assert (Ld : (0 < length d)%nat) by (destruct d; simpl; [congruence|lia]).
  set (rem := MAXCMD - Z.of_nat (length (cmdbuffer st))).
  assert (R : read_result e st =
              (Z.of_nat (length d),
               d ++ NUL :: map (stack e) (seq (S (length d))
                                            (Z.to_nat rem - S (length d))))).
  { unfold read_result, Sys.read. fold rem. rewrite I.
    replace (rem - 1 <=? 0) with false by (symmetry; apply Z.leb_gt; lia).
    rewrite firstn_all2 by lia. f_equal. f_equal.
    rewrite skipn_map, skipn_seq.
    replace (Z.to_nat rem - length d)%nat
      with (S (Z.to_nat rem - S (length d))) by lia.
    simpl. rewrite T. reflexivity. }
  rewrite (drain_equation e st d).
  - rewrite R. reflexivity.
  - rewrite R. simpl. lia.
  - rewrite R. cbn [snd]. rewrite c_string_until_nul, (until_nul_all d N).
    reflexivity.
  - lia.
Qed.

Lemma drain_terminated_some (e : env) (st st' : daemon) (d : list ascii) :
  cmd_in e = Sys.Bytes d -> d <> [] -> ~ In NUL d ->
  Z.of_nat (length (cmdbuffer st)) + Z.of_nat (length d) <= MAXCMD - 1 ->
  stack e (length d) = NUL ->
  read_command_pipe e st = Some st' ->
  st' = with_cmdbuffer (snd (cut_lines (cmdbuffer st ++ d)))
          (parse_all (fst (cut_lines (cmdbuffer st ++ d)))
             (emit (ReadCmd (cmdfd st)
                      (MAXCMD - Z.of_nat (length (cmdbuffer st)) - 1)
                      (Z.of_nat (length d))) st)).
Proof.
  intros I D N L T. rewrite (drain_terminated e st d I D N L T).
  destruct (scan_defined _); [|discriminate].
  intros H. apply some_eq in H. auto.
Qed.

(** X8. How a text is cut into reads does not matter to the outcome.  If a
    text arrives in two reads, or in one, each time the byte of [buf]
    behind the bytes read is NUL, and the drains have a defined outcome
    both ways, the daemon ends in the same state: the same registry, the
    same buffered rest, the same answers of open still to come and the
    same trace apart from the reads themselves.  In particular the same
    commands have been parsed, in the same order. *)
Theorem split_writes_reassemble (e1 e2 e12 : env) (st st1 st2 st12 : daemon)
  (d1 d2 : list ascii) :
  cmd_in e1 = Sys.Bytes d1 -> cmd_in e2 = Sys.Bytes d2 ->
  cmd_in e12 = Sys.Bytes (d1 ++ d2) ->
  d1 <> [] -> d2 <> [] -> ~ In NUL d1 -> ~ In NUL d2 ->
  Z.of_nat (length (cmdbuffer st)) + Z.of_nat (length d1)
    + Z.of_nat (length d2) <= MAXCMD - 1 ->
  stack e1 (length d1) = NUL -> stack e2 (length d2) = NUL ->
  stack e12 (length (d1 ++ d2)) = NUL ->
  read_command_pipe e1 st = Some st1 ->
  read_command_pipe e2 st1 = Some st2 ->
  read_command_pipe e12 st = Some st12 ->
  agree st2 st12 /\ cmdbuffer st2 = cmdbuffer st12.
Proof.
  intros I1 I2 I12 D1 D2 N1 N2 L T1 T2 T12 R1 R2 R12.
  pose proof (cut_lines_rest (cmdbuffer st ++ d1)) as [_ Lr].
  rewrite length_app in Lr.
  apply (drain_terminated_some e1 st st1 d1) in R1; auto; [|lia].
  subst st1.
  apply (drain_terminated_some e2 _ st2 d2) in R2; auto;
    [|cbn [cmdbuffer with_cmdbuffer]; lia].
  subst st2.
  apply (drain_terminated_some e12 st st12 (d1 ++ d2)) in R12; auto.
  2:{ destruct d1; [congruence | discriminate]. }
  2:{ intros H. apply in_app_or in H. tauto. }
  2:{ rewrite length_app. lia. }
  subst st12.
  cbn [cmdbuffer with_cmdbuffer cmdfd].
  rewrite (app_assoc (cmdbuffer st) d1 d2), (cut_lines_app (cmdbuffer st ++ d1) d2).
  cbn [fst snd]. split; [|reflexivity].
  apply agree_buffer. rewrite parse_all_app.
  apply agree_parse_all, agree_read_l, agree_buffer_l.
  apply agree_parse_all, agree_read_l, agree_read_r, agree_refl.
Qed.

Lemma split_writes_reassemble_witness :
  exists st1 st2 st12,
    read_command_pipe (writes (lit "ADD /dev/inp")) (listening "" [4]) = Some st1 /\
    read_command_pipe (writes (lit "ut/event0" ++ [NL])) st1 = Some st2 /\
    read_command_pipe (writes (lit "ADD /dev/input/event0" ++ [NL]))
      (listening "" [4]) = Some st12 /\
    agree st2 st12 /\ cmdbuffer st2 = cmdbuffer st12.
Proof.
  do 3 eexists.
  split; [vm_compute; reflexivity|].
  split; [vm_compute; reflexivity|].
  split; [vm_compute; reflexivity|].
  eapply (split_writes_reassemble
           (writes (lit "ADD /dev/inp")) (writes (lit "ut/event0" ++ [NL]))
           (writes (lit "ADD /dev/input/event0" ++ [NL]))
           (listening "" [4]) _ _ _
           (lit "ADD /dev/inp") (lit "ut/event0" ++ [NL])).
  - reflexivity.
  - reflexivity.
  - reflexivity.
  - vm_compute. discriminate.
  - vm_compute. discriminate.
  - vm_compute. intros H. repeat (destruct H as [H|H]; [discriminate|]). exact H.
  - vm_compute. intros H. repeat (destruct H as [H|H]; [discriminate|]). exact H.
  - vm_compute. discriminate.
  - reflexivity.
  - reflexivity.
  - reflexivity.
  - vm_compute. reflexivity.
  - vm_compute. reflexivity.
  - vm_compute. reflexivity.
Defined.

(** The same two lines in one read and in two.  In one read the [strcpy]
    behind the first line copies the 22 bytes of the second line and a NUL
    from offset 22 to offset 0, so the last byte written is the first byte
    read, and the drain has no defined outcome; in two reads nothing
    follows either newline and both devices are added. *)
Example one_read_or_two :
  read_command_pipe
    (writes (lit "ADD /dev/input/event0" ++ NL ::
             lit "ADD /dev/input/event1" ++ [NL]))
    (listening "" [4; 5]) = None /\
  exists st1 st2,
    read_command_pipe (writes (lit "ADD /dev/input/event0" ++ [NL]))
      (listening "" [4; 5]) = Some st1 /\
    read_command_pipe (writes (lit "ADD /dev/input/event1" ++ [NL])) st1
      = Some st2 /\
    devs st2 = [registered 4 "/dev/input/event0";
                registered 5 "/dev/input/event1"].
Proof.
  split; [vm_compute; reflexivity|].
  do 2 eexists. split; [vm_compute; reflexivity|].
  split; [vm_compute; reflexivity|]. reflexivity.
Qed.

(** ** Tokens *)

Section Strtok.

Variable ds : cstr.

Lemma skip_delims_blank (ws s : cstr) :
  forallb (is_delim ds) ws = true ->
  skip_delims ds (ws ++ s) = skip_delims ds s.
Proof.
  induction ws as [|c ws IH]; simpl; [reflexivity|].
  rewrite andb_true_iff. intros [-> H]. auto.
Qed.

Lemma skip_delims_head (s : cstr) (c : ascii) (r : cstr) :
  skip_delims ds s = c :: r -> is_delim ds c = false.
Proof.
  induction s as [|x s IH]; simpl; [discriminate|].
  destruct (is_delim ds x) eqn:E; [exact IH|].
  intros [= <- _]. exact E.
Qed.

Lemma skip_delims_token (c : ascii) (s : cstr) :
  is_delim ds c = false -> skip_delims ds (c :: s) = c :: s.
Proof. intros H. simpl. rewrite H. reflexivity. Qed.

Lemma span_token_free (s : cstr) :
  forallb (fun c => negb (is_delim ds c)) (fst (span_token ds s)) = true.
Proof.
  induction s as [|c s IH]; simpl; [reflexivity|].
  destruct (is_delim ds c) eqn:E; [reflexivity|].
  destruct (span_token ds s) as [t r]. simpl in *. rewrite E. exact IH.
Qed.

Lemma span_token_until (w : cstr) (c : ascii) (s : cstr) :
  forallb (fun c => negb (is_delim ds c)) w = true ->
  is_delim ds c = true ->
  span_token ds (w ++ c :: s) = (w, s).
Proof.
  intros W C. induction w as [|x w IH]; simpl.
  - rewrite C. reflexivity.
  - simpl in W. apply andb_true_iff in W. destruct W as [X W].
    apply negb_true_iff in X. rewrite X, (IH W). reflexivity.
Qed.

Lemma span_token_end (w : cstr) :
  forallb (fun c => negb (is_delim ds c)) w = true ->
  span_token ds w = (w, []).
Proof.
  induction w as [|x w IH]; simpl; [reflexivity|].
  rewrite andb_true_iff, negb_true_iff. intros [-> W].
  rewrite (IH W). reflexivity.
Qed.

(** What [strtok] returns is not empty and holds no delimiter. *)
Lemma strtok_token (s t r : cstr) :
  strtok ds s = Some (t, r) ->
  t <> [] /\ forallb (fun c => negb (is_delim ds c)) t = true.
Proof.
  unfold strtok. destruct (skip_delims ds s) as [|c s'] eqn:K; [discriminate|].
  intros H. apply some_eq in H.
  pose proof (span_token_free (c :: s')) as F. rewrite H in F.
  split; [|exact F].
  apply skip_delims_head in K. simpl in H. rewrite K in H.
  destruct (span_token ds s'). injection H as <- _. discriminate.
Qed.

(** [strtok] on a token that ends the text, after any run of
    delimiters. *)
Lemma strtok_last (ws w : cstr) :
  forallb (is_delim ds) ws = true ->
  w <> [] -> forallb (fun c => negb (is_delim ds c)) w = true ->
  strtok ds (ws ++ w) = Some (w, []).
Proof.
  intros B N W. unfold strtok. rewrite (skip_delims_blank ws _ B).
  destruct w as [|x w]; [congruence|].
  pose proof W as W'. simpl in W'. apply andb_true_iff in W'.
  destruct W' as [X _]. apply negb_true_iff in X.
  rewrite (skip_delims_token x _ X), (span_token_end (x :: w) W). reflexivity.
Qed.

(** [strtok] on a token that a delimiter follows: the next call resumes
    behind that delimiter. *)
Lemma strtok_then (ws w r : cstr) (c : ascii) :
  forallb (is_delim ds) ws = true ->
  w <> [] -> forallb (fun c => negb (is_delim ds c)) w = true ->
  is_delim ds c = true ->
  strtok ds (ws ++ w ++ c :: r) = Some (w, r).
Proof.
  intros B N W C. unfold strtok. rewrite (skip_delims_blank ws _ B).
  destruct w as [|x w]; [congruence|].
  pose proof W as W'. simpl in W'. apply andb_true_iff in W'.
  destruct W' as [X _]. apply negb_true_iff in X.
  change ((x :: w) ++ c :: r) with (x :: (w ++ c :: r)).
  rewrite (skip_delims_token x _ X).
  change (x :: (w ++ c :: r)) with ((x :: w) ++ c :: r).
  rewrite (span_token_until (x :: w) c r W C). reflexivity.
Qed.

End Strtok.

Lemma add_device_calls (dev : cstr) (st : daemon) :
  exists t, trace (add_device dev st) = trace st ++ CallAdd dev :: t /\
            filter is_registry_call t = [].
Proof.
  unfold add_device, Sys.open. cbn.
  destruct (opens st) as [|r rest]; cbn.
  - eexists. split; [rewrite <- !app_assoc; reflexivity | reflexivity].
  - destruct (r <? 0) eqn:R; cbn; rewrite ?R; cbn.
    + eexists. split; [rewrite <- !app_assoc; reflexivity | reflexivity].
    + eexists. split; [rewrite <- !app_assoc; reflexivity | reflexivity].
Qed.

Lemma remove_device_calls (dev : cstr) (st : daemon) :
  exists t, trace (remove_device dev st) = trace st ++ CallRemove dev :: t /\
            filter is_registry_call t = [].
Proof.
  destruct (remove_device_state dev st) as (_ & _ & _ & _ & _ & S).
  destruct (unlink dev (devs st)) as [[d l]|]; destruct S as [_ ->];
    eexists; split; reflexivity.
Qed.

(** X9. The registry calls of a command line.  Whatever the line, the
    parser makes no registry call at all, or one remove_device, or one
    remove_device followed by one add_device for the same name; the name is
    the second token of the line, so it is never empty and never holds a
    space or a tab. *)
Theorem command_calls (line : cstr) (st : daemon) :
  filter is_registry_call (since st (process_commandline line st)) = [] \/
  exists d,
    argument line = Some d /\ word d /\
    (filter is_registry_call (since st (process_commandline line st))
       = [CallRemove d] \/
     filter is_registry_call (since st (process_commandline line st))
       = [CallRemove d; CallAdd d]).
Proof.
  rewrite process_commandline_tokens.
  destruct (first_token line) as [op|] eqn:Ft;
    [|left; rewrite since_refl; reflexivity].
  destruct (argument line) as [d|] eqn:Ar;
    [|left; rewrite since_refl; reflexivity].
  assert (W : word d).
  { unfold argument in Ar.
    destruct (strtok delimiters line) as [[o rest]|]; [|discriminate].
    destruct (strtok delimiters rest) as [[d' r]|] eqn:S2; [|discriminate].
    injection Ar as ->. apply (strtok_token delimiters rest d r S2). }
  destruct (streq (lit "ADD") op).
  - right. exists d. split; [reflexivity|]. split; [exact W|]. right.
    set (s0 := emit (Stderr (MsgAdding d)) st).
    destruct (remove_device_calls d s0) as (t1 & T1 & F1).
    destruct (add_device_calls d (remove_device d s0)) as (t2 & T2 & F2).
    rewrite (since_app st _ ([Stderr (MsgAdding d)] ++ (CallRemove d :: t1)
                             ++ CallAdd d :: t2)).
    + rewrite !filter_app. simpl. rewrite F1, F2. reflexivity.
    + rewrite T2, T1. unfold s0. simpl. rewrite <- !app_assoc. reflexivity.
  - destruct (streq (lit "REMOVE") op);
      [|left; rewrite since_refl; reflexivity].
    right. exists d. split; [reflexivity|]. split; [exact W|]. left.
    set (s0 := emit (Stderr (MsgRemoving d)) st).
    destruct (remove_device_calls d s0) as (t1 & T1 & F1).
    rewrite (since_app st _ ([Stderr (MsgRemoving d)] ++ CallRemove d :: t1)).
    + rewrite filter_app. simpl. rewrite F1. reflexivity.
    + rewrite T1. unfold s0. simpl. rewrite <- !app_assoc. reflexivity.
Qed.

Lemma tokens_of_spaced_line (ws1 op ws2 d tail : cstr) :
  blank ws1 -> word op -> blank ws2 -> ws2 <> [] -> word d ->
  (tail = [] \/ exists c r, tail = c :: r /\ is_delim delimiters c = true) ->
  first_token (ws1 ++ op ++ ws2 ++ d ++ tail) = Some op /\
  argument (ws1 ++ op ++ ws2 ++ d ++ tail) = Some d.
Proof.
  intros B1 [No Wo] B2 N2 [Nd Wd] Tl.
  destruct ws2 as [|c ws2]; [congruence|].
  unfold blank in B2. simpl in B2. apply andb_true_iff in B2.
  destruct B2 as [C B2].
  assert (S1 : strtok delimiters (ws1 ++ op ++ (c :: ws2) ++ d ++ tail)
               = Some (op, ws2 ++ d ++ tail)).
  { apply (strtok_then delimiters ws1 op (ws2 ++ d ++ tail) c); assumption. }
  assert (S2 : exists r, strtok delimiters (ws2 ++ d ++ tail) = Some (d, r)).
  { destruct Tl as [->|(x & r & -> & X)].
    - exists []. rewrite app_nil_r. apply strtok_last; assumption.
    - exists r. apply strtok_then; assumption. }
  destruct S2 as (r & S2).
  unfold first_token, argument. rewrite S1, S2. auto.
Qed.

(** X10. Blanks and surplus tokens in a command line.  A line made of an
    operation and a name, with any run of spaces and tabs before the
    operation, any non-empty run between the two, and anything behind the
    name that starts with a space or a tab, does exactly what the plain
    line with one space does. *)
Theorem command_spacing (ws1 op ws2 d tail : cstr) (st : daemon) :
  blank ws1 -> word op -> blank ws2 -> ws2 <> [] -> word d ->
  (tail = [] \/ exists c r, tail = c :: r /\ is_delim delimiters c = true) ->
  first_token (ws1 ++ op ++ ws2 ++ d ++ tail) = Some op /\
  argument (ws1 ++ op ++ ws2 ++ d ++ tail) = Some d /\
  process_commandline (ws1 ++ op ++ ws2 ++ d ++ tail) st =
    process_commandline (op ++ SPACE :: d) st.
Proof.
  intros B1 Wo B2 N2 Wd Tl.
  destruct (tokens_of_spaced_line ws1 op ws2 d tail B1 Wo B2 N2 Wd Tl) as [F A].
  destruct (tokens_of_spaced_line [] op [SPACE] d [] eq_refl Wo eq_refl
              ltac:(discriminate) Wd (or_introl eq_refl)) as [F' A'].
  simpl in F', A'. rewrite app_nil_r in F', A'.
  split; [exact F|]. split; [exact A|].
  rewrite !process_commandline_tokens, F, A, F', A'. reflexivity.
Qed.

Lemma command_spacing_witness :
  process_commandline (lit "  ADD " ++ TAB :: lit " /dev/input/event0 now")
    (listening "" [4]) =
  process_commandline (lit "ADD /dev/input/event0") (listening "" [4]).
Proof.
  apply (command_spacing (lit "  ") (lit "ADD") (lit " " ++ TAB :: lit " ")
           (lit "/dev/input/event0") (lit " now") (listening "" [4])).
  - reflexivity.
  - split; [discriminate | reflexivity].
  - reflexivity.
  - discriminate.
  - split; [discriminate | reflexivity].
  - right. exists SPACE, (lit "now"). split; reflexivity.
Defined.

(** ** Starting up *)

Lemma open_cmd_trace (st : daemon) :
  cmdfd (snd (open_cmd st)) = reopen_answer st /\
  (reopen_answer st = -1 \/ 0 <= reopen_answer st) /\
  trace (snd (open_cmd st)) =
    trace st ++ OpenCmd (command_pipe st) (reopen_answer st)
    :: (if reopen_answer st <? 0
        then [Stderr (MsgUnableToOpenFifo (command_pipe st));
              FreeOptarg (command_pipe st)]
        else []).
Proof.
  unfold open_cmd, reopen_answer, Sys.open.
  destruct (command_pipe st) as [p|] eqn:P; cbn.
  - destruct (opens st) as [|r rest]; cbn; rewrite ?P.
    + split; [reflexivity|]. split; [auto|].
      rewrite <- !app_assoc. reflexivity.
    + destruct (r <? 0) eqn:R; cbn; rewrite ?R; cbn; rewrite ?P.
      * split; [reflexivity|]. split; [auto|].
        rewrite <- !app_assoc. reflexivity.
      * apply Z.ltb_ge in R. split; [reflexivity|]. split; [auto|].
        reflexivity.
  - rewrite ?P. split; [reflexivity|]. split; [auto|].
    rewrite <- !app_assoc. reflexivity.
Qed.

Lemma add_devices_calls (ps : list cstr) (st : daemon) :
  filter is_registry_call
    (trace (fold_left (fun st dev => add_device dev st) ps st)) =
  filter is_registry_call (trace st) ++ map CallAdd ps.
Proof.
  revert st. induction ps as [|p ps IH]; intros st; simpl.
  - rewrite app_nil_r. reflexivity.
  - rewrite IH. destruct (add_device_calls p st) as (t & -> & F).
    rewrite filter_app. simpl. rewrite F, <- app_assoc. reflexivity.
Qed.

Lemma add_devices_cmdfd (ps : list cstr) (st : daemon) :
  cmdfd (fold_left (fun st dev => add_device dev st) ps st) = cmdfd st.
Proof.
  destruct (kept_add_devices ps st st (kept_refl st)) as (_ & F & _). exact F.
Qed.

Lemma since_initial (pipe : option cstr) (dump : bool) (answers : list Z)
  (st : daemon) :
  since (configured pipe dump answers) st = trace st.
Proof. reflexivity. Qed.

(** X11. How start_readers can end before the loop.  It returns 1 exactly
    when there is neither a path nor a command pipe on the command line;
    it has then written its message and opened nothing.  When a command
    pipe is configured and cannot be opened, open_cmd hands the configured
    path, which is [optarg], to [free] before add_device is called for any
    path, however many were given: start_readers has no defined outcome.
    In every other case start_readers reaches the loop. *)
Theorem start_refused (es : list env) (ps : list cstr) (pipe : option cstr)
  (dump : bool) (answers : list Z) :
  let c := configured pipe dump answers in
  (fst (start_readers es ps c) = Some 1 <-> pipe = None /\ ps = []) /\
  (pipe = None -> ps = [] ->
   start_readers es ps c = (Some 1, Halted (emit (Stderr MsgNoInput) c))) /\
  (forall p, pipe = Some p -> reopen_answer c < 0 ->
     start_readers es ps c = (None, Undefined) /\
     exists st,
       setup_readers ps c = inl (1, st) /\
       trace st = [OpenCmd (Some p) (-1);
                   Stderr (MsgUnableToOpenFifo (Some p));
                   FreeOptarg (Some p)] /\
       devs st = []) /\
  ((pipe <> None /\ 0 <= reopen_answer c) \/ (pipe = None /\ ps <> []) ->
   exists st0, setup_readers ps c = inr st0).
Proof.
  intros c. unfold start_readers, setup_readers.
  destruct pipe as [p|]; cbn [command_pipe configured c].
  - fold c. destruct (open_cmd_trace c) as (F & A & T).
    destruct (open_cmd_result c) as (D & _).
    rewrite F.
    destruct A as [A|A].
    + assert (Fr : frees_only_null (since c (snd (open_cmd c))) = false).
      { change (since c (snd (open_cmd c))) with (trace (snd (open_cmd c))).
        rewrite T, A. reflexivity. }
      rewrite A. change (-1 <? 0) with true. cbv iota beta. rewrite Fr.
      cbn [fst].
      split; [split; [discriminate | intros [H _]; discriminate]|].
      split; [discriminate|]. split.
      * intros q Q _. injection Q as <-. split; [reflexivity|].
        eexists. split; [reflexivity|]. split; [|exact D].
        rewrite T, A. reflexivity.
      * intros [[_ H]|[H _]]; [lia | discriminate].
    + replace (reopen_answer c <? 0) with false by (symmetry; apply Z.ltb_ge; lia).
      assert (N : fst (match process_events es
                               (fold_left (fun st dev => add_device dev st) ps
                                  (snd (open_cmd c))) with
                       | Halted st' => (Some 0, Halted st')
                       | r => (None, r)
                       end) <> Some 1).
      { destruct (process_events _ _); simpl; discriminate. }
      split; [split; [intros H; contradiction | intros [H _]; discriminate]|].
      split; [discriminate|]. split.
      * intros q _ H. lia.
      * intros _. eexists. reflexivity.
  - destruct ps as [|q ps].
    + simpl. split; [split; [auto | reflexivity]|].
      split; [reflexivity|]. split; [discriminate|].
      intros [[H _]|[_ H]]; congruence.
    + replace (Z.of_nat (length (q :: ps)) <? 1) with false
        by (symmetry; apply Z.ltb_ge; simpl; lia).
      assert (N : fst (match process_events es
                               (fold_left (fun st dev => add_device dev st)
                                  (q :: ps) c) with
                       | Halted st' => (Some 0, Halted st')
                       | r => (None, r)
                       end) <> Some 1).
      { destruct (process_events _ _); simpl; discriminate. }
      split; [split; [intros H; contradiction | intros [_ H]; discriminate]|].
      split; [discriminate|]. split; [discriminate|].
      intros _. eexists. reflexivity.
Qed.

Lemma setup_readers_channel (ps : list cstr) (pipe : option cstr)
  (dump : bool) (answers : list Z) (st : daemon) :
  setup_readers ps (configured pipe dump answers) = inr st ->
  match pipe with
  | Some p => exists r t, trace st = OpenCmd (Some p) r :: t /\
                          0 <= r /\ cmdfd st = r /\
                          filter is_cmd_open t = []
  | None => cmdfd st = -1 /\ filter is_cmd_open (trace st) = [] /\ ps <> []
  end.
Proof.
  unfold setup_readers. destruct pipe as [p|]; cbn [command_pipe configured].
  - set (c := configured (Some p) dump answers).
    destruct (open_cmd_trace c) as (F & A & T). rewrite F.
    destruct (reopen_answer c <? 0) eqn:R; [discriminate|].
    apply Z.ltb_ge in R. intros H. injection H as <-.
    destruct (kept_add_devices ps (snd (open_cmd c)) _ (kept_refl _))
      as (_ & Fd & _ & t & Tt & Nt).
    exists (reopen_answer c), t. rewrite Tt, T, Fd, F.
    split; [reflexivity|]. split; [exact R|]. split; [reflexivity|].
    apply filter_none. exact Nt.
  - destruct (Z.of_nat (length ps) <? 1) eqn:E; [discriminate|].
    intros H. injection H as <-.
    destruct (kept_add_devices ps (configured None dump answers) _ (kept_refl _))
      as (_ & Fd & _ & t & Tt & Nt).
    split; [rewrite Fd; reflexivity|]. split.
    + rewrite Tt. simpl. apply filter_none. exact Nt.
    + intros ->. discriminate.
Qed.

(** X12. The order of start_readers on the way into the loop.  When the
    loop is reached, add_device has been called once for every path of the
    command line, in their order, and nothing else has touched the
    registry; if a command pipe is configured it was opened first, before
    any device, and its descriptor is in place. *)
Theorem startup_order (ps : list cstr) (pipe : option cstr) (dump : bool)
  (answers : list Z) (st : daemon) :
  setup_readers ps (configured pipe dump answers) = inr st ->
  filter is_registry_call (trace st) = map CallAdd ps /\
  match pipe with
  | Some p => exists r t, trace st = OpenCmd (Some p) r :: t /\
                          0 <= r /\ cmdfd st = r /\
                          filter is_cmd_open t = []
  | None => cmdfd st = -1 /\ filter is_cmd_open (trace st) = [] /\ ps <> []
  end.
Proof.
  intros S. split; [|exact (setup_readers_channel ps pipe dump answers st S)].
  revert S. unfold setup_readers.
  destruct pipe as [p|]; cbn [command_pipe configured].
  - set (c := configured (Some p) dump answers).
    destruct (open_cmd_trace c) as (F & A & T). rewrite F.
    destruct (reopen_answer c <? 0); [discriminate|].
    intros H. injection H as <-.
    rewrite add_devices_calls, T. reflexivity.
  - destruct (Z.of_nat (length ps) <? 1); [discriminate|].
    intros H. injection H as <-.
    rewrite add_devices_calls. reflexivity.
Qed.

Lemma startup_order_witness :
  exists st,
    setup_readers [lit "/dev/input/event0"; lit "/dev/input/event1"]
      (configured (Some (lit "/run/thd.cmd")) false [3; -1; 5]) = inr st /\
    filter is_registry_call (trace st) =
      [CallAdd (lit "/dev/input/event0"); CallAdd (lit "/dev/input/event1")] /\
    cmdfd st = 3 /\
    devs st = [registered 5 "/dev/input/event1"].
Proof.
  eexists. split; [vm_compute; reflexivity|].
  destruct (startup_order [lit "/dev/input/event0"; lit "/dev/input/event1"]
              (Some (lit "/run/thd.cmd")) false [3; -1; 5] _ eq_refl)
    as (C & _).
  split; [exact C|]. split; reflexivity.
Defined.

Lemma add_device_opens (dev : cstr) (st : daemon) :
  opens (add_device dev st) = tl (opens st).
Proof.
  unfold add_device, Sys.open. cbn.
  destruct (opens st) as [|r rest] eqn:O; cbn; [exact O|].
  destruct (r <? 0) eqn:R; cbn; [reflexivity|]. rewrite R. reflexivity.
Qed.

Lemma add_devices_all_fail (ps : list cstr) (st : daemon) :
  Forall (fun a => a < 0) (opens st) ->
  devs (fold_left (fun st dev => add_device dev st) ps st) = devs st.
Proof.
  revert st. induction ps as [|p ps IH]; intros st F; simpl; [reflexivity|].
  rewrite IH.
  - rewrite add_device_devs. cbv zeta. unfold Sys.open.
    destruct (opens st) as [|r rest]; simpl; [apply app_nil_r|].
    inversion F as [|x l Hr Hl]; subst.
    apply Z.ltb_lt in Hr. rewrite Hr. simpl. apply app_nil_r.
  - rewrite add_device_opens. destruct (opens st); simpl; [constructor|].
    inversion F; assumption.
Qed.

(** X13. Starting with devices that cannot be opened.  With no command pipe
    and at least one path, if every open fails the registry stays empty,
    the loop ends at its first test without a single wait, and
    start_readers returns 0. *)
Theorem nothing_to_monitor (es : list env) (ps : list cstr) (dump : bool)
  (answers : list Z) :
  ps <> [] -> Forall (fun a => a < 0) answers ->
  exists st,
    setup_readers ps (configured None dump answers) = inr st /\
    devs st = [] /\
    start_readers es ps (configured None dump answers) = (Some 0, Halted st).
Proof.
  intros N F. unfold start_readers, setup_readers. cbn [command_pipe configured].
  destruct ps as [|q ps]; [congruence|].
  replace (Z.of_nat (length (q :: ps)) <? 1) with false
    by (symmetry; apply Z.ltb_ge; simpl; lia).
  eexists. split; [reflexivity|].
  assert (D : devs (fold_left (fun st dev => add_device dev st) (q :: ps)
                      (configured None dump answers)) = []).
  { rewrite add_devices_all_fail; [reflexivity | exact F]. }
  split; [exact D|].
  rewrite process_events_stops; [reflexivity|].
  apply loop_condition_false. split; [exact D|].
  rewrite add_devices_cmdfd. reflexivity.
Qed.

Lemma nothing_to_monitor_witness :
  exists st,
    start_readers [quiet key_press] [lit "/dev/input/event9"]
      (configured None false [-1]) = (Some 0, Halted st) /\
    devs st = [].
Proof.
  destruct (nothing_to_monitor [quiet key_press] [lit "/dev/input/event9"]
              false [-1]) as (st & _ & D & R).
  - discriminate.
  - repeat constructor.
  - exists st. split; [exact R | exact D].
Defined.

(** ** The path that is opened *)

Lemma kept_sound (pipe : option cstr) (st st' : daemon) :
  kept st st' -> channel_sound pipe st -> channel_sound pipe st'.
Proof.
  intros K (C & P & O). split; [eapply kept_consistent; eauto|].
  destruct K as (Pk & _ & _ & t & T & N). rewrite Pk. split; [exact P|].
  intros p r. rewrite T. intros H. apply in_app_or in H.
  destruct H as [H|H]; [apply (O p r H)|].
  rewrite forallb_forall in N. specialize (N _ H). discriminate.
Qed.

Lemma drain_sound (pipe : option cstr) (e : env) (st st' : daemon) :
  cmdfd st <> -1 -> channel_sound pipe st ->
  read_command_pipe e st = Some st' -> channel_sound pipe st'.
Proof.
  intros F J D. pose proof J as (C & P & O).
  assert (Pn : command_pipe st <> None) by (intros H; apply C in H; auto).
  destruct P as [P|P]; [contradiction|].
  revert D. rewrite read_command_pipe_unfold. cbv zeta.
  destruct (_ =? 0).
  - intros H. apply some_eq in H. subst st'.
    split; [apply open_cmd_consistent|].
    destruct (reconnect_state
                (MAXCMD - Z.of_nat (length (cmdbuffer st)) - 1) st)
      as (_ & _ & _ & _ & Pr & T).
    split.
    + rewrite Pr. destruct (_ <? 0); auto.
    + intros p r. rewrite T. intros H. apply in_app_or in H.
      destruct H as [H|H]; [apply (O p r H)|].
      assert (X : p = command_pipe st).
      { destruct (reopen_answer st <? 0); simpl in H;
          repeat (destruct H as [H|H]; [try discriminate; injection H; auto|]);
          destruct H. }
      subst p. rewrite P in *. auto.
  - destruct (c_string _) as [s|]; [|discriminate].
    intros H. eapply kept_sound; [|exact J].
    eapply kept_split_commands; [|exact H]. auto with kept.
Qed.

Lemma loop_body_sound (pipe : option cstr) (e : env) (st st' : daemon) :
  channel_sound pipe st -> loop_body e st = Some st' -> channel_sound pipe st'.
Proof.
  intros J B.
  destruct (loop_body_cases e st st' B) as [[_ ->]|[_ [->|[->|(F & _ & D)]]]].
  - eapply kept_sound; [|exact J]. auto with kept.
  - exact J.
  - eapply kept_sound; [apply kept_process_devices | exact J].
  - eapply drain_sound; [| |exact D].
    + destruct (kept_process_devices e (snd (wait e st)) st) as (_ & -> & _).
      exact F.
    + eapply kept_sound; [apply kept_process_devices | exact J].
Qed.

Lemma process_events_sound (pipe : option cstr) (es : list env)
  (st st' : daemon) :
  channel_sound pipe st ->
  process_events es st = Halted st' \/ process_events es st = Running st' ->
  channel_sound pipe st'.
Proof.
  revert st. induction es as [|e es IH]; intros st J; simpl.
  - destruct (loop_condition st); intros [H|H]; try discriminate;
      injection H as <-; exact J.
  - destruct (loop_condition st).
    + destruct (loop_body e st) as [s|] eqn:B.
      * apply IH. eapply loop_body_sound; eauto.
      * intros [H|H]; discriminate.
    + intros [H|H]; try discriminate. injection H as <-. exact J.
Qed.

Lemma setup_readers_sound (ps : list cstr) (pipe : option cstr) (dump : bool)
  (answers : list Z) (st : daemon) :
  setup_readers ps (configured pipe dump answers) = inr st ->
  channel_sound pipe st.
Proof.
  intros S. split; [eapply setup_readers_consistent; eauto|].
  pose proof (setup_readers_channel ps pipe dump answers st S) as M.
  revert S. unfold setup_readers.
  destruct pipe as [p|]; cbn [command_pipe configured].
  - destruct (open_cmd_result (configured (Some p) dump answers))
      as (_ & _ & _ & [(F & _)|(_ & P & _)]).
    + rewrite F. discriminate.
    + destruct (cmdfd _ <? 0); [discriminate|]. intros H. injection H as <-.
      destruct (kept_add_devices ps (snd (open_cmd (configured (Some p) dump answers)))
                  _ (kept_refl _)) as (Pk & _).
      split; [right; rewrite Pk, P; reflexivity|].
      destruct M as (r & t & T & _ & _ & N). intros q x. rewrite T.
      intros [H|H].
      * injection H as <- _. split; [reflexivity | discriminate].
      * exfalso. assert (I : In (OpenCmd q x) (filter is_cmd_open t))
          by (apply filter_In; split; [exact H | reflexivity]).
        rewrite N in I. destruct I.
  - destruct (_ <? 1); [discriminate|]. intros H. injection H as <-.
    destruct (kept_add_devices ps (configured None dump answers) _ (kept_refl _))
      as (Pk & _).
    split; [left; rewrite Pk; reflexivity|].
    destruct M as (_ & N & _). intros q x H. exfalso.
    assert (I : In (OpenCmd q x) (filter is_cmd_open
                (trace (fold_left (fun st dev => add_device dev st) ps
                          (configured None dump answers)))))
      by (apply filter_In; split; [exact H | reflexivity]).
    rewrite N in I. destruct I.
Qed.

(** X14. Which path is opened as the command pipe.  In every state of a run,
    from start_readers through any number of turns of the loop, each open
    of the command pipe so far was given the path configured with
    [--command], never NULL and never another path; without [--command]
    there is no such open at all.  Besides, [cmdfd] is -1 exactly when
    [command_pipe] is NULL. *)
Theorem command_pipe_path (ps : list cstr) (pipe : option cstr) (dump : bool)
  (answers : list Z) (es : list env) (st0 st : daemon) :
  setup_readers ps (configured pipe dump answers) = inr st0 ->
  process_events es st0 = Halted st \/ process_events es st0 = Running st ->
  (forall p r, In (OpenCmd p r) (trace st) -> p = pipe /\ p <> None) /\
  (cmdfd st = -1 <-> command_pipe st = None) /\
  (command_pipe st = None \/ command_pipe st = pipe).
Proof.
  intros S R.
  destruct (process_events_sound pipe es st0 st
              (setup_readers_sound _ _ _ _ _ S) R) as (C & P & O).
  auto.
Qed.

Lemma command_pipe_path_witness :
  exists st0 st,
    setup_readers [] (configured (Some (lit "/run/thd.cmd")) false [3; 4])
      = inr st0 /\
    process_events [with_cmd_in Sys.Eof (writes_over [] [])] st0 = Running st /\
    filter is_cmd_open (trace st) =
      [OpenCmd (Some (lit "/run/thd.cmd")) 3;
       OpenCmd (Some (lit "/run/thd.cmd")) 4] /\
    (forall p r, In (OpenCmd p r) (trace st) ->
                 p = Some (lit "/run/thd.cmd") /\ p <> None).
Proof.
  eexists. eexists. split; [vm_compute; reflexivity|].
  split; [vm_compute; reflexivity|]. split; [reflexivity|].
  eapply (command_pipe_path [] (Some (lit "/run/thd.cmd")) false [3; 4]
            [with_cmd_in Sys.Eof (writes_over [] [])]).
  - vm_compute. reflexivity.
  - right. vm_compute. reflexivity.
Defined.

(** * main *)

Lemma listed_cases (c : ascii) :
  Getopt.listed optstring c = true ->
  c = "d"%char \/ c = "t"%char \/ c = "c"%char \/ c = "h"%char.
Proof.
  unfold Getopt.listed. intros H. apply andb_prop in H as [N E].
  simpl in E.
  repeat (apply orb_prop in E as [E|E]);
    try (apply Ascii.eqb_eq in E; subst c; auto; discriminate);
    discriminate.
Qed.

Lemma letter_cases (s : Getopt.scanned) (c : ascii) :
  letter s = Some c ->
  c = "d"%char \/ c = "t"%char \/ c = "c"%char \/ c = "h"%char.
Proof.
  destruct s as [[|[|[|[|n]]]] a|x a|]; simpl; try discriminate;
    try (intros H; injection H as <-; auto).
  destruct (Getopt.listed optstring x) eqn:L; [|discriminate].
  intros H. injection H as <-. apply listed_cases, L.
Qed.

(** What a turn of the loop does, by the option found. *)
Lemma switch_cases (s : Getopt.scanned) (f : frame) :
  exists i,
    switch s f =
      match letter s with
      | None => inl (1, {| option_index := i; log := log f;
                           globals := globals f |})
      | Some c =>
          if Ascii.eqb c "d" then
            inr {| option_index := i; log := log f;
                   globals := with_dump_events true (globals f) |}
          else if Ascii.eqb c "t" then
            inr {| option_index := i;
                   log := log f ++ [ReadTriggerfile (optarg_of s)];
                   globals := globals f |}
          else if Ascii.eqb c "c" then
            inr {| option_index := i; log := log f;
                   globals := with_command_pipe (optarg_of s) (globals f) |}
          else
            inl (0, {| option_index := i; log := log f ++ [ShowHelp];
                       globals := globals f |})
      end.
Proof.
  destruct s as [[|[|[|[|n]]]] a|c a|]; try (eexists; reflexivity).
  - destruct n; eexists; reflexivity.
  - simpl letter. destruct (Getopt.listed optstring c) eqn:L.
    + destruct (listed_cases c L) as [->|[->|[->| ->]]];
        eexists; reflexivity.
    + unfold switch, Getopt.getopt_long. rewrite L. eexists. reflexivity.
Qed.

Lemma is_option_letter (s : Getopt.scanned) (c x : ascii) :
  letter s = Some c -> is_option x s = Ascii.eqb c x.
Proof. unfold is_option. intros ->. reflexivity. Qed.

Lemma passes_cases (s : Getopt.scanned) :
  passes s = true ->
  letter s = Some "d"%char \/ letter s = Some "t"%char \/
  letter s = Some "c"%char.
Proof.
  unfold passes, is_option. destruct (letter s) as [c|]; [|discriminate].
  intros H. repeat (apply orb_prop in H as [H|H]);
    apply Ascii.eqb_eq in H; subst c; auto.
Qed.

Lemma stops_cases (s : Getopt.scanned) :
  passes s = false -> letter s = Some "h"%char \/ letter s = None.
Proof.
  destruct (letter s) as [c|] eqn:L; [|auto].
  unfold passes. rewrite !(is_option_letter s c _ L).
  destruct (letter_cases s c L) as [->|[->|[->| ->]]];
    simpl; try discriminate; auto.
Qed.

Lemma options_app (a b : list Getopt.scanned) (f : frame) :
  options (a ++ b) f =
    match options a f with
    | inl r => inl r
    | inr f' => options b f'
    end.
Proof.
  revert f. induction a as [|s a IH]; intros f; simpl; [reflexivity|].
  destruct (switch s f) as [r|f']; [reflexivity | apply IH].
Qed.

Lemma settled_nil (st : daemon) : settled [] st = st.
Proof.
  destruct st. unfold settled, with_dump_events, with_command_pipe.
  simpl. rewrite orb_false_r. reflexivity.
Qed.

Lemma settled_snoc (scans : list Getopt.scanned) (s : Getopt.scanned)
  (st : daemon) :
  settled (scans ++ [s]) st =
    (if is_option "d" s then with_dump_events true (settled scans st)
     else if is_option "c" s
          then with_command_pipe (optarg_of s) (settled scans st)
          else settled scans st).
Proof.
  unfold settled, dump_asked.
  rewrite filter_app, existsb_app, rev_app_distr. simpl filter. simpl existsb.
  rewrite orb_false_r.
  assert (X : is_option "d" s = true -> is_option "c" s = false).
  { unfold is_option. destruct (letter s) as [c|]; [|discriminate].
    intros H. apply Ascii.eqb_eq in H. subst c. reflexivity. }
  destruct (is_option "d" s) eqn:D.
  - rewrite (X eq_refl). simpl. rewrite !orb_true_r. reflexivity.
  - rewrite orb_false_r. destruct (is_option "c" s); reflexivity.
Qed.

(** The loop of main over options that do not end it. *)
Lemma options_pass (scans : list Getopt.scanned) (f : frame) :
  forallb passes scans = true ->
  exists i,
    options scans f =
      inr {| option_index := i; log := log f ++ trigger_files scans;
             globals := settled scans (globals f) |}.
Proof.
  induction scans as [|s scans IH] using rev_ind; intros P.
  - exists (option_index f). simpl. rewrite settled_nil.
    unfold trigger_files. simpl. rewrite app_nil_r. destruct f; reflexivity.
  - rewrite forallb_app in P. apply andb_prop in P as [P Ps].
    simpl in Ps. rewrite andb_true_r in Ps.
    destruct (IH P) as (i & E). rewrite options_app, E. simpl.
    destruct (switch_cases s {| option_index := i;
                log := log f ++ trigger_files scans;
                globals := settled scans (globals f) |}) as (j & ->).
    rewrite settled_snoc. unfold trigger_files.
    rewrite filter_app, map_app. simpl filter.
    destruct (passes_cases s Ps) as [L|[L|L]];
      rewrite L, !(is_option_letter s _ _ L); simpl;
      exists j; rewrite ?app_nil_r, <- ?app_assoc; reflexivity.
Qed.

Lemma settled_initial (scans : list Getopt.scanned) (answers : list Z) :
  settled scans (initial answers) =
    configured (last_command scans) (dump_asked scans) answers.
Proof. reflexivity. Qed.

(** X15. [main] hands the options over to start_readers.  When the command
    line holds only [-d], [-t] and [-c] options, in their short or long
    forms and in any number and order, main calls [read_triggerfile] for
    each [-t] in the order of the command line, then
    [init_keystate_holder], then start_readers with [command_pipe] set to
    the argument of the last [-c] (NULL without one) and [dump_events] set
    exactly when a [-d] was given; main returns what start_readers
    returns. *)
Theorem main_configures (scans : list Getopt.scanned) (paths : list cstr)
  (es : list env) (answers : list Z) :
  forallb passes scans = true ->
  main scans paths es answers =
    (fst (start_readers es paths
            (configured (last_command scans) (dump_asked scans) answers)),
     Signal :: trigger_files scans ++ [InitKeystateHolder],
     snd (start_readers es paths
            (configured (last_command scans) (dump_asked scans) answers))).
Proof.
  intros P. unfold main.
  destruct (options_pass scans {| option_index := 0; log := [Signal];
              globals := initial answers |} P) as (i & ->).
  cbn [globals log]. rewrite settled_initial.
  destruct (start_readers _ _ _) as [code r]. reflexivity.
Qed.

Lemma main_configures_witness :
  main some_options [lit "/dev/input/event0"] [] [3; 4] =
    (None,
     [Signal; ReadTriggerfile (Some (lit "keys.conf"));
      ReadTriggerfile (Some (lit "more.conf")); InitKeystateHolder],
     snd (start_readers [] [lit "/dev/input/event0"]
            (configured (Some (lit "/run/b")) true [3; 4]))).
Proof.
  exact (main_configures some_options [lit "/dev/input/event0"] [] [3; 4]
           eq_refl).
Defined.

(** X16. [--help] and an option that getopt_long does not recognise end
    main at once.  Whatever follows on the command line, main returns at
    the first such option, 0 for [-h] (after show_help) and 1 otherwise;
    the trigger files named before it have been read, in order; nothing
    has been opened, no device has been added, and neither
    init_keystate_holder nor start_readers has been called. *)
Theorem help_or_error_ends_main (before after : list Getopt.scanned)
  (s : Getopt.scanned) (paths : list cstr) (es : list env)
  (answers : list Z) :
  forallb passes before = true ->
  passes s = false ->
  main (before ++ s :: after) paths es answers =
    (Some (if is_option "h" s then 0 else 1),
     Signal :: trigger_files before ++
       (if is_option "h" s then [ShowHelp] else []),
     Halted (configured (last_command before) (dump_asked before) answers)).
Proof.
  intros P N. unfold main. rewrite options_app.
  destruct (options_pass before {| option_index := 0; log := [Signal];
              globals := initial answers |} P) as (i & ->).
  cbn [options].
  match goal with
  | |- context [switch s ?g] => destruct (switch_cases s g) as (j & ->)
  end.
  cbn [log globals]. rewrite settled_initial.
  destruct (stops_cases s N) as [L|L]; rewrite L; unfold is_option; rewrite L;
    simpl; rewrite ?app_nil_r; reflexivity.
Qed.

Lemma help_or_error_ends_main_witness :
  main (some_options ++ Getopt.LongOption 3 None :: [Getopt.Unrecognised])
       [lit "/dev/input/event0"] [quiet key_press] [3; 4] =
    (Some 0,
     [Signal; ReadTriggerfile (Some (lit "keys.conf"));
      ReadTriggerfile (Some (lit "more.conf")); ShowHelp],
     Halted (configured (Some (lit "/run/b")) true [3; 4])).
Proof.
  exact (help_or_error_ends_main some_options [Getopt.Unrecognised]
           (Getopt.LongOption 3 None) [lit "/dev/input/event0"]
           [quiet key_press] [3; 4] eq_refl eq_refl).
Defined.

Lemma letter_short_form (s : Getopt.scanned) :
  letter (short_form s) = letter s /\ optarg_of (short_form s) = optarg_of s.
Proof.
  destruct s as [[|[|[|[|n]]]] a|c a|]; split; reflexivity.
Qed.

Lemma switch_alike (s s' : Getopt.scanned) (f f' : frame) :
  letter s = letter s' -> optarg_of s = optarg_of s' ->
  log f = log f' -> globals f = globals f' ->
  alike (switch s f) (switch s' f').
Proof.
  intros L A Lg G.
  destruct (switch_cases s f) as (i & ->).
  destruct (switch_cases s' f') as (j & ->).
  rewrite L, A, Lg, G.
  destruct (letter s') as [c|]; [|simpl; auto].
  destruct (Ascii.eqb c "d"); [simpl; auto|].
  destruct (Ascii.eqb c "t"); [simpl; auto|].
  destruct (Ascii.eqb c "c"); simpl; auto.
Qed.

Lemma options_alike (scans : list Getopt.scanned) (f f' : frame) :
  log f = log f' -> globals f = globals f' ->
  alike (options (map short_form scans) f) (options scans f').
Proof.
  revert f f'. induction scans as [|s scans IH]; intros f f' Lg G.
  - simpl. auto.
  - simpl. destruct (letter_short_form s) as (L & A).
    pose proof (switch_alike (short_form s) s f f' L A Lg G) as W.
    destruct (switch (short_form s) f) as [[c g]|g],
             (switch s f') as [[c' g']|g']; simpl in W; try contradiction.
    + exact W.
    + destruct W as (Lg' & G'). apply IH; assumption.
Qed.

(** X17. The long and the short form of an option do the same.  Replacing
    long options by their short forms changes nothing in what main does:
    [--dump], which getopt_long handles by itself through the [flag] of
    the table, equals [-d], which the switch handles; [--triggers],
    [--command] and [--help] equal [-t], [-c] and [-h]. *)
Theorem long_and_short_forms_agree (scans : list Getopt.scanned)
  (paths : list cstr) (es : list env) (answers : list Z) :
  main (map short_form scans) paths es answers =
    main scans paths es answers.
Proof.
  unfold main.
  pose proof (options_alike scans
                {| option_index := 0; log := [Signal];
                   globals := initial answers |}
                {| option_index := 0; log := [Signal];
                   globals := initial answers |} eq_refl eq_refl) as W.
  destruct (options (map short_form scans) _) as [[c g]|g],
           (options scans _) as [[c' g']|g']; simpl in W; try contradiction.
  - destruct W as (-> & -> & ->). reflexivity.
  - destruct W as (-> & ->). reflexivity.
Qed.

Lemma switch_prints_no_option (s : Getopt.scanned) (f : frame) :
  filter is_print_option (log f) = [] ->
  match switch s f with
  | inl (_, g) | inr g => filter is_print_option (log g) = []
  end.
Proof.
  intros H. destruct (switch_cases s f) as (i & ->).
  destruct (letter s) as [c|]; [|exact H].
  destruct (Ascii.eqb c "d"); [exact H|].
  destruct (Ascii.eqb c "t");
    [cbn [log]; rewrite filter_app, H; reflexivity|].
  destruct (Ascii.eqb c "c"); [exact H|].
  cbn [log]. rewrite filter_app, H. reflexivity.
Qed.

Lemma options_print_no_option (scans : list Getopt.scanned) (f : frame) :
  filter is_print_option (log f) = [] ->
  match options scans f with
  | inl (_, g) | inr g => filter is_print_option (log g) = []
  end.
Proof.
  revert f. induction scans as [|s scans IH]; intros f H; simpl; [exact H|].
  pose proof (switch_prints_no_option s f H) as W.
  destruct (switch s f) as [[c g]|g]; [exact W | apply IH, W].
Qed.

(** X18. The branch of the switch that prints [option %s] is never taken.
    getopt_long returns 0 only for an entry of long_options whose [flag]
    is set, and [case 0] prints only for an entry whose [flag] is not:
    whatever the command line, main never reaches that printf.  *)
Theorem option_print_unreachable (scans : list Getopt.scanned)
  (paths : list cstr) (es : list env) (answers : list Z) (name : cstr)
  (optarg : option cstr) :
  ~ In (PrintOption name optarg) (snd (fst (main scans paths es answers))).
Proof.
  intros I.
  assert (F : filter is_print_option
                (snd (fst (main scans paths es answers))) = []).
  { unfold main.
    pose proof (options_print_no_option scans
                  {| option_index := 0; log := [Signal];
                     globals := initial answers |} eq_refl) as W.
    destruct (options scans _) as [[c g]|g]; [exact W|].
    destruct (start_readers es paths (globals g)) as [code r].
    cbn [fst snd]. rewrite filter_app, W. reflexivity. }
  assert (J : In (PrintOption name optarg)
                (filter is_print_option
                   (snd (fst (main scans paths es answers)))))
    by (apply filter_In; split; [exact I | reflexivity]).
  rewrite F in J. destruct J.
Qed.
